(** * DeepLabCut (PyTorch engine): heatmap decoding and evaluation scoring

    A shallow embedding of

    - [deeplabcut/pose_estimation_pytorch/apis/scoring.py]
      ([get_scores], [build_keypoint_array], [compute_rmse], [compute_oks],
      [build_assemblies], [align_predicted_individuals_to_gt],
      [mask_invisible]),
    - [deeplabcut/pose_estimation_pytorch/models/predictors/single_predictor.py]
      ([HeatmapPredictor]: [forward], [get_top_values], [get_pose_prediction])
      and
    - [deeplabcut/pose_estimation_pytorch/modelzoo/utils.py]
      ([_map_model_keys]).

    Floating-point numbers are kept behind an interface ([Float]) so that the
    same definitions read as float32 tensors (torch) or float64 arrays
    (numpy).  The interface is instantiated with the IEEE-754 binary64 model
    of the Standard Library ([SpecFloat]), which is executable. *)

From Stdlib Require Import String Ascii ZArith Lia Bool Arith PeanoNat SpecFloat List.
From Stdlib Require Import Sorting.Sorted Sorting.Permutation.
Import ListNotations.
Open Scope string_scope.
Open Scope list_scope.
Open Scope nat_scope.

(** ** Python exceptions and the error monad *)

Inductive exn :=
| ValueError (msg : string)
| KeyError (key : string)
| IndexError
| TypeError (msg : string)
| RuntimeError (msg : string).

Inductive result (A : Type) : Type :=
| Ok (a : A)
| Raise (e : exn).

Arguments Ok {A} a.
Arguments Raise {A} e.

Definition bind {A B} (c : result A) (k : A -> result B) : result B :=
  match c with
  | Ok a => k a
  | Raise e => Raise e
  end.

Declare Scope result_scope.
Delimit Scope result_scope with result.
Notation "x <- c ;; k" := (bind c (fun x => k))
  (at level 100, c at next level, right associativity) : result_scope.
Notation "' p <- c ;; k" := (bind c (fun p => k))
  (at level 100, p pattern, c at next level, right associativity) : result_scope.
Open Scope result_scope.

(** Sequencing a list of fallible computations, left to right. *)
Fixpoint mapM {A B} (f : A -> result B) (l : list A) : result (list B) :=
  match l with
  | [] => Ok []
  | a :: l' => b <- f a ;; bs <- mapM f l' ;; Ok (b :: bs)
  end.

Definition is_ok {A} (r : result A) : bool :=
  match r with Ok _ => true | Raise _ => false end.

(** ** The floating-point interface *)

Class Float := {
  F : Type;
  fadd : F -> F -> F;
  fsub : F -> F -> F;
  fmul : F -> F -> F;
  fdiv : F -> F -> F;
  fsqrt : F -> F;
  (** IEEE comparisons [<] and [>=]: false as soon as one side is NaN. *)
  fltb : F -> F -> bool;
  fgeb : F -> F -> bool;
  isnan : F -> bool;
  isfinite : F -> bool;
  fnan : F;
  (** conversion of an integer, and of the decimal literal [m * 10^-e] *)
  of_int : Z -> F;
  of_decimal : Z -> nat -> F;
  (** the reduction [np.sum] over a one-dimensional array *)
  fsum : list F -> F;
  (** the total order used by [torch.topk]: [topk_geb a b] reads "a is ranked
      at least as high as b" *)
  topk_geb : F -> F -> bool
}.

Class FloatLaws (FL : Float) : Prop := {
  isnan_fnan : isnan fnan = true;
  fgeb_nan_l : forall x p, isnan x = true -> fgeb x p = false;
  isfinite_nan : forall x, isnan x = true -> isfinite x = false;
  mean_of_nothing : isnan (fdiv (fsum []) (of_int 0)) = true;
  topk_geb_total : forall a b, topk_geb a b = true \/ topk_geb b a = true;
  topk_geb_trans : forall a b c,
      topk_geb a b = true -> topk_geb b c = true -> topk_geb a c = true
}.

(** ** IEEE-754 binary64 (numpy's float64) as an instance *)

Module B64.

Definition prec : Z := 53.
Definition emax : Z := 1024.

Definition of_Z (z : Z) : spec_float := binary_normalize prec emax z 0 false.

Definition is_nan (x : spec_float) : bool :=
  match x with S754_nan => true | _ => false end.

Definition is_finite (x : spec_float) : bool :=
  match x with S754_zero _ | S754_finite _ _ _ => true | _ => false end.

(** Both [m] and [10^e] are exact in binary64 for the literals of the source
    (7.2801, 0.5, -1), so the correctly rounded quotient is the literal. *)
Definition decimal (m : Z) (e : nat) : spec_float :=
  SFdiv prec emax (of_Z m) (of_Z (10 ^ Z.of_nat e)).

Definition sum (xs : list spec_float) : spec_float :=
  fold_left (SFadd prec emax) xs (S754_zero false).

(** Ranking key: NaN above [+inf], then the numeric order; the two zeros
    are tied. *)
Definition key (x : spec_float) : Z * Z * Z :=
  match x with
  | S754_nan => (3, 0, 0)
  | S754_infinity false => (2, 0, 0)
  | S754_finite false m e => (1, e, Zpos m)
  | S754_zero _ => (0, 0, 0)
  | S754_finite true m e => (-1, - e, Zneg m)
  | S754_infinity true => (-2, 0, 0)
  end%Z.

Definition lex_geb (a b : Z * Z * Z) : bool :=
  let '(a1, a2, a3) := a in
  let '(b1, b2, b3) := b in
  ((b1 <? a1) || ((b1 =? a1) && ((b2 <? a2) || ((b2 =? a2) && (b3 <=? a3)))))%Z.

Definition rank_geb (x y : spec_float) : bool := lex_geb (key x) (key y).

End B64.

#[export] Instance binary64 : Float := {|
  F := spec_float;
  fadd := SFadd B64.prec B64.emax;
  fsub := SFsub B64.prec B64.emax;
  fmul := SFmul B64.prec B64.emax;
  fdiv := SFdiv B64.prec B64.emax;
  fsqrt := SFsqrt B64.prec B64.emax;
  fltb := SFltb;
  fgeb := fun x y => SFleb y x;
  isnan := B64.is_nan;
  isfinite := B64.is_finite;
  fnan := S754_nan;
  of_int := B64.of_Z;
  of_decimal := B64.decimal;
  fsum := B64.sum;
  topk_geb := B64.rank_geb
|}.


(** ** Scoring: data model ([apis/scoring.py]) *)

Section Scoring.
Context {FL : Float}.

(** One keypoint is a row [x, y] or [x, y, score]; a keypoint array of one
    image has axes (individuals, keypoints, values).  The extents are read
    off the nesting, so the trailing extents of an empty array read as 0. *)
Definition row := list F.
Definition array2 := list row.
Definition array3 := list array2.
Definition array4 := list array3.

(** A Python [dict] with string keys, in insertion order. *)
Definition dict (V : Type) := list (string * V).

Fixpoint dict_get {V} (d : dict V) (k : string) : result V :=
  match d with
  | [] => Raise (KeyError k)
  | (k', v) :: d' => if String.eqb k k' then Ok v else dict_get d' k
  end.

(** [d[k] = v]: overwrite in place, or append at the end. *)
Fixpoint dict_set {V} (d : dict V) (k : string) (v : V) : dict V :=
  match d with
  | [] => [(k, v)]
  | (k', v') :: d' =>
      if String.eqb k k' then (k', v) :: d' else (k', v') :: dict_set d' k v
  end.

Definition keys {V} (d : dict V) : list string := map fst d.

(** Two dictionaries with the same keys in the same order and related
    values. *)
Definition dict_rel {V W} (R : V -> W -> Prop) (d : dict V) (d' : dict W)
  : Prop :=
  Forall2 (fun x y => fst x = fst y /\ R (snd x) (snd y)) d d'.

Definition shape_of (a : array3) : nat * nat * nat :=
  (length a, length (hd [] a), length (hd [] (hd [] a))).

Definition shape_eqb (s t : nat * nat * nat) : bool :=
  let '(a, b, c) := s in
  let '(a', b', c') := t in
  (a =? a') && (b =? b') && (c =? c').

(** [np.stack]: at least one array, all of one shape. *)
Definition np_stack (arrays : list array3) : result array4 :=
  match arrays with
  | [] => Raise (ValueError "need at least one array to stack")
  | a :: rest =>
      if forallb (fun b => shape_eqb (shape_of b) (shape_of a)) rest
      then Ok arrays
      else Raise (ValueError "all input arrays must have the same shape")
  end.

Definition build_keypoint_array (keypoints : dict array3) (keys : list string)
  : result array4 :=
  image_keypoints <- mapM (fun image_key => dict_get keypoints image_key) keys ;;
  np_stack image_keypoints.

(** [a[..., :n]] on the last axis. *)
Definition slice_last (n : nat) (a : array4) : array4 :=
  map (map (map (firstn n))) a.

(** The elements in C order, as [reshape] sees them. *)
Definition ravel (a : array4) : list F := concat (concat (concat a)).

(** [.reshape((-1, 3))] and [.reshape((-1, 2))] of the flattened data. *)
Fixpoint reshape_m1_3 (flat : list F) : result (list (F * F * F)) :=
  match flat with
  | [] => Ok []
  | a :: b :: c :: rest => rs <- reshape_m1_3 rest ;; Ok ((a, b, c) :: rs)
  | _ => Raise (ValueError "cannot reshape array into shape (3)")
  end.

Fixpoint reshape_m1_2 (flat : list F) : result (list (F * F)) :=
  match flat with
  | [] => Ok []
  | a :: b :: rest => rs <- reshape_m1_2 rest ;; Ok ((a, b) :: rs)
  | _ => Raise (ValueError "cannot reshape array into shape (2)")
  end.

(** The keypoints of a stacked array in C order, and the values a
    two- or three-column keypoint holds. *)
Definition keypoint_rows (a : array4) : list row := concat (concat a).

Definition pair_of (r : row) : F * F := (nth 0 r fnan, nth 1 r fnan).

Definition triple_of (r : row) : F * F * F :=
  (nth 0 r fnan, nth 1 r fnan, nth 2 r fnan).

(** An array of shape (i, k, c). *)
Definition has_shape (i k c : nat) (a : array3) : Prop :=
  length a = i
  /\ Forall (fun idv : array2 =>
               length idv = k /\ Forall (fun r : row => length r = c) idv) a.

(** *** [compute_rmse] *)

(** [np.nanmean] of a one-dimensional array: the mean of the entries that
    are not NaN; over no entries at all this is [0/0]. *)
Definition nanmean (xs : list F) : F :=
  let kept := filter (fun x => negb (isnan x)) xs in
  fdiv (fsum kept) (of_int (Z.of_nat (length kept))).

(** Boolean-mask indexing [a[mask]]. *)
Definition bool_index {A} (a : list A) (mask : list bool) : list A :=
  map fst (filter snd (combine a mask)).

Definition square (d : F) : F := fmul d d.

Definition same_rows_msg : string :=
  "Prediction and target arrays must have same number of elements!".

Definition compute_rmse (pred : list (F * F * F)) (ground_truth : list (F * F))
           (pcutoff : F) : result (F * F) :=
  if negb (length pred =? length ground_truth) then
    Raise (ValueError same_rows_msg)
  else
    let mask := map (fun p => fgeb (snd p) pcutoff) pred in
    let square_distances :=
      map (fun pg => (square (fsub (fst (fst (fst pg))) (fst (snd pg))),
                      square (fsub (snd (fst (fst pg))) (snd (snd pg)))))
          (combine pred ground_truth) in
    let mean_square_errors :=
      map (fun d => fsum [fst d; snd d]) square_distances in
    let rmse := nanmean (map fsqrt mean_square_errors) in
    let rmse_p := nanmean (map fsqrt (bool_index mean_square_errors mask)) in
    Ok (rmse, rmse_p).

(** The spec's wording of the two results, row by row. *)
Definition euclidean_distance (p : F * F * F) (g : F * F) : F :=
  fsqrt (fsum [square (fsub (fst (fst p)) (fst g));
               square (fsub (snd (fst p)) (snd g))]).

Definition row_distances (rows : list ((F * F * F) * (F * F))) : list F :=
  map (fun pg => euclidean_distance (fst pg) (snd pg)) rows.

Definition passes_cutoff (pcutoff : F) (pg : (F * F * F) * (F * F)) : bool :=
  fgeb (snd (fst pg)) pcutoff.

Definition spec_rmse (pred : list (F * F * F)) (gt : list (F * F)) : F :=
  nanmean (row_distances (combine pred gt)).

Definition spec_rmse_pcutoff (pred : list (F * F * F)) (gt : list (F * F))
           (pcutoff : F) : F :=
  nanmean (row_distances (filter (passes_cutoff pcutoff) (combine pred gt))).

(** *** Assemblies *)

(** Modelled from the spec: [Assembly] and [Assembly.from_array] live in
    [pose_estimation_tensorflow/lib/inferenceutils.py], which is not part of
    these sources.  Following the spec, an assembly retains the joints of
    one individual whose coordinates are all finite, each with its joint
    index; its length is the number of retained joints; building it reads
    the array and writes nothing. *)
Definition Assembly := list (nat * row).

(** Modelled from the spec: a joint is retained when its coordinates are
    finite. *)
Definition joint_valid (r : row) : bool := forallb isfinite r.

(** Modelled from the spec: [Assembly.from_array] on the (keypoints, values)
    array of one individual. *)
Definition Assembly_from_array (idv_bodyparts : array2) : Assembly :=
  filter (fun ir => joint_valid (snd ir))
         (combine (seq 0 (length idv_bodyparts)) idv_bodyparts).

(** Modelled from the spec: [len(assembly)], the number of retained joints. *)
Definition Assembly_len (a : Assembly) : nat := length a.

Definition image_assemblies_of (keypoints : array3) : list Assembly :=
  fold_left
    (fun image_assemblies idv_bodyparts =>
       let assembly := Assembly_from_array idv_bodyparts in
       if 0 <? Assembly_len assembly
       then image_assemblies ++ [assembly]
       else image_assemblies)
    keypoints [].

(** What an image's assembly list is expected to satisfy: only assemblies
    with at least one joint, all of whose joints are valid. *)
Definition no_empty_assembly (asms _ : list Assembly) : Prop :=
  Forall (fun a : Assembly =>
            0 < Assembly_len a
            /\ Forall (fun ir : nat * row => joint_valid (snd ir) = true) a)
         asms.

Definition build_assemblies (poses : dict array3) : dict (list Assembly) :=
  fold_left
    (fun assemblies item =>
       dict_set assemblies (fst item) (image_assemblies_of (snd item)))
    poses [].

(** *** [compute_oks] *)

Record oks_scores := { mAP : F; mAR : F }.

(** Modelled from the spec: [evaluate_assembly] (same absent module) is the
    external evaluator; it receives the two assembly mappings, sigma, the
    margin and the symmetric keypoints, and returns mAP and mAR. *)
Variable evaluate_assembly :
  dict (list Assembly) -> dict (list Assembly) -> F -> F -> option (list (nat * nat)) ->
  oks_scores.

(** [a[:, :, :2]] *)
Definition slice2 (a : array3) : array3 := map (map (firstn 2)) a.

(** [keypoints_with_scores[:, :, 2] < pcutoff]; index 2 must exist.  An
    array is held as the nested lists of its values, so that the length of
    the last axis is known from its keypoints: on an array without any
    keypoint numpy decides by that length alone, which the lists do not hold,
    and the embedding lets the indexing pass, as numpy does when the last
    axis has three values or more.  Statements on when this raises are made
    for arrays that hold a keypoint. *)
Definition below_cutoff (pcutoff : F) (keypoints_with_scores : array3)
  : result (list (list bool)) :=
  mapM (mapM (fun r : row =>
                match nth_error r 2 with
                | None => Raise IndexError
                | Some score => Ok (fltb score pcutoff)
                end))
       keypoints_with_scores.

(** [keypoints[mask] = np.nan]: every value of a selected keypoint. *)
Definition assign_nan (keypoints : array3) (mask : list (list bool)) : array3 :=
  map (fun im : array2 * list bool =>
         map (fun rb : row * bool =>
                if snd rb then map (fun _ => fnan) (fst rb) else fst rb)
             (combine (fst im) (snd im)))
      (combine keypoints mask).

(** The body of the masking loop on array values:
    [keypoints = keypoints_with_scores[:, :, :2].copy()], then, when a
    pcutoff is given, [keypoints[keypoints_with_scores[:, :, 2] < pcutoff] = nan]. *)
Definition mask_keypoints (pcutoff : option F) (keypoints_with_scores : array3)
  : result array3 :=
  let keypoints := slice2 keypoints_with_scores in
  match pcutoff with
  | None => Ok keypoints
  | Some pc =>
      mask <- below_cutoff pc keypoints_with_scores ;;
      Ok (assign_nan keypoints mask)
  end.

(** The spec's wording of one masked keypoint: NaN coordinates when the
    confidence is below the pcutoff, the input's coordinates otherwise. *)
Definition masked_keypoint (pcutoff : F) (r : row) : row :=
  if fltb (nth 2 r fnan) pcutoff then [fnan; fnan] else firstn 2 r.

(** Every keypoint of the array carries a score at index 2. *)
Definition three_columns (kws : array3) : Prop :=
  Forall (Forall (fun r : row => 3 <= length r)) kws.

(** The masked and the unmasked copy of one array of predictions. *)
Definition masked_of (pc : F) (masked unmasked : array3) : Prop :=
  exists kws, three_columns kws
              /\ masked = map (map (masked_keypoint pc)) kws
              /\ unmasked = slice2 kws.

Fixpoint mask_predictions (pred : dict array3) (pcutoff : option F)
         (masked_pred : dict array3) : result (dict array3) :=
  match pred with
  | [] => Ok masked_pred
  | (image_path, keypoints_with_scores) :: rest =>
      keypoints <- mask_keypoints pcutoff keypoints_with_scores ;;
      mask_predictions rest pcutoff (dict_set masked_pred image_path keypoints)
  end.

Definition compute_oks (pred ground_truth : dict array3) (oks_sigma margin : F)
           (symmetric_kpts : option (list (nat * nat))) (pcutoff : option F)
  : result oks_scores :=
  masked_pred <- mask_predictions pred pcutoff [] ;;
  let assemblies_pred := build_assemblies masked_pred in
  let assemblies_gt := build_assemblies ground_truth in
  Ok (evaluate_assembly assemblies_pred assemblies_gt oks_sigma margin
                        symmetric_kpts).

Definition default_oks_sigma : F := of_decimal 1 1.
Definition default_margin : F := of_int 0.

(** *** [get_scores] *)

Definition image_count_msg : string :=
  "The prediction an ground truth dicts must contain the same number of images".

Definition stacked_rows3 (keypoints : dict array3) (image_paths : list string)
  : result (list (F * F * F)) :=
  a <- build_keypoint_array keypoints image_paths ;;
  reshape_m1_3 (ravel (slice_last 3 a)).

Definition stacked_rows2 (keypoints : dict array3) (image_paths : list string)
  : result (list (F * F)) :=
  a <- build_keypoint_array keypoints image_paths ;;
  reshape_m1_2 (ravel a).

(** The body of [get_scores] below its guard. *)
Definition get_scores_body (poses ground_truth : dict array3)
           (unique_bodypart_poses unique_bodypart_gt : option (dict array3))
           (pcutoff : F) : result (dict F) :=
  let image_paths := keys poses in
  pred_poses <- stacked_rows3 poses image_paths ;;
  gt_poses <- stacked_rows2 ground_truth image_paths ;;
  '(pred_poses, gt_poses) <-
    match unique_bodypart_poses with
    | None => Ok (pred_poses, gt_poses)
    | Some unique_poses =>
        unique_pred <- stacked_rows3 unique_poses image_paths ;;
        match unique_bodypart_gt with
        | None => Raise (TypeError "'NoneType' object is not subscriptable")
        | Some unique_gt =>
            unique_rows <- stacked_rows2 unique_gt image_paths ;;
            Ok (pred_poses ++ unique_pred, gt_poses ++ unique_rows)
        end
    end ;;
  '(rmse, rmse_pcutoff) <- compute_rmse pred_poses gt_poses pcutoff ;;
  oks <- compute_oks poses ground_truth default_oks_sigma default_margin
                     None None ;;
  oks_pcutoff <- compute_oks poses ground_truth default_oks_sigma
                             default_margin None (Some pcutoff) ;;
  Ok [("rmse", rmse);
      ("rmse_pcutoff", rmse_pcutoff);
      ("mAP", fmul (of_int 100) (mAP oks));
      ("mAR", fmul (of_int 100) (mAR oks));
      ("mAP_pcutoff", fmul (of_int 100) (mAP oks_pcutoff));
      ("mAR_pcutoff", fmul (of_int 100) (mAR oks_pcutoff))].

Definition get_scores (poses ground_truth : dict array3)
           (unique_bodypart_poses unique_bodypart_gt : option (dict array3))
           (pcutoff : F) : result (dict F) :=
  if negb (length poses =? length ground_truth) then
    Raise (ValueError image_count_msg)
  else
    get_scores_body poses ground_truth unique_bodypart_poses
                    unique_bodypart_gt pcutoff.

(** An error other than the image-count error of [get_scores]. *)
Definition other_error {A} (r : result A) : Prop :=
  r <> Raise (ValueError image_count_msg).

End Scoring.

(** An evaluator that reports fixed scores, to run [get_scores] on examples. *)
Definition constant_evaluator {FL : Float} (p r : F)
  : dict (list Assembly) -> dict (list Assembly) -> F -> F ->
    option (list (nat * nat)) -> oks_scores :=
  fun _ _ _ _ _ => {| mAP := p; mAR := r |}.

Definition score_keys : list string :=
  ["rmse"; "rmse_pcutoff"; "mAP"; "mAR"; "mAP_pcutoff"; "mAR_pcutoff"].


(** ** [compute_oks] over a store of arrays

    numpy arrays are mutable objects and [a[:, :, :2]] is a view of [a].  To
    see what [compute_oks] writes, the arrays live in a store and the
    dictionaries hold references. *)

Section Store.
Context {FL : Float}.

Variable evaluate_assembly :
  dict (list Assembly) -> dict (list Assembly) -> F -> F -> option (list (nat * nat)) ->
  oks_scores.

Definition ref := nat.
Definition heap := list array3.
Definition ST (A : Type) := heap -> result (A * heap).

Definition st_ret {A} (a : A) : ST A := fun h => Ok (a, h).

Definition st_bind {A B} (c : ST A) (k : A -> ST B) : ST B :=
  fun h => match c h with
           | Ok (a, h') => k a h'
           | Raise e => Raise e
           end.

Definition st_lift {A} (r : result A) : ST A :=
  fun h => match r with Ok a => Ok (a, h) | Raise e => Raise e end.

Definition st_read (a : ref) : ST array3 :=
  fun h => match nth_error h a with
           | Some v => Ok (v, h)
           | None => Raise (RuntimeError "dangling reference")
           end.

(** A fresh buffer, as [.copy()] makes one. *)
Definition st_alloc (v : array3) : ST ref :=
  fun h => Ok (List.length h, h ++ [v]).

Definition st_write (a : ref) (v : array3) : ST unit :=
  fun h => if a <? List.length h
           then Ok (tt, firstn a h ++ v :: skipn (S a) h)
           else Raise (RuntimeError "dangling reference").

Fixpoint mask_predictions_st (pred : dict ref) (pcutoff : option F)
         (masked_pred : dict ref) : ST (dict ref) :=
  match pred with
  | [] => st_ret masked_pred
  | (image_path, keypoints_with_scores) :: rest =>
      st_bind (st_read keypoints_with_scores) (fun view =>
      st_bind (st_alloc (slice2 view)) (fun keypoints =>
      st_bind
        match pcutoff with
        | None => st_ret tt
        | Some pc =>
            st_bind (st_read keypoints_with_scores) (fun scores =>
            st_bind (st_lift (below_cutoff pc scores)) (fun mask =>
            st_bind (st_read keypoints) (fun current =>
            st_write keypoints (assign_nan current mask))))
        end (fun _ =>
      mask_predictions_st rest pcutoff
                          (dict_set masked_pred image_path keypoints))))
  end.

(** [build_assemblies] over the store.  [Assembly.from_array] is taken as the
    reader the spec describes: the array is read and nothing is written. *)
Fixpoint build_assemblies_st (poses : dict ref)
         (assemblies : dict (list Assembly)) : ST (dict (list Assembly)) :=
  match poses with
  | [] => st_ret assemblies
  | (image_path, keypoints) :: rest =>
      st_bind (st_read keypoints) (fun kp =>
      build_assemblies_st rest
        (dict_set assemblies image_path (image_assemblies_of kp)))
  end.

Definition compute_oks_st (pred ground_truth : dict ref) (oks_sigma margin : F)
           (symmetric_kpts : option (list (nat * nat))) (pcutoff : option F)
  : ST oks_scores :=
  st_bind (mask_predictions_st pred pcutoff []) (fun masked_pred =>
  st_bind (build_assemblies_st masked_pred []) (fun assemblies_pred =>
  st_bind (build_assemblies_st ground_truth []) (fun assemblies_gt =>
  st_ret (evaluate_assembly assemblies_pred assemblies_gt oks_sigma margin
                            symmetric_kpts)))).

(** The arrays a dictionary of references stands for. *)
Fixpoint load (h : heap) (d : dict ref) : result (dict array3) :=
  match d with
  | [] => Ok []
  | (k, a) :: rest =>
      match nth_error h a with
      | None => Raise (RuntimeError "dangling reference")
      | Some v => vs <- load h rest ;; Ok ((k, v) :: vs)
      end
  end.

End Store.

(** ** Tensors ([torch.Tensor]): a shape and the elements in row-major order *)

Record tensor (A : Type) := { shape : list nat; data : list A }.

Arguments shape {A} t.
Arguments data {A} t.

Definition numel (sh : list nat) : nat := fold_right Nat.mul 1 sh.

Definition well_formed {A} (t : tensor A) : Prop :=
  List.length (data t) = numel (shape t).

(** Row-major position of a multi-index; [None] when it is out of bounds. *)
Fixpoint offset (sh idx : list nat) : option nat :=
  match sh, idx with
  | [], [] => Some 0
  | d :: sh', i :: idx' =>
      if i <? d
      then option_map (fun o => i * numel sh' + o) (offset sh' idx')
      else None
  | _, _ => None
  end.

Fixpoint unravel_index (sh : list nat) (o : nat) : list nat :=
  match sh with
  | [] => []
  | d :: sh' => (o / numel sh') :: unravel_index sh' (o mod numel sh')
  end.

Definition tget {A} (t : tensor A) (idx : list nat) : result A :=
  match offset (shape t) idx with
  | None => Raise IndexError
  | Some o =>
      match nth_error (data t) o with
      | None => Raise IndexError
      | Some v => Ok v
      end
  end.

(** A new tensor of shape [sh], element by element. *)
Definition tabulate {A} (sh : list nat) (f : list nat -> result A)
  : result (tensor A) :=
  elems <- mapM (fun o => f (unravel_index sh o)) (seq 0 (numel sh)) ;;
  Ok {| shape := sh; data := elems |}.

Definition tmap {A B} (f : A -> B) (t : tensor A) : tensor B :=
  {| shape := shape t; data := map f (data t) |}.

(** [t.reshape(sh)]: the same elements in the same order. *)
Definition reshape {A} (t : tensor A) (sh : list nat) : result (tensor A) :=
  if numel sh =? List.length (data t)
  then Ok {| shape := sh; data := data t |}
  else Raise (RuntimeError "shape is invalid for input size").

Fixpoint index_of (m : nat) (l : list nat) : nat :=
  match l with
  | [] => 0
  | x :: l' => if x =? m then 0 else S (index_of m l')
  end.

Definition is_permutation (dims : list nat) (rank : nat) : bool :=
  (List.length dims =? rank)
  && forallb (fun m => existsb (Nat.eqb m) dims) (seq 0 rank).

(** [t.permute(dims)]: axis [k] of the result is axis [dims[k]] of [t]. *)
Definition permute {A} (t : tensor A) (dims : list nat) : result (tensor A) :=
  let rank := List.length (shape t) in
  if is_permutation dims rank then
    tabulate (map (fun d => nth d (shape t) 0) dims)
             (fun idx => tget t (map (fun m => nth (index_of m dims) idx 0)
                                     (seq 0 rank)))
  else Raise (RuntimeError "permute: dims do not match the tensor's axes").

(** ** [torch.topk] on a vector: what the predictor relies on *)

Section TopK.
Context {FL : Float}.

(** [topk xs k] stands for the indices returned by
    [torch.topk(xs, k)] on a one-dimensional [xs] with [k <= len(xs)]:
    [k] distinct positions of [xs], ranked from the highest value down, no
    position left out ranking above a selected one.  How ties are broken is
    left open. *)
Definition topk_contract (topk : list F -> nat -> list nat) : Prop :=
  forall xs k, k <= List.length xs ->
    List.length (topk xs k) = k
    /\ NoDup (topk xs k)
    /\ (forall i, In i (topk xs k) -> i < List.length xs)
    /\ (forall r s a b va vb,
           r <= s ->
           nth_error (topk xs k) r = Some a -> nth_error (topk xs k) s = Some b ->
           nth_error xs a = Some va -> nth_error xs b = Some vb ->
           topk_geb va vb = true)
    /\ (forall a b va vb,
           In a (topk xs k) -> ~ In b (topk xs k) ->
           nth_error xs a = Some va -> nth_error xs b = Some vb ->
           topk_geb va vb = true).

(** Position [a] of [xs] is ranked at least as high as position [b]. *)
Definition ranks_above (xs : list F) (a b : nat) : Prop :=
  topk_geb (nth a xs fnan) (nth b xs fnan) = true.

(** A reference selection: sort the positions by value, highest first,
    earlier positions first among ties, and keep the first [k]. *)
Fixpoint insert_desc (xs : list F) (i : nat) (sorted : list nat) : list nat :=
  match sorted with
  | [] => [i]
  | j :: rest =>
      if topk_geb (nth j xs fnan) (nth i xs fnan)
      then j :: insert_desc xs i rest
      else i :: sorted
  end.

Definition argsort_desc (xs : list F) : list nat :=
  fold_right (insert_desc xs) [] (seq 0 (List.length xs)).

Definition topk_ref (xs : list F) (k : nat) : list nat :=
  firstn k (argsort_desc xs).

End TopK.

(** ** The predictor ([models/predictors/single_predictor.py]) *)

Section Predictor.
Context {FL : Float}.

(** [torch.topk] on vectors, and the element-wise [torch.nn.Sigmoid]. *)
Variable topk : list F -> nat -> list nat.
Variable sigmoid : F -> F.

Record HeatmapPredictor := {
  apply_sigmoid : bool;
  clip_scores : bool;
  location_refinement : bool;
  locref_std : F
}.

Definition default_locref_std : F := of_decimal 72801 4.

(** [__init__]: an argument left out takes its default. *)
Definition HeatmapPredictor_init
           (apply_sigmoid clip_scores location_refinement : option bool)
           (locref_std : option F) : HeatmapPredictor :=
  {| apply_sigmoid := match apply_sigmoid with Some b => b | None => true end;
     clip_scores := match clip_scores with Some b => b | None => false end;
     location_refinement :=
       match location_refinement with Some b => b | None => true end;
     locref_std :=
       match locref_std with Some s => s | None => default_locref_std end |}.

(** [torch.topk(t, k, dim=1)] of a three-axis tensor, indices only. *)
Definition topk_dim1 (t : tensor F) (k : nat) : result (tensor nat) :=
  match shape t with
  | [b_; n_; j_] =>
      if k <=? n_ then
        tabulate [b_; k; j_]
          (fun idx =>
             match idx with
             | [b; r; j] =>
                 column <- mapM (fun i => tget t [b; i; j]) (seq 0 n_) ;;
                 match nth_error (topk column k) r with
                 | Some i => Ok i
                 | None => Raise IndexError
                 end
             | _ => Raise IndexError
             end)
      else Raise (RuntimeError "selected index k out of range")
  | _ => Raise IndexError
  end.

Definition get_top_values (heatmap : tensor F) (n_top : nat)
  : result (tensor nat * tensor nat) :=
  match shape heatmap with
  | [batchsize; ny; nx; num_joints] =>
      heatmap_flat <- reshape heatmap [batchsize; nx * ny; num_joints] ;;
      heatmap_top <- topk_dim1 heatmap_flat n_top ;;
      Ok (tmap (fun i => i / nx) heatmap_top, tmap (fun i => i mod nx) heatmap_top)
  | _ => Raise (ValueError "not enough values to unpack")
  end.

Definition half : F := of_decimal 5 1.

(** The three loops fill [dz] cell by cell, each cell once: [dz] is tabulated.
    [dz[b, n, j, :2] = locref[b, y, x, j, :]] takes a last axis of length 2,
    or broadcasts one of length 1. *)
Definition get_pose_prediction (heatmap : tensor F) (locref : option (tensor F))
           (scale_factors : F * F) (num_outputs : nat) : result (tensor F) :=
  '(y, x) <- get_top_values heatmap num_outputs ;;
  match shape heatmap with
  | [batch_size; _; _; num_joints] =>
      dz <- tabulate [batch_size; num_outputs; num_joints; 3]
              (fun idx =>
                 match idx with
                 | [b; n; j; c] =>
                     yi <- tget y [b; n; j] ;;
                     xi <- tget x [b; n; j] ;;
                     if c =? 2 then tget heatmap [b; yi; xi; j]
                     else
                       match locref with
                       | None => Ok (of_int 0)
                       | Some lr =>
                           match shape lr with
                           | [_; _; _; _; 2] => tget lr [b; yi; xi; j; c]
                           | [_; _; _; _; 1] => tget lr [b; yi; xi; j; 0]
                           | [_; _; _; _; _] => Raise (RuntimeError "shape mismatch")
                           | _ => Raise IndexError
                           end
                       end
                 | _ => Raise IndexError
                 end) ;;
      x <- tabulate [batch_size; num_outputs; num_joints]
             (fun idx =>
                xi <- tget x idx ;;
                d <- tget dz (idx ++ [0]) ;;
                Ok (fadd (fadd (fmul (of_int (Z.of_nat xi)) (snd scale_factors))
                               (fmul half (snd scale_factors)))
                         d)) ;;
      y <- tabulate [batch_size; num_outputs; num_joints]
             (fun idx =>
                yi <- tget y idx ;;
                d <- tget dz (idx ++ [1]) ;;
                Ok (fadd (fadd (fmul (of_int (Z.of_nat yi)) (fst scale_factors))
                               (fmul half (fst scale_factors)))
                         d)) ;;
      tabulate [batch_size; num_outputs; num_joints; 3]
        (fun idx =>
           match idx with
           | [b; n; j; c] =>
               if c =? 0 then tget x [b; n; j]
               else if c =? 1 then tget y [b; n; j]
               else tget dz [b; n; j; 2]
           | _ => Raise IndexError
           end)
  | _ => Raise (ValueError "not enough values to unpack")
  end.

(** [torch.clip(v, min=0, max=1)] *)
Definition clip01 (v : F) : F :=
  if fltb v (of_int 0) then of_int 0
  else if fltb (of_int 1) v then of_int 1 else v.

Definition forward (self : HeatmapPredictor) (stride : F)
           (outputs : dict (tensor F)) (num_outputs : nat)
  : result (dict (tensor F)) :=
  heatmaps <- dict_get outputs "heatmap" ;;
  let scale_factors := (stride, stride) in
  let heatmaps :=
    if apply_sigmoid self then tmap sigmoid heatmaps else heatmaps in
  heatmaps <- permute heatmaps [0; 2; 3; 1] ;;
  match shape heatmaps with
  | [batch_size; height; width; num_joints] =>
      locrefs <-
        (if location_refinement self then
           locrefs <- dict_get outputs "locref" ;;
           locrefs <- permute locrefs [0; 2; 3; 1] ;;
           locrefs <- reshape locrefs [batch_size; height; width; num_joints; 2] ;;
           Ok (Some (tmap (fun v => fmul v (locref_std self)) locrefs))
         else Ok None) ;;
      poses <- get_pose_prediction heatmaps locrefs scale_factors num_outputs ;;
      poses <-
        (if clip_scores self then
           tabulate (shape poses)
             (fun idx =>
                v <- tget poses idx ;;
                Ok (if nth 3 idx 0 =? 2 then clip01 v else v))
         else Ok poses) ;;
      Ok [("poses", poses)]
  | _ => Raise (ValueError "not enough values to unpack")
  end.

End Predictor.

(** What the statements about the predictor speak of: a refinement field that
    fits a heatmap of shape (b, h, w, j); the offset read for one candidate;
    the score as [forward] reports it. *)
Section PredictorVocabulary.
Context {FL : Float}.

Definition locref_fits (b_ h_ w_ j_ : nat) (locref : option (tensor F)) : Prop :=
  match locref with
  | None => True
  | Some lr => well_formed lr /\ shape lr = [b_; h_; w_; j_; 2]
  end.

Definition offset_at (locref : option (tensor F)) (b gy gx j c : nat) : result F :=
  match locref with
  | None => Ok (of_int 0)
  | Some lr => tget lr [b; gy; gx; j; c]
  end.

Definition reported_score (sigmoid : F -> F) (self : HeatmapPredictor) (raw : F) : F :=
  let s := if apply_sigmoid self then sigmoid raw else raw in
  if clip_scores self then clip01 s else s.

Definition image_coordinate (grid : nat) (stride offset : F) : F :=
  fadd (fadd (fmul (of_int (Z.of_nat grid)) stride) (fmul half stride)) offset.

End PredictorVocabulary.

(** ** Example data (binary64) *)

Module Examples.

Definition num (z : Z) : @F binary64 := B64.of_Z z.
Definition dec (m : Z) (e : nat) : @F binary64 := B64.decimal m e.

(** One image, one individual, two keypoints. *)
Definition pred_image : @array3 binary64 :=
  [[[num 1; num 2; dec 9 1]; [num 3; num 4; dec 8 1]]].

Definition gt_image_xy : @array3 binary64 :=
  [[[num 1; num 2]; [num 3; num 4]]].

Definition gt_image_xyv : @array3 binary64 :=
  [[[num 1; num 2; num 1]; [num 3; num 4; num 1]]].

Definition poses : dict (@array3 binary64) := [("img0", pred_image)].
Definition ground_truth_xy : dict (@array3 binary64) := [("img0", gt_image_xy)].
Definition ground_truth_xyv : dict (@array3 binary64) := [("img0", gt_image_xyv)].

(** Three predicted individuals against two annotated ones, one keypoint
    each, the annotations with a visibility column. *)
Definition poses3 : dict (@array3 binary64) :=
  [("img0", [[[num 1; num 2; dec 9 1]];
             [[num 3; num 4; dec 8 1]];
             [[num 5; num 6; dec 7 1]]])].

Definition ground_truth2_xyv : dict (@array3 binary64) :=
  [("img0", [[[num 1; num 2; num 1]]; [[num 3; num 4; num 1]]])].

(** Two individuals; every keypoint of the first is below a pcutoff of 0.5. *)
Definition poses_low : dict (@array3 binary64) :=
  [("img0", [[[num 1; num 2; dec 3 1]; [num 3; num 4; dec 4 1]];
             [[num 5; num 6; dec 9 1]; [num 7; num 8; dec 2 1]]])].

Definition evaluator := @constant_evaluator binary64 (num 1) (num 1).

(** A store holding the predictions at address 0 and the ground truth at 1. *)
Definition store : @heap binary64 := [pred_image; gt_image_xyv].
Definition pred_refs : dict ref := [("img0", 0)].
Definition gt_refs : dict ref := [("img0", 1)].

(** A tensor of shape (1, 2, 3, 4). *)
Definition heatmap : tensor (@F binary64) :=
  {| shape := [1; 2; 3; 4];
     data := map (fun z => num z)
                 [5; 1; 2; 3;  4; 9; 6; 7;  8; 0; 10; 11;
                  12; 13; 14; 15;  16; 17; 18; 19;  20; 21; 22; 23]%Z |}.

Definition predictor : @HeatmapPredictor binary64 :=
  HeatmapPredictor_init (Some false) None (Some false) None.

Definition identity (v : @F binary64) : @F binary64 := v.

End Examples.

(** ** Further float operations: [==], and the finite range *)

Class FloatExt (FL : Float) := {
  (** IEEE [==]: false as soon as one side is NaN *)
  feqb : F -> F -> bool;
  (** the largest and the smallest finite value, [np.finfo(dtype).max/.min] *)
  fmax_finite : F;
  fmin_finite : F
}.

Class FloatExtLaws (FL : Float) (FX : FloatExt FL) : Prop := {
  fltb_nan_l : forall x p, isnan x = true -> fltb x p = false;
  fltb_nan_r : forall x p, isnan x = true -> fltb p x = false;
  isnan_fmax_finite : isnan fmax_finite = false;
  isnan_fmin_finite : isnan fmin_finite = false;
  isnan_minus_one : isnan (of_int (-1)) = false;
  fltb_zero_zero : fltb (of_int 0) (of_int 0) = false;
  fltb_one_zero : fltb (of_int 1) (of_int 0) = false;
  fltb_one_one : fltb (of_int 1) (of_int 1) = false
}.

#[export] Instance binary64_ext : FloatExt binary64 := {|
  feqb := SFeqb;
  fmax_finite := SFmax_float B64.prec B64.emax;
  fmin_finite := SFopp (SFmax_float B64.prec B64.emax)
|}.

(** An array of predictions in which every keypoint carries a score, none
    of them below the pcutoff. *)
Definition no_score_below {FL : Float} (pc : F) (kws : array3) : Prop :=
  three_columns kws
  /\ forall idv r, In idv kws -> In r idv -> fltb (nth 2 r fnan) pc = false.

(** An array with at least one keypoint: the length of its last axis can be
    read off its values. *)
Definition holds_a_keypoint {FL : Float} (kws : array3) : Prop :=
  exists idv r, In idv kws /\ In r idv.


(** ** Scoring: aligning individuals ([apis/scoring.py], lines 226-275) *)

Section Alignment.
Context {FL : Float} {FX : FloatExt FL}.

(** [np.nan_to_num(x, nan=v)]: NaN becomes [v], the infinities become the
    ends of the finite range. *)
Definition nan_to_num (nan : F) (x : F) : F :=
  if isnan x then nan
  else if isfinite x then x
  else if fltb x (of_int 0) then fmin_finite else fmax_finite.

(** [keypoints[..., 2] == 0]; index 2 must exist.  As for [below_cutoff],
    an array without any keypoint passes, as it does in numpy when its last
    axis has three values or more; statements on when this raises are made
    for arrays that hold a keypoint. *)
Definition invisible (keypoints : array3) : result (list (list bool)) :=
  mapM (mapM (fun r : row =>
                match nth_error r 2 with
                | None => Raise IndexError
                | Some visibility => Ok (feqb visibility (of_int 0))
                end))
       keypoints.

(** [r[c] = v] on one row. *)
Fixpoint set_column (c : nat) (v : F) (r : row) : row :=
  match r, c with
  | [], _ => []
  | _ :: r', 0 => v :: r'
  | a :: r', S c' => a :: set_column c' v r'
  end.

(** [keypoints[visibility, c] = v] *)
Definition assign_column (c : nat) (v : F) (keypoints : array3)
           (visibility : list (list bool)) : array3 :=
  map (fun im : array2 * list bool =>
         map (fun rb : row * bool =>
                if snd rb then set_column c v (fst rb) else fst rb)
             (combine (fst im) (snd im)))
      (combine keypoints visibility).

(** The writes of [mask_invisible] on the copy, before the final slice. *)
Definition masked_copy (keypoints : array3) (mask_value : F)
           (visibility : list (list bool)) : array3 :=
  assign_column 1 mask_value (assign_column 0 mask_value keypoints visibility)
                visibility.

(** On array values [keypoints.copy()] is the array itself; the store-level
    reading below keeps the copy apart. *)
Definition mask_invisible (keypoints : array3) (mask_value : F) : result array3 :=
  visibility <- invisible keypoints ;;
  Ok (slice2 (masked_copy keypoints mask_value visibility)).

(** One output keypoint of [mask_invisible], in words: the mask value twice
    when the visibility flag equals 0, the coordinates otherwise. *)
Definition visible_or_mask (mask_value : F) (r : row) : row :=
  if feqb (nth 2 r fnan) (of_int 0) then [mask_value; mask_value]
  else firstn 2 r.

(** [rmse_match_prediction_to_gt] lives in
    [pose_estimation_pytorch/post_processing], which is not part of these
    sources: it is a parameter returning the index array. *)
Variable rmse_match_prediction_to_gt : array3 -> array3 -> list nat.

(** [pose[match_individuals]]: one individual per index, in the order of the
    indices; an index past the end raises. *)
Definition take_individuals (pose : array3) (match_individuals : list nat)
  : result array3 :=
  mapM (fun m => match nth_error pose m with
                 | Some idv => Ok idv
                 | None => Raise IndexError
                 end)
       match_individuals.

(** The ground truth as the matcher receives it. *)
Definition matcher_ground_truth (gt : array3) : result array3 :=
  gt_pose <- mask_invisible gt (of_int (-1)) ;;
  Ok (map (map (map (nan_to_num (of_int (-1))))) gt_pose).

Fixpoint align_loop (predictions ground_truth : dict array3)
         (matched_poses : dict array3) : result (dict array3) :=
  match predictions with
  | [] => Ok matched_poses
  | (image, pose) :: rest =>
      gt <- dict_get ground_truth image ;;
      gt_pose <- matcher_ground_truth gt ;;
      let match_individuals := rmse_match_prediction_to_gt pose gt_pose in
      matched <- take_individuals pose match_individuals ;;
      align_loop rest ground_truth (dict_set matched_poses image matched)
  end.

Definition align_predicted_individuals_to_gt
           (predictions ground_truth : dict array3) : result (dict array3) :=
  align_loop predictions ground_truth [].

(** *** [mask_invisible] over the store *)

(** A view [a[..., :columns]] of the buffer at [base]. *)
Record view := { base : ref; columns : nat }.

Definition view_read (v : view) : ST array3 :=
  st_bind (st_read (base v)) (fun a => st_ret (map (map (firstn (columns v))) a)).

Definition mask_invisible_st (keypoints : ref) (mask_value : F) : ST view :=
  st_bind (st_read keypoints) (fun original =>
  st_bind (st_alloc original) (fun keypoints =>
  st_bind (st_read keypoints) (fun current =>
  st_bind (st_lift (invisible current)) (fun visibility =>
  st_bind (st_write keypoints (assign_column 0 mask_value current visibility))
          (fun _ =>
  st_bind (st_read keypoints) (fun current =>
  st_bind (st_write keypoints (assign_column 1 mask_value current visibility))
          (fun _ =>
  st_ret {| base := keypoints; columns := 2 |}))))))).

End Alignment.

(** ** More example data *)

Module MoreExamples.

(** A matcher that returns the individuals in reverse order. *)
Definition reversing_matcher : @array3 binary64 -> @array3 binary64 -> list nat :=
  fun pose _ => rev (seq 0 (length pose)).

(** Two predicted individuals of one keypoint each. *)
Definition two_individuals : dict (@array3 binary64) :=
  [("img0", [[[Examples.num 1; Examples.num 2; Examples.dec 9 1]];
             [[Examples.num 3; Examples.num 4; Examples.dec 8 1]]])].

Definition two_annotations : dict (@array3 binary64) :=
  [("img0", [[[Examples.num 3; Examples.num 4; Examples.num 1]];
             [[Examples.num 1; Examples.num 2; Examples.num 0]]])].

(** Refinement fields for [Examples.heatmap] (1 image, 2 joints, 3 x 4
    cells): one per channel pair, and one with the two grid axes exchanged,
    which has as many elements. *)
Definition locref_zero : tensor (@F binary64) :=
  {| shape := [1; 4; 3; 4]; data := repeat (Examples.num 0) 48 |}.

Definition locref_exchanged : tensor (@F binary64) :=
  {| shape := [1; 4; 4; 3]; data := repeat (Examples.num 0) 48 |}.

(** [Examples.heatmap] with other values for the joints 1, 2 and 3 of its
    reading as (B, H, W, J) = (1, 2, 3, 4); joint 0 is untouched. *)
Definition heatmap_other : tensor (@F binary64) :=
  {| shape := [1; 2; 3; 4];
     data := map (fun z => Examples.num z)
                 [5; 0; 0; 0;  4; 0; 0; 0;  8; 0; 0; 0;
                  12; 0; 0; 0;  16; 0; 0; 0;  20; 0; 0; 0]%Z |}.

(** One individual with two keypoints, the second with a NaN confidence. *)
Definition nan_scored : dict (@array3 binary64) :=
  [("img0", [[[Examples.num 1; Examples.num 2; Examples.dec 9 1];
              [Examples.num 3; Examples.num 4; S754_nan]]])].


Definition refining_predictor : @HeatmapPredictor binary64 :=
  HeatmapPredictor_init (Some false) (Some false) (Some true) None.

End MoreExamples.

(** ** Converting the keys of a snapshot ([modelzoo/utils.py], lines 209-221) *)

(** [s.startswith(prefix)] *)
Definition startswith (s prefix : string) : bool := String.prefix prefix s.

(** [s.split(sep)] for a separator of one character: the parts between the
    separators, at least one part, empty parts included. *)
Fixpoint str_split (sep : ascii) (s : string) : list string :=
  match s with
  | EmptyString => [EmptyString]
  | String c s' =>
      if Ascii.eqb c sep then EmptyString :: str_split sep s'
      else match str_split sep s' with
           | part :: parts => String c part :: parts
           | [] => [String c EmptyString]
           end
  end.

(** [sep.join(parts)] *)
Definition str_join (sep : string) (parts : list string) : string :=
  String.concat sep parts.

(** [l[i] = v] on a Python list: IndexError out of range. *)
Definition list_set {A} (l : list A) (i : nat) (v : A) : result (list A) :=
  if i <? length l then Ok (firstn i l ++ v :: skipn (S i) l)
  else Raise IndexError.

(** The keys that are left out of the converted snapshot. *)
Definition is_dropped (k : string) : bool :=
  startswith k "backbone.model.downsamp_modules."
  || startswith k "backbone.model.final_layer"
  || startswith k "backbone.model.classifier".

Definition heatmap_head_model : list string :=
  ["heads"; "bodypart"; "heatmap_head"; "model"].

(** The body of the loop for a key that is kept: the new key. *)
Definition map_key (k : string) : result string :=
  let parts := str_split "." k in
  parts <- (if list_eq_dec string_dec (firstn 4 parts) heatmap_head_model
            then list_set parts 3 "deconv_layers.0"
            else Ok parts) ;;
  Ok (str_join "." parts).

Fixpoint map_model_keys_loop {V} (items : dict V) (updated_dict : dict V)
  : result (dict V) :=
  match items with
  | [] => Ok updated_dict
  | (k, v) :: rest =>
      if negb (is_dropped k) then
        key <- map_key k ;;
        map_model_keys_loop rest (dict_set updated_dict key v)
      else map_model_keys_loop rest updated_dict
  end.

Definition _map_model_keys {V} (state_dict : dict V) : result (dict V) :=
  map_model_keys_loop state_dict [].

(** The keys of a small snapshot, with their values left abstract as
    numbers. *)
Definition example_state_dict : dict nat :=
  [("backbone.model.conv1.weight", 0);
   ("backbone.model.final_layer.weight", 1);
   ("heads.bodypart.heatmap_head.model.weight", 2);
   ("heads.bodypart.locref_head.model.weight", 3);
   ("backbone.model.classifier.bias", 4)].

Lemma lex_geb_total a b : B64.lex_geb a b = true \/ B64.lex_geb b a = true.
Proof.
  destruct a as [[a1 a2] a3], b as [[b1 b2] b3]; unfold B64.lex_geb.
  destruct (Z.ltb_spec b1 a1), (Z.ltb_spec a1 b1), (Z.eqb_spec b1 a1),
    (Z.eqb_spec a1 b1), (Z.ltb_spec b2 a2), (Z.ltb_spec a2 b2),
    (Z.eqb_spec b2 a2), (Z.eqb_spec a2 b2), (Z.leb_spec b3 a3),
    (Z.leb_spec a3 b3); simpl; auto; lia.
Qed.

Lemma lex_geb_trans a b c :
  B64.lex_geb a b = true -> B64.lex_geb b c = true -> B64.lex_geb a c = true.
Proof.
  destruct a as [[a1 a2] a3], b as [[b1 b2] b3], c as [[c1 c2] c3].
  unfold B64.lex_geb.
  rewrite !orb_true_iff, !andb_true_iff, !orb_true_iff, !andb_true_iff,
    !Z.ltb_lt, !Z.eqb_eq, !Z.leb_le.
  lia.
Qed.

#[export] Instance binary64_laws : FloatLaws binary64.
Proof.
  split.
  - reflexivity.
  - intros x p Hx. destruct x; try discriminate Hx. simpl.
    unfold SFleb. destruct p; reflexivity.
  - intros x Hx. destruct x; try discriminate Hx. reflexivity.
  - reflexivity.
  - intros a b. apply lex_geb_total.
  - intros a b c. apply lex_geb_trans.
Qed.

(** * Properties *)

(** ** The error monad *)

Lemma bind_Ok_inv {A B} (c : result A) (k : A -> result B) b :
  bind c k = Ok b -> exists a, c = Ok a /\ k a = Ok b.
Proof.
  destruct c as [a|e]; simpl; intros H; [exists a; auto | discriminate].
Qed.

Lemma mapM_Ok_length {A B} (f : A -> result B) l l' :
  mapM f l = Ok l' -> length l' = length l.
Proof.
  revert l'; induction l as [|a l IH]; simpl; intros l' H.
  - injection H as <-. reflexivity.
  - apply bind_Ok_inv in H as (b & Hb & H).
    apply bind_Ok_inv in H as (bs & Hbs & H).
    injection H as <-. simpl. f_equal. auto.
Qed.

Lemma mapM_Ok_nth {A B} (f : A -> result B) l l' :
  mapM f l = Ok l' ->
  forall i a, nth_error l i = Some a ->
              exists b, nth_error l' i = Some b /\ f a = Ok b.
Proof.
  revert l'; induction l as [|a0 l IH]; simpl; intros l' H i a Hi.
  - destruct i; discriminate.
  - apply bind_Ok_inv in H as (b & Hb & H).
    apply bind_Ok_inv in H as (bs & Hbs & H).
    injection H as <-.
    destruct i as [|i]; simpl in *.
    + injection Hi as <-. eauto.
    + eapply IH; eauto.
Qed.

Lemma mapM_total {A B} (f : A -> result B) l :
  (forall a, In a l -> exists b, f a = Ok b) ->
  exists l', mapM f l = Ok l'.
Proof.
  induction l as [|a l IH]; simpl; intros H; [eauto|].
  destruct (H a (or_introl eq_refl)) as (b & ->).
  destruct IH as (l' & ->); [intros; apply H; auto|].
  simpl. eauto.
Qed.

Lemma mapM_pure {A B} (f : A -> result B) (g : A -> B) l :
  (forall a, In a l -> f a = Ok (g a)) -> mapM f l = Ok (map g l).
Proof.
  induction l as [|a l IH]; simpl; intros H; [reflexivity|].
  rewrite (H a (or_introl eq_refl)), IH by (intros; apply H; auto).
  reflexivity.
Qed.

(** ** [compute_rmse] *)

Section RmseFacts.
Context {FL : Float}.

Lemma bool_index_filter {A B C} (h : A * B -> C) (m : A -> bool) :
  forall (l : list A) (l' : list B),
    bool_index (map h (combine l l')) (map m l)
    = map h (filter (fun ab => m (fst ab)) (combine l l')).
Proof.
  unfold bool_index.
  induction l as [|a l IH]; intros [|b l']; simpl.
  - reflexivity.
  - reflexivity.
  - reflexivity.
  - destruct (m a); simpl; rewrite IH; reflexivity.
Qed.

Lemma combine_append {A B} (l1 l2 : list A) (k1 k2 : list B) :
  length l1 = length k1 ->
  combine (l1 ++ l2) (k1 ++ k2) = combine l1 k1 ++ combine l2 k2.
Proof.
  revert k1; induction l1 as [|a l1 IH]; intros [|b k1]; simpl;
    intros H; try discriminate; [reflexivity|].
  f_equal. apply IH. congruence.
Qed.

Lemma compute_rmse_rowwise pred gt pcutoff :
  length pred = length gt ->
  compute_rmse pred gt pcutoff
  = Ok (spec_rmse pred gt, spec_rmse_pcutoff pred gt pcutoff).
Proof.
  intros Hlen. unfold compute_rmse.
  rewrite Hlen, Nat.eqb_refl. simpl negb. cbv iota.
  unfold spec_rmse, spec_rmse_pcutoff, row_distances.
  rewrite !map_map.
  rewrite (bool_index_filter _ (fun p : F * F * F => fgeb (snd p) pcutoff)).
  rewrite map_map. reflexivity.
Qed.

Lemma compute_rmse_mismatch pred gt pcutoff :
  length pred <> length gt ->
  compute_rmse pred gt pcutoff = Raise (ValueError same_rows_msg).
Proof.
  intros Hlen. unfold compute_rmse.
  apply Nat.eqb_neq in Hlen. rewrite Hlen. reflexivity.
Qed.

Lemma nanmean_skips_nan l1 d l2 :
  isnan d = true -> nanmean (l1 ++ d :: l2) = nanmean (l1 ++ l2).
Proof.
  intros Hd. unfold nanmean.
  rewrite !filter_app. simpl. rewrite Hd. reflexivity.
Qed.

Lemma nanmean_all_nan `{!FloatLaws FL} xs :
  Forall (fun d => isnan d = true) xs -> isnan (nanmean xs) = true.
Proof.
  intros Hall. unfold nanmean.
  replace (filter (fun x => negb (isnan x)) xs) with (@nil F).
  - simpl. apply mean_of_nothing.
  - induction Hall as [|x xs Hx _ IH]; simpl; [reflexivity|].
    rewrite Hx. exact IH.
Qed.

Lemma nan_confidence_fails_cutoff `{!FloatLaws FL} pcutoff p g :
  isnan (snd p) = true -> passes_cutoff pcutoff (p, g) = false.
Proof. intros H. unfold passes_cutoff. simpl. apply fgeb_nan_l, H. Qed.

End RmseFacts.

(** C4.  For [pred] of shape (N, 3) and ground truth of shape (N, 2), N > 0,
    [compute_rmse] raises nothing and returns the NaN-excluding mean of the
    row-wise Euclidean distances, and the NaN-excluding mean over the rows with
    [pred[:, 2] >= pcutoff].  A row whose distance is NaN does not count: the
    mean is the one of the array without it.  Over no rows, or over NaN
    distances only, the mean is NaN. *)
Theorem compute_rmse_nan_excluding_means
        (FL : Float) (LAWS : FloatLaws FL)
        (pred : list (F * F * F)) (gt : list (F * F)) (pcutoff : F) :
  length pred = length gt ->
  0 < length pred ->
  compute_rmse pred gt pcutoff
  = Ok (nanmean (row_distances (combine pred gt)),
        nanmean (row_distances
                   (filter (passes_cutoff pcutoff) (combine pred gt))))
  /\ (forall l1 d l2, isnan d = true ->
                      nanmean (l1 ++ d :: l2) = nanmean (l1 ++ l2))
  /\ (forall ds, Forall (fun d => isnan d = true) ds ->
                 isnan (nanmean ds) = true)
  /\ (filter (passes_cutoff pcutoff) (combine pred gt) = [] ->
      exists r rp, compute_rmse pred gt pcutoff = Ok (r, rp)
                   /\ isnan rp = true).
Proof.
  intros Hlen _. repeat split.
  - apply compute_rmse_rowwise, Hlen.
  - intros. apply nanmean_skips_nan. assumption.
  - intros. apply nanmean_all_nan. assumption.
  - intros Hnone. rewrite (compute_rmse_rowwise _ _ _ Hlen).
    do 2 eexists. split; [reflexivity|].
    unfold spec_rmse_pcutoff. rewrite Hnone.
    apply nanmean_all_nan. constructor.
Qed.

(** Two rows at binary64; the second ground-truth row is NaN, and the first
    prediction alone passes the cutoff 0.5. *)
Lemma compute_rmse_nan_excluding_means_witness :
  @compute_rmse binary64
    [(B64.of_Z 3, B64.of_Z 4, B64.decimal 9 1); (B64.of_Z 1, B64.of_Z 1, B64.decimal 3 1)]
    [(B64.of_Z 0, B64.of_Z 0); (S754_nan, S754_nan)]
    (B64.decimal 5 1)
  = Ok (B64.of_Z 5, B64.of_Z 5).
Proof.
  destruct (@compute_rmse_nan_excluding_means binary64 binary64_laws
              [(B64.of_Z 3, B64.of_Z 4, B64.decimal 9 1);
               (B64.of_Z 1, B64.of_Z 1, B64.decimal 3 1)]
              [(B64.of_Z 0, B64.of_Z 0); (S754_nan, S754_nan)]
              (B64.decimal 5 1) eq_refl (Nat.lt_0_succ 1)) as [H _].
  rewrite H. vm_compute. reflexivity.
Defined.

(** C5.  [compute_rmse] raises its ValueError, and returns nothing, exactly
    when [pred] and the ground truth differ in their number of rows. *)
Theorem compute_rmse_raises_iff_rows_differ
        (FL : Float) (pred : list (F * F * F)) (gt : list (F * F)) (pcutoff : F) :
  (compute_rmse pred gt pcutoff = Raise (ValueError same_rows_msg)
   <-> length pred <> length gt)
  /\ (is_ok (compute_rmse pred gt pcutoff) = true
      <-> length pred = length gt).
Proof.
  destruct (Nat.eq_dec (length pred) (length gt)) as [Heq|Hne].
  - rewrite (compute_rmse_rowwise _ _ _ Heq). simpl.
    split; split; intros H; try discriminate; try reflexivity; try assumption.
    contradiction.
  - rewrite (compute_rmse_mismatch _ _ _ Hne). simpl.
    split; split; intros H; try discriminate; try reflexivity; try assumption.
    contradiction.
Qed.

(** C10.  A row whose confidence is NaN never enters the pcutoff-restricted
    mean, whatever the pcutoff: the result is the one computed without that
    row.  At binary64 and with the default [pcutoff = -1] the two results of
    [compute_rmse] do differ on such an input. *)
Theorem compute_rmse_nan_confidence_excluded :
  (forall (FL : Float), FloatLaws FL ->
     forall (p1 p2 : list (F * F * F)) (g1 g2 : list (F * F)) p g pcutoff,
       length p1 = length g1 -> length p2 = length g2 ->
       isnan (snd p) = true ->
       fgeb (snd p) pcutoff = false
       /\ exists r rp r',
           compute_rmse (p1 ++ p :: p2) (g1 ++ g :: g2) pcutoff = Ok (r, rp)
           /\ compute_rmse (p1 ++ p2) (g1 ++ g2) pcutoff = Ok (r', rp))
  /\ exists (pred : list (@F binary64 * @F binary64 * @F binary64)) gt r rp,
      compute_rmse pred gt (of_int (-1)) = Ok (r, rp)
      /\ r <> rp.
Proof.
  split.
  - intros FL LAWS p1 p2 g1 g2 p g pcutoff H1 H2 Hnan.
    split; [apply fgeb_nan_l, Hnan|].
    do 3 eexists. split.
    + apply compute_rmse_rowwise. rewrite !length_app. simpl. lia.
    + rewrite compute_rmse_rowwise by (rewrite !length_app; lia).
      f_equal. f_equal. unfold spec_rmse_pcutoff.
      rewrite !combine_append by assumption.
      rewrite !filter_app. simpl combine. simpl filter.
      rewrite (nan_confidence_fails_cutoff pcutoff p g Hnan).
      reflexivity.
  - exists [(B64.of_Z 0, B64.of_Z 0, B64.of_Z 1);
            (B64.of_Z 3, B64.of_Z 4, S754_nan)],
           [(B64.of_Z 0, B64.of_Z 0); (B64.of_Z 0, B64.of_Z 0)].
    do 2 eexists. split.
    + vm_compute. reflexivity.
    + discriminate.
Qed.

(** ** Stacking and reshaping in [get_scores] *)

Lemma list_ind_by2 {A} (P : list A -> Prop) :
  P [] -> (forall a, P [a]) -> (forall a b l, P l -> P (a :: b :: l)) ->
  forall l, P l.
Proof.
  intros H0 H1 H2. fix IH 1. intros [|a [|b l]].
  - exact H0.
  - apply H1.
  - apply H2, IH.
Qed.

Lemma list_ind_by3 {A} (P : list A -> Prop) :
  P [] -> (forall a, P [a]) -> (forall a b, P [a; b]) ->
  (forall a b c l, P l -> P (a :: b :: c :: l)) ->
  forall l, P l.
Proof.
  intros H0 H1 H2 H3. fix IH 1. intros [|a [|b [|c l]]].
  - exact H0.
  - apply H1.
  - apply H2.
  - apply H3, IH.
Qed.

Lemma length_concat_uniform {A} (m : nat) (l : list (list A)) :
  Forall (fun x => length x = m) l -> length (concat l) = length l * m.
Proof.
  induction 1 as [|x l Hx _ IH]; simpl; [reflexivity|].
  rewrite length_app, IH, Hx. reflexivity.
Qed.

Lemma nth_error_concat_uniform {A} (m : nat) (l : list (list A)) :
  Forall (fun x => length x = m) l ->
  forall q x c, nth_error l q = Some x -> c < m ->
                nth_error (concat l) (q * m + c) = nth_error x c.
Proof.
  induction 1 as [|x0 l Hx _ IH]; intros q x c Hq Hc.
  - destruct q; discriminate.
  - destruct q as [|q]; simpl in *.
    + injection Hq as <-. apply nth_error_app1. lia.
    + rewrite nth_error_app2 by lia.
      replace (m + q * m + c - length x0) with (q * m + c) by lia.
      eapply IH; eauto.
Qed.

Lemma Forall_concat {A} (P : A -> Prop) (l : list (list A)) :
  Forall (Forall P) l -> Forall P (concat l).
Proof.
  induction 1; simpl; [constructor | apply Forall_app; auto].
Qed.

Section ReshapeFacts.
Context {FL : Float}.

Lemma reshape_m1_2_length flat :
  forall rows, reshape_m1_2 flat = Ok rows -> length flat = 2 * length rows.
Proof.
  induction flat as [| a | a b l IH] using list_ind_by2; simpl; intros rows H.
  - injection H as <-. reflexivity.
  - discriminate.
  - apply bind_Ok_inv in H as (rs & Hrs & H). injection H as <-.
    simpl. rewrite (IH _ Hrs). lia.
Qed.

Lemma reshape_m1_2_nth flat :
  forall rows, reshape_m1_2 flat = Ok rows ->
  forall r a b, nth_error rows r = Some (a, b) ->
                nth_error flat (2 * r) = Some a
                /\ nth_error flat (2 * r + 1) = Some b.
Proof.
  induction flat as [| a0 | a0 b0 l IH] using list_ind_by2;
    intros rows H r a b Hr; simpl in H.
  - injection H as <-. destruct r; discriminate.
  - discriminate.
  - apply bind_Ok_inv in H as (rs & Hrs & H). injection H as <-.
    destruct r as [|r]; simpl in Hr.
    + injection Hr as <- <-. auto.
    + replace (2 * S r) with (S (S (2 * r))) by lia.
      replace (S (S (2 * r)) + 1) with (S (S (2 * r + 1))) by lia.
      cbn [nth_error]. eapply IH; eauto.
Qed.

Lemma reshape_m1_2_even flat :
  is_ok (reshape_m1_2 flat) = Nat.even (length flat).
Proof.
  induction flat as [| a | a b l IH] using list_ind_by2; simpl;
    try reflexivity.
  rewrite <- IH. destruct (reshape_m1_2 l); reflexivity.
Qed.

Lemma reshape_m1_2_rows (rows : list row) :
  Forall (fun r : row => length r = 2) rows ->
  reshape_m1_2 (concat rows) = Ok (map pair_of rows).
Proof.
  induction 1 as [|r rows Hr _ IH]; simpl; [reflexivity|].
  destruct r as [|a [|b [|c r]]]; try discriminate Hr.
  simpl. rewrite IH. reflexivity.
Qed.

Lemma reshape_m1_3_length flat :
  forall rows, reshape_m1_3 flat = Ok rows -> length flat = 3 * length rows.
Proof.
  induction flat as [| a | a b | a b c l IH] using list_ind_by3;
    simpl; intros rows H.
  - injection H as <-. reflexivity.
  - discriminate.
  - discriminate.
  - apply bind_Ok_inv in H as (rs & Hrs & H). injection H as <-.
    simpl. rewrite (IH _ Hrs). lia.
Qed.

Lemma reshape_m1_3_rows (rows : list row) :
  Forall (fun r : row => 3 <= length r) rows ->
  reshape_m1_3 (concat (map (firstn 3) rows)) = Ok (map triple_of rows).
Proof.
  induction 1 as [|r rows Hr _ IH]; [reflexivity|].
  cbn [map concat].
  destruct r as [|a [|b [|c r]]]; simpl in Hr; try lia.
  change (firstn 3 (a :: b :: c :: r)) with [a; b; c].
  change (reshape_m1_3 ([a; b; c] ++ concat (map (firstn 3) rows)))
    with (rs <- reshape_m1_3 (concat (map (firstn 3) rows)) ;;
          Ok ((a, b, c) :: rs)).
  rewrite IH. reflexivity.
Qed.

Lemma ravel_slice_last n (a : array4) :
  ravel (slice_last n a) = concat (map (firstn n) (keypoint_rows a)).
Proof.
  unfold ravel, slice_last, keypoint_rows.
  rewrite !concat_map. reflexivity.
Qed.

Lemma ravel_keypoint_rows (a : array4) : ravel a = concat (keypoint_rows a).
Proof. reflexivity. Qed.

(** *** Shapes *)

Lemma has_shape_same_shape i k c (a b : array3) :
  has_shape i k c a -> has_shape i k c b -> shape_of a = shape_of b.
Proof.
  intros [Ha Fa] [Hb Fb]. unfold shape_of. rewrite Ha, Hb.
  destruct a as [|x a], b as [|y b]; simpl in *; try congruence.
  inversion Fa as [|? ? [Hx Rx] _]; inversion Fb as [|? ? [Hy Ry] _]; subst.
  rewrite Hy.
  destruct x as [|r x], y as [|r' y]; simpl in *; try congruence.
  inversion Rx; inversion Ry; subst. congruence.
Qed.

Lemma shape_eqb_refl s : shape_eqb s s = true.
Proof. destruct s as [[a b] c]. simpl. rewrite !Nat.eqb_refl. reflexivity. Qed.

Lemma np_stack_same_shape i k c (arrays : list array3) :
  arrays <> [] -> Forall (has_shape i k c) arrays ->
  np_stack arrays = Ok arrays.
Proof.
  intros Hne Hall. destruct arrays as [|a rest]; [contradiction|].
  unfold np_stack. inversion Hall as [|? ? Ha Hrest]; subst.
  replace (forallb _ rest) with true; [reflexivity|].
  symmetry. apply forallb_forall. intros b Hb.
  rewrite Forall_forall in Hrest.
  rewrite (has_shape_same_shape i k c b a (Hrest b Hb) Ha). apply shape_eqb_refl.
Qed.

Lemma np_stack_Ok arrays a : np_stack arrays = Ok a -> a = arrays.
Proof.
  destruct arrays as [|x rest]; simpl; [discriminate|].
  destruct (forallb _ rest); [|discriminate]. congruence.
Qed.

Lemma has_shape_rows i k c (arrays : list array3) :
  Forall (has_shape i k c) arrays ->
  Forall (fun r : row => length r = c) (keypoint_rows arrays)
  /\ length (keypoint_rows arrays) = length arrays * i * k.
Proof.
  intros Hall. unfold keypoint_rows. split.
  - apply Forall_concat, Forall_concat.
    eapply Forall_impl; [|exact Hall]. intros a [_ Ha].
    eapply Forall_impl; [|exact Ha]. intros idv [_ Hr]. exact Hr.
  - rewrite (length_concat_uniform k).
    + rewrite (length_concat_uniform i); [reflexivity|].
      eapply Forall_impl; [|exact Hall]. intros a [Ha _]. exact Ha.
    + apply Forall_concat.
      eapply Forall_impl; [|exact Hall]. intros a [_ Ha].
      eapply Forall_impl; [|exact Ha]. intros idv [Hk _]. exact Hk.
Qed.

(** *** Dictionaries *)

Lemma dict_get_In {V} (d : dict V) k :
  In k (keys d) -> exists v, dict_get d k = Ok v /\ In (k, v) d.
Proof.
  induction d as [|[k' v'] d IH]; simpl; intros H; [contradiction|].
  destruct (String.eqb_spec k k') as [->|Hne].
  - eauto.
  - destruct H as [H|H]; [congruence|].
    destruct (IH H) as (v & Hv & Hin). eauto.
Qed.

Lemma mapM_Forall {A B} (f : A -> result B) (P : B -> Prop) l l' :
  mapM f l = Ok l' ->
  (forall a b, In a l -> f a = Ok b -> P b) -> Forall P l'.
Proof.
  revert l'; induction l as [|a l IH]; simpl; intros l' H HP.
  - injection H as <-. constructor.
  - apply bind_Ok_inv in H as (b & Hb & H).
    apply bind_Ok_inv in H as (bs & Hbs & H). injection H as <-.
    constructor; [eapply HP; eauto | apply IH; eauto].
Qed.

Lemma build_keypoint_array_shaped i k c (d : dict array3) paths :
  paths <> [] ->
  (forall path, In path paths ->
                exists a, dict_get d path = Ok a /\ has_shape i k c a) ->
  exists arrays, build_keypoint_array d paths = Ok arrays
                 /\ length arrays = length paths
                 /\ Forall (has_shape i k c) arrays.
Proof.
  intros Hne Hall. unfold build_keypoint_array.
  destruct (mapM_total (fun image_key => dict_get d image_key) paths)
    as (arrays & Harr).
  { intros path Hin. destruct (Hall path Hin) as (a & Ha & _). eauto. }
  rewrite Harr. simpl.
  assert (Hshape : Forall (has_shape i k c) arrays).
  { eapply mapM_Forall; [exact Harr|]. intros path a Hin Ha.
    destruct (Hall path Hin) as (a' & Ha' & Hs). congruence. }
  assert (Hlen := mapM_Ok_length _ _ _ Harr).
  exists arrays. split; [|split]; auto.
  apply (np_stack_same_shape i k c); auto.
  intros ->. destruct paths; [contradiction | discriminate].
Qed.

Lemma stacked_rows3_shaped i k c (d : dict array3) paths :
  3 <= c -> paths <> [] ->
  (forall path, In path paths ->
                exists a, dict_get d path = Ok a /\ has_shape i k c a) ->
  exists arrays, build_keypoint_array d paths = Ok arrays
                 /\ stacked_rows3 d paths = Ok (map triple_of (keypoint_rows arrays))
                 /\ length (keypoint_rows arrays) = length paths * i * k.
Proof.
  intros Hc Hne Hall.
  destruct (build_keypoint_array_shaped i k c d paths Hne Hall) as (arrays & Hb & Hlen & Hsh).
  exists arrays. unfold stacked_rows3. rewrite Hb. simpl.
  destruct (has_shape_rows _ _ _ _ Hsh) as [Hrows Hcount].
  rewrite ravel_slice_last, reshape_m1_3_rows.
  - repeat split; congruence.
  - eapply Forall_impl; [|exact Hrows]. simpl. intros r ->. exact Hc.
Qed.

Lemma stacked_rows2_shaped i k (d : dict array3) paths :
  paths <> [] ->
  (forall path, In path paths ->
                exists a, dict_get d path = Ok a /\ has_shape i k 2 a) ->
  exists arrays, build_keypoint_array d paths = Ok arrays
                 /\ stacked_rows2 d paths = Ok (map pair_of (keypoint_rows arrays))
                 /\ length (keypoint_rows arrays) = length paths * i * k.
Proof.
  intros Hne Hall.
  destruct (build_keypoint_array_shaped i k 2 d paths Hne Hall) as (arrays & Hb & Hlen & Hsh).
  exists arrays. unfold stacked_rows2. rewrite Hb. simpl.
  destruct (has_shape_rows _ _ _ _ Hsh) as [Hrows Hcount].
  rewrite ravel_keypoint_rows, reshape_m1_2_rows by exact Hrows.
  repeat split; congruence.
Qed.

End ReshapeFacts.

(** ** Dictionaries related key by key *)

Section DictFacts.
Context {V W : Type} (R : V -> W -> Prop).

Lemma dict_set_rel (d : dict V) (d' : dict W) k v v' :
  dict_rel R d d' -> R v v' -> dict_rel R (dict_set d k v) (dict_set d' k v').
Proof.
  intros Hd Hv. induction Hd as [|[k1 v1] [k2 v2] d d' [Hk Hr] Hd IH]; simpl.
  - constructor; [split; auto | constructor].
  - simpl in Hk, Hr. subst k2.
    destruct (String.eqb k k1); constructor; simpl; auto.
Qed.

Lemma dict_get_rel (d : dict V) (d' : dict W) k v :
  dict_rel R d d' -> dict_get d k = Ok v ->
  exists v', dict_get d' k = Ok v' /\ R v v'.
Proof.
  intros Hd. induction Hd as [|[k1 v1] [k2 v2] d d' [Hk Hr] _ IH]; simpl.
  - discriminate.
  - simpl in Hk, Hr. subst k2.
    destruct (String.eqb k k1); [|exact IH].
    intros H. injection H as <-. eauto.
Qed.

Lemma dict_rel_keys (d : dict V) (d' : dict W) :
  dict_rel R d d' -> keys d = keys d'.
Proof.
  induction 1 as [|x y d d' [Hk _] _ IH]; simpl; congruence.
Qed.

End DictFacts.

Lemma dict_set_fresh {V} (d : dict V) k v :
  ~ In k (keys d) -> dict_set d k v = d ++ [(k, v)].
Proof.
  induction d as [|[k' v'] d IH]; simpl; intros Hk; [reflexivity|].
  destruct (String.eqb_spec k k') as [->|_]; [tauto|].
  rewrite IH by tauto. reflexivity.
Qed.

Lemma keys_dict_set {V} (d : dict V) k v :
  In k (keys d) -> keys (dict_set d k v) = keys d.
Proof.
  induction d as [|[k' v'] d IH]; simpl; intros Hk; [contradiction|].
  destruct (String.eqb_spec k k') as [->|Hne]; simpl; [reflexivity|].
  rewrite IH; [reflexivity|]. destruct Hk; congruence.
Qed.

(** ** Masking and assemblies *)

Section OksFacts.
Context {FL : Float}.

Lemma combine_map_both {A B C} (f : A -> B) (g : A -> C) l :
  combine (map f l) (map g l) = map (fun x => (f x, g x)) l.
Proof. induction l; simpl; congruence. Qed.


Lemma nth_error_nth_default (r : row) n :
  n < length r -> nth_error r n = Some (nth n r fnan).
Proof. intros H. apply nth_error_nth'. exact H. Qed.

Lemma below_cutoff_three_columns pc kws :
  three_columns kws ->
  below_cutoff pc kws = Ok (map (map (fun r => fltb (nth 2 r fnan) pc)) kws).
Proof.
  intros H. unfold below_cutoff. apply mapM_pure. intros idv Hidv.
  apply mapM_pure. intros r Hr.
  unfold three_columns in H. rewrite Forall_forall in H.
  specialize (H idv Hidv). rewrite Forall_forall in H. specialize (H r Hr).
  rewrite nth_error_nth_default by lia. reflexivity.
Qed.

Lemma below_cutoff_Ok pc kws mask :
  below_cutoff pc kws = Ok mask -> three_columns kws.
Proof.
  unfold below_cutoff, three_columns. revert mask.
  induction kws as [|idv kws IH]; cbn [mapM]; intros mask H; [constructor|].
  apply bind_Ok_inv in H as (m & Hm & H).
  apply bind_Ok_inv in H as (ms & Hms & H).
  constructor; [|eapply IH; eauto].
  clear - Hm. revert m Hm.
  induction idv as [|r idv IH]; cbn [mapM]; intros m Hm; [constructor|].
  apply bind_Ok_inv in Hm as (b & Hb & Hm).
  apply bind_Ok_inv in Hm as (bs & Hbs & Hm).
  constructor; [|eapply IH; eauto].
  destruct (nth_error r 2) eqn:E; [|discriminate].
  assert (2 < length r) by (apply nth_error_Some; congruence). lia.
Qed.

Lemma masked_keypoint_assign pc (r : row) :
  3 <= length r ->
  (if fltb (nth 2 r fnan) pc then map (fun _ => fnan) (firstn 2 r)
   else firstn 2 r) = masked_keypoint pc r.
Proof.
  intros H. unfold masked_keypoint.
  destruct r as [|a [|b [|c r]]]; simpl in H; try lia.
  destruct (fltb _ _); reflexivity.
Qed.

(** With a pcutoff the loop body succeeds exactly on arrays with a score
    column, and masks keypoint by keypoint. *)
Lemma mask_keypoints_Some pc kws :
  three_columns kws ->
  mask_keypoints (Some pc) kws = Ok (map (map (masked_keypoint pc)) kws).
Proof.
  intros H. unfold mask_keypoints.
  rewrite (below_cutoff_three_columns pc kws H). simpl.
  f_equal. unfold assign_nan, slice2.
  rewrite combine_map_both, map_map.
  apply map_ext_in. intros idv Hidv. simpl.
  rewrite combine_map_both, map_map.
  apply map_ext_in. intros r Hr. simpl.
  apply masked_keypoint_assign.
  unfold three_columns in H. rewrite Forall_forall in H.
  specialize (H idv Hidv). rewrite Forall_forall in H. auto.
Qed.

Lemma mask_keypoints_Some_inv pc kws arr :
  mask_keypoints (Some pc) kws = Ok arr ->
  three_columns kws /\ arr = map (map (masked_keypoint pc)) kws.
Proof.
  intros H. assert (H3 : three_columns kws).
  { unfold mask_keypoints in H. apply bind_Ok_inv in H as (m & Hm & _).
    eapply below_cutoff_Ok; eauto. }
  split; [exact H3|]. rewrite (mask_keypoints_Some pc kws H3) in H. congruence.
Qed.


Lemma mask_predictions_rel pc pred :
  forall acc acc' mm,
    dict_rel (masked_of pc) acc acc' ->
    mask_predictions pred (Some pc) acc = Ok mm ->
    exists mu, mask_predictions pred None acc' = Ok mu
               /\ dict_rel (masked_of pc) mm mu.
Proof.
  induction pred as [|[path kws] pred IH]; simpl; intros acc acc' mm Hacc H.
  - injection H as <-. eauto.
  - apply bind_Ok_inv in H as (arr & Harr & H).
    apply mask_keypoints_Some_inv in Harr as [H3 ->].
    eapply IH; [|exact H].
    apply dict_set_rel; [exact Hacc|].
    exists kws. auto.
Qed.

Lemma mask_predictions_total pc pred :
  (forall path kws, In (path, kws) pred -> three_columns kws) ->
  forall acc, exists mm, mask_predictions pred (Some pc) acc = Ok mm.
Proof.
  induction pred as [|[path kws] pred IH]; cbn [mask_predictions];
    intros H acc; [eauto|].
  rewrite mask_keypoints_Some by (eapply H; left; eauto). cbn [bind].
  apply IH. intros p k Hin. eapply H. right. exact Hin.
Qed.

Lemma mask_predictions_None_total pred :
  forall acc, exists mu, mask_predictions pred None acc = Ok mu.
Proof.
  induction pred as [|[path kws] pred IH]; simpl; intros acc; eauto.
Qed.

(** *** Assemblies *)

Lemma image_assemblies_of_filter (keypoints : array3) :
  image_assemblies_of keypoints
  = filter (fun a => 0 <? Assembly_len a) (map Assembly_from_array keypoints).
Proof.
  unfold image_assemblies_of.
  enough (G : forall acc,
             fold_left
               (fun image_assemblies idv_bodyparts =>
                  let assembly := Assembly_from_array idv_bodyparts in
                  if 0 <? Assembly_len assembly
                  then image_assemblies ++ [assembly]
                  else image_assemblies) keypoints acc
             = acc ++ filter (fun a => 0 <? Assembly_len a)
                             (map Assembly_from_array keypoints))
    by apply (G []).
  induction keypoints as [|idv kp IH]; simpl; intros acc.
  - rewrite app_nil_r. reflexivity.
  - rewrite IH. destruct (0 <? Assembly_len (Assembly_from_array idv)).
    + rewrite <- app_assoc. reflexivity.
    + reflexivity.
Qed.

Lemma build_assemblies_rel {R : array3 -> array3 -> Prop}
      {Q : list Assembly -> list Assembly -> Prop} :
  (forall a a', R a a' -> Q (image_assemblies_of a) (image_assemblies_of a')) ->
  forall poses poses' acc acc',
    dict_rel R poses poses' -> dict_rel Q acc acc' ->
    dict_rel Q
      (fold_left (fun assemblies item =>
                    dict_set assemblies (fst item) (image_assemblies_of (snd item)))
                 poses acc)
      (fold_left (fun assemblies item =>
                    dict_set assemblies (fst item) (image_assemblies_of (snd item)))
                 poses' acc').
Proof.
  intros HRQ poses poses' acc acc' Hp. revert acc acc'.
  induction Hp as [|[k a] [k' a'] poses poses' [Hk Ha] _ IH];
    simpl; intros acc acc' Hacc; [exact Hacc|].
  simpl in Hk, Ha. subst k'.
  apply IH. apply dict_set_rel; auto.
Qed.

Lemma dict_rel_diag {V} (P : V -> Prop) (d : dict V) :
  (forall k v, In (k, v) d -> P v) -> dict_rel (fun v _ => P v) d d.
Proof.
  induction d as [|[k v] d IH]; intros H; constructor.
  - split; [reflexivity|]. simpl. eapply H. left. reflexivity.
  - apply IH. intros; eapply H; right; eauto.
Qed.


Lemma image_assemblies_nonempty keypoints :
  no_empty_assembly (image_assemblies_of keypoints) (image_assemblies_of keypoints).
Proof.
  unfold no_empty_assembly. rewrite image_assemblies_of_filter.
  apply Forall_forall. intros a Ha. apply filter_In in Ha as [Hin Hlen].
  split; [apply Nat.ltb_lt, Hlen|].
  apply in_map_iff in Hin as (idv & <- & _).
  unfold Assembly_from_array. apply Forall_forall.
  intros ir Hir. apply filter_In in Hir as [_ Hv]. exact Hv.
Qed.

Lemma filter_map_length_le {A B} (p q : B -> bool) (f g : A -> B) l :
  (forall x, In x l -> p (f x) = true -> q (g x) = true) ->
  length (filter p (map f l)) <= length (filter q (map g l)).
Proof.
  induction l as [|x l IH]; simpl; intros H; [lia|].
  assert (IH' := IH (fun y Hy => H y (or_intror Hy))).
  specialize (H x (or_introl eq_refl)).
  destruct (p (f x)); simpl.
  - rewrite H by reflexivity. simpl. lia.
  - destruct (q (g x)); simpl; lia.
Qed.

Lemma masked_keypoint_valid `{!FloatLaws FL} pc (r : row) :
  joint_valid (masked_keypoint pc r) = true -> joint_valid (firstn 2 r) = true.
Proof.
  unfold masked_keypoint. destruct (fltb _ _); [|auto].
  unfold joint_valid. simpl.
  rewrite (isfinite_nan fnan isnan_fnan). discriminate.
Qed.

Lemma filter_length_le {A} (p q : A -> bool) l :
  (forall x, In x l -> p x = true -> q x = true) ->
  length (filter p l) <= length (filter q l).
Proof.
  intros H. rewrite <- (map_id l).
  apply filter_map_length_le. exact H.
Qed.

Lemma masked_assembly_len `{!FloatLaws FL} pc (idv : array2) :
  Assembly_len (Assembly_from_array (map (masked_keypoint pc) idv))
  <= Assembly_len (Assembly_from_array (map (firstn 2) idv)).
Proof.
  unfold Assembly_len, Assembly_from_array. rewrite !length_map.
  assert (E : forall (f : row -> row),
             combine (seq 0 (length idv)) (map f idv)
             = map (fun ir => (fst ir, f (snd ir)))
                   (combine (seq 0 (length idv)) idv)).
  { intros f. generalize 0. induction idv as [|r idv IH]; simpl; intros n.
    - reflexivity.
    - f_equal. apply IH. }
  rewrite !E. apply filter_map_length_le.
  intros [i r] _. simpl. apply masked_keypoint_valid.
Qed.

Lemma masked_image_assemblies `{!FloatLaws FL} pc masked unmasked :
  masked_of pc masked unmasked ->
  length (image_assemblies_of masked) <= length (image_assemblies_of unmasked).
Proof.
  intros (kws & _ & -> & ->). rewrite !image_assemblies_of_filter.
  unfold slice2. rewrite !map_map.
  apply filter_map_length_le. intros idv _ H.
  apply Nat.ltb_lt in H. apply Nat.ltb_lt.
  eapply Nat.lt_le_trans; [exact H|]. apply masked_assembly_len.
Qed.

End OksFacts.

(** C7.  No image's assembly list built by [build_assemblies] holds an
    assembly without a valid joint, and masking by a pcutoff never adds an
    assembly: image by image, the masked predictions give at most as many
    assemblies as the unmasked ones. *)
Theorem build_assemblies_drops_empty_and_masking_shrinks
        (FL : Float) (LAWS : FloatLaws FL) :
  (forall (poses : dict array3) image asms a,
      dict_get (build_assemblies poses) image = Ok asms -> In a asms ->
      0 < Assembly_len a
      /\ Forall (fun ir : nat * row => joint_valid (snd ir) = true) a)
  /\ (forall (pred : dict array3) pcutoff masked_pred unmasked_pred,
         mask_predictions pred (Some pcutoff) [] = Ok masked_pred ->
         mask_predictions pred None [] = Ok unmasked_pred ->
         keys (build_assemblies masked_pred) = keys (build_assemblies unmasked_pred)
         /\ forall image asms,
             dict_get (build_assemblies masked_pred) image = Ok asms ->
             exists asms',
               dict_get (build_assemblies unmasked_pred) image = Ok asms'
               /\ length asms <= length asms').
Proof.
  split.
  - intros poses image asms a Hget Hin.
    assert (Hrel : dict_rel no_empty_assembly
                            (build_assemblies poses) (build_assemblies poses)).
    { unfold build_assemblies.
      apply (@build_assemblies_rel FL (fun _ _ => True) no_empty_assembly).
      - intros. apply image_assemblies_nonempty.
      - apply (dict_rel_diag (fun _ : array3 => True)). auto.
      - constructor. }
    eapply dict_get_rel in Hget; [|exact Hrel].
    destruct Hget as (asms' & _ & Hall).
    unfold no_empty_assembly in Hall. rewrite Forall_forall in Hall.
    apply Hall, Hin.
  - intros pred pcutoff mm mu Hm Hu.
    destruct (@mask_predictions_rel FL pcutoff pred [] [] mm) as (mu' & Hu' & Hrel);
      [constructor | exact Hm |].
    assert (mu' = mu) by congruence. subst mu'.
    assert (Hasm : dict_rel (fun a a' : list Assembly => length a <= length a')
                            (build_assemblies mm) (build_assemblies mu)).
    { unfold build_assemblies.
      apply (@build_assemblies_rel FL (masked_of pcutoff)
                                   (fun a a' => length a <= length a')).
      - intros. apply masked_image_assemblies with (pc := pcutoff); assumption.
      - exact Hrel.
      - constructor. }
    split; [eapply dict_rel_keys; eauto|].
    intros image asms Hget.
    eapply dict_get_rel in Hget; [|exact Hasm]. exact Hget.
Qed.

(** ** [get_scores] *)

Section GetScoresFacts.
Context {FL : Float}.

Variable evaluate_assembly :
  dict (list Assembly) -> dict (list Assembly) -> F -> F -> option (list (nat * nat)) ->
  oks_scores.

Lemma bind_other {A B} (c : result A) (k : A -> result B) :
  other_error c -> (forall a, other_error (k a)) -> other_error (bind c k).
Proof.
  unfold other_error. destruct c as [a|e]; simpl; intros Hc Hk.
  - apply Hk.
  - intros H. apply Hc. congruence.
Qed.

Lemma Ok_other {A} (a : A) : other_error (Ok a).
Proof. unfold other_error. discriminate. Qed.

Lemma mapM_other {A B} (f : A -> result B) l :
  (forall a, other_error (f a)) -> other_error (mapM f l).
Proof.
  intros Hf. induction l as [|a l IH]; simpl.
  - apply Ok_other.
  - apply bind_other; [apply Hf|]. intros b.
    apply bind_other; [exact IH|]. intros bs. apply Ok_other.
Qed.

Lemma dict_get_other {V} (d : dict V) k : other_error (dict_get d k).
Proof.
  induction d as [|[k' v] d IH]; simpl.
  - unfold other_error. discriminate.
  - destruct (String.eqb k k'); [apply Ok_other | exact IH].
Qed.

Lemma np_stack_other arrays : other_error (np_stack arrays).
Proof.
  unfold np_stack, other_error, image_count_msg.
  destruct arrays as [|a rest]; [discriminate|].
  destruct (forallb _ rest); discriminate.
Qed.

Lemma reshape_m1_3_other flat : other_error (reshape_m1_3 flat).
Proof.
  induction flat as [| a | a b | a b c l IH] using list_ind_by3; simpl.
  - apply Ok_other.
  - unfold other_error, image_count_msg. discriminate.
  - unfold other_error, image_count_msg. discriminate.
  - apply bind_other; [exact IH|]. intros. apply Ok_other.
Qed.

Lemma reshape_m1_2_other flat : other_error (reshape_m1_2 flat).
Proof.
  induction flat as [| a | a b l IH] using list_ind_by2; simpl.
  - apply Ok_other.
  - unfold other_error, image_count_msg. discriminate.
  - apply bind_other; [exact IH|]. intros. apply Ok_other.
Qed.

Lemma stacked_rows3_other d paths : other_error (stacked_rows3 d paths).
Proof.
  unfold stacked_rows3, build_keypoint_array.
  apply bind_other; [|intros; apply reshape_m1_3_other].
  apply bind_other; [|intros; apply np_stack_other].
  apply mapM_other. intros. apply dict_get_other.
Qed.

Lemma stacked_rows2_other d paths : other_error (stacked_rows2 d paths).
Proof.
  unfold stacked_rows2, build_keypoint_array.
  apply bind_other; [|intros; apply reshape_m1_2_other].
  apply bind_other; [|intros; apply np_stack_other].
  apply mapM_other. intros. apply dict_get_other.
Qed.

Lemma compute_rmse_other pred gt pc : other_error (compute_rmse pred gt pc).
Proof.
  unfold compute_rmse.
  destruct (negb _); [|apply Ok_other].
  unfold other_error, image_count_msg, same_rows_msg. discriminate.
Qed.

Lemma mask_predictions_other pred pc :
  forall acc, other_error (mask_predictions pred pc acc).
Proof.
  induction pred as [|[path kws] pred IH]; cbn [mask_predictions]; intros acc.
  - apply Ok_other.
  - apply bind_other; [|intros; apply IH].
    unfold mask_keypoints. destruct pc as [pc|]; [|apply Ok_other].
    apply bind_other; [|intros; apply Ok_other].
    unfold below_cutoff. apply mapM_other. intros idv.
    apply mapM_other. intros r.
    destruct (nth_error r 2); [apply Ok_other|].
    unfold other_error. discriminate.
Qed.

Lemma compute_oks_other pred gt s m sym pc :
  other_error (compute_oks evaluate_assembly pred gt s m sym pc).
Proof.
  unfold compute_oks.
  apply bind_other; [apply mask_predictions_other|]. intros. apply Ok_other.
Qed.

Lemma get_scores_guard_passed poses gt up ug pc :
  length poses = length gt ->
  get_scores evaluate_assembly poses gt up ug pc
  = get_scores_body evaluate_assembly poses gt up ug pc.
Proof.
  intros H. unfold get_scores. rewrite H, Nat.eqb_refl. reflexivity.
Qed.

Lemma get_scores_guard_fails poses gt up ug pc :
  length poses <> length gt ->
  get_scores evaluate_assembly poses gt up ug pc
  = Raise (ValueError image_count_msg).
Proof.
  intros H. unfold get_scores. apply Nat.eqb_neq in H. rewrite H. reflexivity.
Qed.

Lemma get_scores_body_other poses gt up ug pc :
  other_error (get_scores_body evaluate_assembly poses gt up ug pc).
Proof.
  unfold get_scores_body.
  apply bind_other; [apply stacked_rows3_other|]. intros P.
  apply bind_other; [apply stacked_rows2_other|]. intros G.
  apply bind_other.
  { destruct up as [up|]; [|apply Ok_other].
    apply bind_other; [apply stacked_rows3_other|]. intros UP.
    destruct ug as [ug|]; [|unfold other_error; discriminate].
    apply bind_other; [apply stacked_rows2_other|]. intros. apply Ok_other. }
  intros [P' G'].
  apply bind_other; [apply compute_rmse_other|]. intros [r rp].
  apply bind_other; [apply compute_oks_other|]. intros o.
  apply bind_other; [apply compute_oks_other|]. intros o'.
  apply Ok_other.
Qed.

Lemma compute_oks_total pred gt s m sym pc :
  (forall path kws, In (path, kws) pred -> three_columns kws) ->
  exists o, compute_oks evaluate_assembly pred gt s m sym pc = Ok o.
Proof.
  intros H. unfold compute_oks. destruct pc as [pc|].
  - destruct (mask_predictions_total pc pred H []) as (mm & ->). simpl. eauto.
  - destruct (mask_predictions_None_total pred []) as (mu & ->). simpl. eauto.
Qed.

Lemma has_shape_three_columns i k c a :
  3 <= c -> has_shape i k c a -> three_columns a.
Proof.
  intros Hc [_ H]. unfold three_columns.
  eapply Forall_impl; [|exact H]. intros idv [_ Hr].
  eapply Forall_impl; [|exact Hr]. simpl. intros r ->. exact Hc.
Qed.

(** Once the two row arrays are built, what is left of [get_scores]. *)
Lemma get_scores_body_rows poses gt pc P G :
  stacked_rows3 poses (keys poses) = Ok P ->
  stacked_rows2 gt (keys poses) = Ok G ->
  (length P <> length G ->
   get_scores_body evaluate_assembly poses gt None None pc = Raise (ValueError same_rows_msg))
  /\ (length P = length G ->
      (forall path kws, In (path, kws) poses -> three_columns kws) ->
      exists scores,
        get_scores_body evaluate_assembly poses gt None None pc = Ok scores
        /\ keys scores = score_keys
        /\ dict_get scores "rmse" = Ok (spec_rmse P G)
        /\ dict_get scores "rmse_pcutoff" = Ok (spec_rmse_pcutoff P G pc)).
Proof.
  intros HP HG. unfold get_scores_body. rewrite HP, HG. cbn [bind].
  split.
  - intros Hne. rewrite (compute_rmse_mismatch _ _ pc Hne). reflexivity.
  - intros Heq H3. rewrite (compute_rmse_rowwise _ _ pc Heq). cbn [bind].
    destruct (compute_oks_total poses gt default_oks_sigma default_margin None
                                None H3) as (o & ->).
    destruct (compute_oks_total poses gt default_oks_sigma default_margin None
                                (Some pc) H3) as (o' & ->).
    cbn [bind]. eexists. split; [reflexivity|].
    repeat split; reflexivity.
Qed.

End GetScoresFacts.

(** C3 (as the code has it).  [get_scores] raises its image-count ValueError,
    before anything is computed, exactly when the two mappings differ in their
    number of images.  With equal counts it goes on, and returns the six
    scores when there is at least one image, the prediction arrays share one
    shape (i, k, c) with c >= 3, and the ground truth holds for every image
    of the predictions an array of shape (i, k, 2). *)
Theorem get_scores_image_count_guard
        (FL : Float)
        (evaluate_assembly :
           dict (list Assembly) -> dict (list Assembly) -> F -> F ->
           option (list (nat * nat)) -> oks_scores)
        (poses ground_truth : dict array3)
        (unique_bodypart_poses unique_bodypart_gt : option (dict array3))
        (pcutoff : F) :
  (get_scores evaluate_assembly poses ground_truth unique_bodypart_poses
              unique_bodypart_gt pcutoff
   = Raise (ValueError image_count_msg)
   <-> length poses <> length ground_truth)
  /\ (length poses = length ground_truth ->
      poses <> [] ->
      forall i k c,
        3 <= c ->
        (forall path a, In (path, a) poses -> has_shape i k c a) ->
        (forall path, In path (keys poses) ->
                      exists g, dict_get ground_truth path = Ok g
                                /\ has_shape i k 2 g) ->
        exists scores,
          get_scores evaluate_assembly poses ground_truth None None pcutoff
          = Ok scores
          /\ keys scores = score_keys).
Proof.
  split; [split|].
  - intros H. destruct (Nat.eq_dec (length poses) (length ground_truth)) as [E|E];
      [|exact E].
    rewrite (get_scores_guard_passed _ _ _ _ _ _ E) in H.
    exfalso. exact (get_scores_body_other _ _ _ _ _ _ H).
  - apply get_scores_guard_fails.
  - intros Hlen Hne i k c Hc Hposes Hgt.
    rewrite (get_scores_guard_passed _ _ _ _ _ _ Hlen).
    assert (Hpaths : keys poses <> []).
    { destruct poses; [contradiction | discriminate]. }
    destruct (stacked_rows3_shaped i k c poses (keys poses) Hc Hpaths)
      as (P & _ & HP & HPlen).
    { intros path Hin. destruct (dict_get_In poses path Hin) as (a & Ha & Hina).
      eauto. }
    destruct (stacked_rows2_shaped i k ground_truth (keys poses) Hpaths Hgt)
      as (G & _ & HG & HGlen).
    destruct (get_scores_body_rows evaluate_assembly poses ground_truth
                                      pcutoff _ _ HP HG) as [_ Hok].
    destruct Hok as (scores & Hs & Hk & _).
    + rewrite !length_map. congruence.
    + intros path kws Hin. eapply has_shape_three_columns; eauto.
    + eauto.
Qed.

(** ** [compute_oks] over the store *)

Section StoreFacts.
Context {FL : Float}.

Variable evaluate_assembly :
  dict (list Assembly) -> dict (list Assembly) -> F -> F -> option (list (nat * nat)) ->
  oks_scores.

Lemma nth_error_ext {A} (h ext : list A) a v :
  nth_error h a = Some v -> nth_error (h ++ ext) a = Some v.
Proof.
  intros H. rewrite nth_error_app1; [exact H|].
  apply nth_error_Some. congruence.
Qed.

Lemma nth_error_fresh {A} (h : list A) v : nth_error (h ++ [v]) (length h) = Some v.
Proof. rewrite nth_error_app2, Nat.sub_diag by lia. reflexivity. Qed.

Lemma load_ext (h ext : heap) (d : dict ref) dv :
  load h d = Ok dv -> load (h ++ ext) d = Ok dv.
Proof.
  revert dv; induction d as [|[k a] d IH]; simpl; intros dv H; [exact H|].
  destruct (nth_error h a) as [v|] eqn:E; [|discriminate].
  rewrite (nth_error_ext h ext a v E).
  apply bind_Ok_inv in H as (vs & Hvs & H).
  rewrite (IH vs Hvs). exact H.
Qed.

Lemma load_dict_set (h : heap) (d : dict ref) dv key a v :
  load h d = Ok dv -> nth_error h a = Some v ->
  load h (dict_set d key a) = Ok (dict_set dv key v).
Proof.
  intros Hd Ha. revert dv Hd.
  induction d as [|[k a'] d IH]; simpl; intros dv Hd.
  - injection Hd as <-. simpl. rewrite Ha. reflexivity.
  - destruct (nth_error h a') as [v'|] eqn:E; [|discriminate].
    apply bind_Ok_inv in Hd as (vs & Hvs & Hd). injection Hd as <-.
    simpl. destruct (String.eqb key k); simpl.
    + rewrite Ha, Hvs. reflexivity.
    + rewrite E, (IH vs Hvs). reflexivity.
Qed.

Lemma load_keys (h : heap) (d : dict ref) dv :
  load h d = Ok dv -> keys dv = keys d.
Proof.
  revert dv; induction d as [|[k a] d IH]; simpl; intros dv H.
  - injection H as <-. reflexivity.
  - destruct (nth_error h a); [|discriminate].
    apply bind_Ok_inv in H as (vs & Hvs & H). injection H as <-.
    simpl. f_equal. auto.
Qed.

Lemma st_write_fresh (h : heap) old v :
  st_write (length h) v (h ++ [old]) = Ok (tt, h ++ [v]).
Proof.
  unfold st_write.
  assert (E : (length h <? length (h ++ [old])) = true)
    by (apply Nat.ltb_lt; rewrite length_app; simpl; lia).
  rewrite E, firstn_app, Nat.sub_diag, firstn_all. cbn [firstn].
  rewrite app_nil_r, skipn_all2 by (rewrite length_app; simpl; lia).
  reflexivity.
Qed.

(** One turn of the masking loop: the array read is the caller's, the array
    written is the fresh copy. *)
Lemma mask_predictions_st_step pco path a rest acc (h : heap) kws :
  nth_error h a = Some kws ->
  mask_predictions_st ((path, a) :: rest) pco acc h
  = match mask_keypoints pco kws with
    | Ok keypoints =>
        mask_predictions_st rest pco (dict_set acc path (length h))
                            (h ++ [keypoints])
    | Raise e => Raise e
    end.
Proof.
  intros Ha. cbn [mask_predictions_st].
  unfold st_bind at 1. unfold st_read at 1. rewrite Ha.
  unfold st_bind at 1. unfold st_alloc at 1.
  unfold st_bind at 1. unfold mask_keypoints.
  destruct pco as [pc|].
  - unfold st_bind at 1. unfold st_read at 1.
    rewrite (nth_error_ext h _ a kws Ha).
    unfold st_bind at 1. unfold st_lift.
    destruct (below_cutoff pc kws) as [mask|e]; [|reflexivity].
    unfold st_bind at 1. unfold st_read at 1.
    rewrite nth_error_fresh.
    rewrite st_write_fresh. reflexivity.
  - reflexivity.
Qed.

Lemma mask_predictions_st_spec pco pred :
  forall acc (h : heap) pv accv,
    load h pred = Ok pv -> load h acc = Ok accv ->
    match mask_predictions pv pco accv with
    | Ok mv => exists m ext,
               mask_predictions_st pred pco acc h = Ok (m, h ++ ext)
               /\ load (h ++ ext) m = Ok mv
    | Raise e => mask_predictions_st pred pco acc h = Raise e
    end.
Proof.
  induction pred as [|[path a] pred IH]; intros acc h pv accv Hp Hacc.
  - simpl in Hp. injection Hp as <-. simpl.
    exists acc, []. rewrite app_nil_r. auto.
  - simpl in Hp. destruct (nth_error h a) as [kws|] eqn:Ha; [|discriminate].
    apply bind_Ok_inv in Hp as (pvs & Hpvs & Hp). injection Hp as <-.
    assert (Hstep := mask_predictions_st_step pco path a pred acc h kws Ha).
    cbn [mask_predictions].
    destruct (mask_keypoints pco kws) as [keypoints|e]; cbn [bind];
      [|exact Hstep].
    specialize (IH (dict_set acc path (length h)) (h ++ [keypoints]) pvs
                   (dict_set accv path keypoints)
                   (load_ext h _ pred pvs Hpvs)
                   (load_dict_set _ acc accv path (length h) keypoints
                                  (load_ext h _ acc accv Hacc)
                                  (nth_error_fresh h keypoints))).
    destruct (mask_predictions pvs pco (dict_set accv path keypoints))
      as [mv|e]; [|exact (eq_trans Hstep IH)].
    destruct IH as (m & ext & Hm & Hl).
    exists m, ([keypoints] ++ ext). rewrite app_assoc.
    split; [exact (eq_trans Hstep Hm) | exact Hl].
Qed.

Lemma build_assemblies_st_spec poses :
  forall acc (h : heap) pv,
    load h poses = Ok pv ->
    build_assemblies_st poses acc h
    = Ok (fold_left (fun assemblies item =>
                       dict_set assemblies (fst item)
                                (image_assemblies_of (snd item)))
                    pv acc, h).
Proof.
  induction poses as [|[path a] poses IH]; simpl; intros acc h pv Hp.
  - injection Hp as <-. reflexivity.
  - destruct (nth_error h a) as [kp|] eqn:Ha; [|discriminate].
    apply bind_Ok_inv in Hp as (pvs & Hpvs & Hp). injection Hp as <-.
    unfold st_bind, st_read. rewrite Ha. simpl.
    apply IH. exact Hpvs.
Qed.

(** The run over the store computes what [compute_oks] computes on the
    arrays, and only appends to the store. *)
Lemma compute_oks_st_spec pred gt s m sym pco (h : heap) pv gv :
  load h pred = Ok pv -> load h gt = Ok gv ->
  match compute_oks evaluate_assembly pv gv s m sym pco with
  | Ok res => exists ext,
              compute_oks_st evaluate_assembly pred gt s m sym pco h
              = Ok (res, h ++ ext)
  | Raise e => compute_oks_st evaluate_assembly pred gt s m sym pco h = Raise e
  end.
Proof.
  intros Hp Hg. unfold compute_oks, compute_oks_st.
  assert (Hspec := mask_predictions_st_spec pco pred [] h pv [] Hp eq_refl).
  destruct (mask_predictions pv pco []) as [mv|e]; cbn [bind].
  - destruct Hspec as (masked & ext & Hm & Hl). exists ext.
    unfold st_bind at 1. rewrite Hm.
    unfold st_bind at 1. rewrite (build_assemblies_st_spec masked [] _ mv Hl).
    unfold st_bind at 1.
    rewrite (build_assemblies_st_spec gt [] _ gv (load_ext h ext gt gv Hg)).
    reflexivity.
  - unfold st_bind at 1. rewrite Hspec. reflexivity.
Qed.

Lemma mask_predictions_fresh_keys pc (pv : dict array3) :
  forall acc,
    NoDup (keys acc ++ keys pv) ->
    (forall path kws, In (path, kws) pv -> three_columns kws) ->
    mask_predictions pv (Some pc) acc
    = Ok (acc ++ map (fun item => (fst item,
                                    map (map (masked_keypoint pc)) (snd item)))
                     pv).
Proof.
  induction pv as [|[path kws] pv IH]; cbn [mask_predictions]; intros acc Hnd H3.
  - simpl. rewrite app_nil_r. reflexivity.
  - rewrite mask_keypoints_Some by (eapply H3; left; reflexivity).
    cbn [bind]. simpl keys in Hnd.
    assert (Hfresh : ~ In path (keys acc)).
    { intros Hin. apply NoDup_remove_2 in Hnd. apply Hnd.
      apply in_or_app. left. exact Hin. }
    rewrite dict_set_fresh by exact Hfresh.
    rewrite IH.
    + rewrite <- app_assoc. reflexivity.
    + unfold keys in *. rewrite map_app. simpl. rewrite <- app_assoc. simpl.
      exact Hnd.
    + intros p k Hin. eapply H3. right. exact Hin.
Qed.

End StoreFacts.

(** C6.  With a pcutoff, and on prediction arrays that carry a score column,
    [compute_oks] hands to [build_assemblies] fresh arrays holding, keypoint by
    keypoint, NaN coordinates where the confidence is below the pcutoff and the
    input's coordinates elsewhere: the assemblies of the predictions are built
    from these arrays, and the result is the evaluator's answer on them and on
    the assemblies of the ground truth.  The store it leaves is the store it
    found, extended: every array of the predictions and of the ground truth is
    as it was. *)
Theorem compute_oks_masks_fresh_copies
        (FL : Float)
        (evaluate_assembly :
           dict (list Assembly) -> dict (list Assembly) -> F -> F ->
           option (list (nat * nat)) -> oks_scores)
        (pred ground_truth : dict ref) (oks_sigma margin : F)
        (symmetric_kpts : option (list (nat * nat))) (pcutoff : F)
        (h : heap) (pv gv : dict array3) :
  load h pred = Ok pv ->
  load h ground_truth = Ok gv ->
  NoDup (keys pred) ->
  (forall path kws, In (path, kws) pv -> three_columns kws) ->
  exists masked_pred ext res,
    mask_predictions_st pred (Some pcutoff) [] h = Ok (masked_pred, h ++ ext)
    /\ compute_oks_st evaluate_assembly pred ground_truth oks_sigma margin
                      symmetric_kpts (Some pcutoff) h
       = Ok (res, h ++ ext)
    /\ load (h ++ ext) masked_pred
       = Ok (map (fun item => (fst item,
                               map (map (masked_keypoint pcutoff)) (snd item)))
                 pv)
    /\ load (h ++ ext) pred = Ok pv
    /\ load (h ++ ext) ground_truth = Ok gv
    /\ build_assemblies_st masked_pred [] (h ++ ext)
       = Ok (build_assemblies
               (map (fun item => (fst item,
                                  map (map (masked_keypoint pcutoff)) (snd item)))
                    pv),
             h ++ ext)
    /\ res
       = evaluate_assembly
           (build_assemblies
              (map (fun item => (fst item,
                                 map (map (masked_keypoint pcutoff)) (snd item)))
                   pv))
           (build_assemblies gv) oks_sigma margin symmetric_kpts.
Proof.
  intros Hp Hg Hnd H3.
  assert (Hmask : mask_predictions pv (Some pcutoff) []
                  = Ok (map (fun item =>
                               (fst item,
                                map (map (masked_keypoint pcutoff)) (snd item)))
                            pv)).
  { rewrite (mask_predictions_fresh_keys pcutoff pv []); [reflexivity| |exact H3].
    simpl. rewrite (load_keys h pred pv Hp). exact Hnd. }
  assert (Hst := mask_predictions_st_spec (Some pcutoff) pred [] h pv [] Hp eq_refl).
  rewrite Hmask in Hst. destruct Hst as (masked & ext & Hm & Hl).
  exists masked, ext.
  assert (Hasm := build_assemblies_st_spec masked [] _ _ Hl).
  assert (Hgt := build_assemblies_st_spec ground_truth [] _ gv
                                          (load_ext h ext ground_truth gv Hg)).
  eexists.
  split; [exact Hm|]. split.
  { unfold compute_oks_st. unfold st_bind at 1. rewrite Hm.
    unfold st_bind at 1. rewrite Hasm.
    unfold st_bind at 1. rewrite Hgt.
    reflexivity. }
  split; [exact Hl|].
  split; [apply load_ext; exact Hp|].
  split; [apply load_ext; exact Hg|].
  split; [exact Hasm | reflexivity].
Qed.

(** ** Tensors *)

Section TensorFacts.

Lemma offset_lt sh : forall idx o, offset sh idx = Some o -> o < numel sh.
Proof.
  induction sh as [|d sh IH]; intros [|i idx] o H; simpl in H;
    try discriminate.
  - injection H as <-. simpl. lia.
  - destruct (Nat.ltb_spec i d) as [Hi|]; [|discriminate].
    destruct (offset sh idx) as [o'|] eqn:E; [|discriminate].
    injection H as <-. specialize (IH idx o' E). simpl. nia.
Qed.

Lemma unravel_offset sh :
  forall idx o, offset sh idx = Some o -> unravel_index sh o = idx.
Proof.
  induction sh as [|d sh IH]; intros [|i idx] o H; simpl in H;
    try discriminate.
  - reflexivity.
  - destruct (Nat.ltb_spec i d) as [Hi|]; [|discriminate].
    destruct (offset sh idx) as [o'|] eqn:E; [|discriminate].
    injection H as <-. assert (Ho := offset_lt sh idx o' E).
    cbn [unravel_index]. f_equal.
    + rewrite Nat.div_add_l by lia. rewrite Nat.div_small by lia. lia.
    + rewrite <- (IH idx o' E). f_equal.
      rewrite Nat.add_comm, Nat.Div0.mod_add. apply Nat.mod_small. lia.
Qed.

Lemma offset_unravel sh :
  forall o, o < numel sh -> offset sh (unravel_index sh o) = Some o.
Proof.
  induction sh as [|d sh IH]; intros o Ho; simpl in Ho.
  - simpl. f_equal. lia.
  - cbn [unravel_index offset].
    assert (Hn : 0 < numel sh) by nia.
    assert (Hq : o / numel sh < d) by (apply Nat.Div0.div_lt_upper_bound; lia).
    destruct (Nat.ltb_spec (o / numel sh) d) as [_|]; [|lia].
    rewrite IH by (apply Nat.mod_upper_bound; lia).
    simpl. f_equal.
    rewrite (Nat.div_mod_eq o (numel sh)) at 3. lia.
Qed.

Lemma nth_error_seq0 n o : o < n -> nth_error (seq 0 n) o = Some o.
Proof.
  intros H. rewrite nth_error_nth' with (d := 0) by (rewrite length_seq; lia).
  rewrite seq_nth by lia. reflexivity.
Qed.

Lemma tabulate_spec {A} sh (f : list nat -> result A) t :
  tabulate sh f = Ok t ->
  shape t = sh /\ well_formed t
  /\ forall idx o, offset sh idx = Some o ->
                   exists v, f idx = Ok v /\ tget t idx = Ok v.
Proof.
  unfold tabulate. intros H. apply bind_Ok_inv in H as (elems & He & H).
  injection H as <-. cbn [shape data]. split; [reflexivity|]. split.
  - unfold well_formed. cbn [shape data].
    rewrite (mapM_Ok_length _ _ _ He), length_seq. reflexivity.
  - intros idx o Ho. assert (Hlt := offset_lt sh idx o Ho).
    destruct (mapM_Ok_nth _ _ _ He o o (nth_error_seq0 _ _ Hlt)) as (v & Hv & Hf).
    rewrite (unravel_offset sh idx o Ho) in Hf.
    exists v. split; [exact Hf|].
    unfold tget. cbn [shape data]. rewrite Ho, Hv. reflexivity.
Qed.

Lemma tabulate_total {A} sh (f : list nat -> result A) :
  (forall idx o, offset sh idx = Some o -> exists v, f idx = Ok v) ->
  exists t, tabulate sh f = Ok t.
Proof.
  intros H. unfold tabulate.
  destruct (mapM_total (fun o => f (unravel_index sh o)) (seq 0 (numel sh)))
    as (elems & ->).
  - intros o Ho. apply in_seq in Ho.
    apply (H _ o). apply offset_unravel. lia.
  - simpl. eauto.
Qed.

Lemma tget_in_range {A} (t : tensor A) idx o :
  well_formed t -> offset (shape t) idx = Some o -> exists v, tget t idx = Ok v.
Proof.
  intros Hwf Ho. unfold tget. rewrite Ho.
  assert (Hlt := offset_lt _ _ _ Ho). rewrite <- Hwf in Hlt.
  destruct (nth_error (data t) o) as [v|] eqn:E; [eauto|].
  apply nth_error_None in E. lia.
Qed.

Lemma tget_tmap {A B} (f : A -> B) (t : tensor A) idx v :
  tget t idx = Ok v -> tget (tmap f t) idx = Ok (f v).
Proof.
  unfold tget, tmap. cbn [shape data].
  destruct (offset (shape t) idx) as [o|]; [|discriminate].
  rewrite nth_error_map.
  destruct (nth_error (data t) o); [|discriminate].
  intros H. injection H as <-. reflexivity.
Qed.

Lemma tget_Ok_offset {A} (t : tensor A) idx v :
  tget t idx = Ok v ->
  exists o, offset (shape t) idx = Some o /\ nth_error (data t) o = Some v.
Proof.
  unfold tget. destruct (offset (shape t) idx) as [o|]; [|discriminate].
  destruct (nth_error (data t) o) as [v'|] eqn:E; [|discriminate].
  intros H. injection H as <-. eauto.
Qed.

Lemma well_formed_tmap {A B} (f : A -> B) (t : tensor A) :
  well_formed t -> well_formed (tmap f t).
Proof. unfold well_formed, tmap. cbn [shape data]. rewrite length_map. auto. Qed.

(** Offsets at the ranks the predictor uses. *)
Lemma offset3 d0 d1 d2 i0 i1 i2 :
  i0 < d0 -> i1 < d1 -> i2 < d2 ->
  offset [d0; d1; d2] [i0; i1; i2] = Some ((i0 * d1 + i1) * d2 + i2).
Proof.
  intros H0 H1 H2. simpl.
  destruct (Nat.ltb_spec i0 d0); [|lia].
  destruct (Nat.ltb_spec i1 d1); [|lia].
  destruct (Nat.ltb_spec i2 d2); [|lia].
  simpl. f_equal. nia.
Qed.

Lemma offset4 d0 d1 d2 d3 i0 i1 i2 i3 :
  i0 < d0 -> i1 < d1 -> i2 < d2 -> i3 < d3 ->
  offset [d0; d1; d2; d3] [i0; i1; i2; i3]
  = Some (((i0 * d1 + i1) * d2 + i2) * d3 + i3).
Proof.
  intros H0 H1 H2 H3. simpl.
  destruct (Nat.ltb_spec i0 d0); [|lia].
  destruct (Nat.ltb_spec i1 d1); [|lia].
  destruct (Nat.ltb_spec i2 d2); [|lia].
  destruct (Nat.ltb_spec i3 d3); [|lia].
  simpl. f_equal. nia.
Qed.

Lemma offset5 d0 d1 d2 d3 d4 i0 i1 i2 i3 i4 :
  i0 < d0 -> i1 < d1 -> i2 < d2 -> i3 < d3 -> i4 < d4 ->
  offset [d0; d1; d2; d3; d4] [i0; i1; i2; i3; i4]
  = Some ((((i0 * d1 + i1) * d2 + i2) * d3 + i3) * d4 + i4).
Proof.
  intros H0 H1 H2 H3 H4. simpl.
  destruct (Nat.ltb_spec i0 d0); [|lia].
  destruct (Nat.ltb_spec i1 d1); [|lia].
  destruct (Nat.ltb_spec i2 d2); [|lia].
  destruct (Nat.ltb_spec i3 d3); [|lia].
  destruct (Nat.ltb_spec i4 d4); [|lia].
  simpl. f_equal. nia.
Qed.

Lemma offset3_inv d0 d1 d2 idx o :
  offset [d0; d1; d2] idx = Some o ->
  exists i0 i1 i2, idx = [i0; i1; i2] /\ i0 < d0 /\ i1 < d1 /\ i2 < d2.
Proof.
  destruct idx as [|i0 [|i1 [|i2 [|? ?]]]]; simpl; try discriminate;
    destruct (Nat.ltb_spec i0 d0); try discriminate;
    destruct (Nat.ltb_spec i1 d1); try discriminate;
    destruct (Nat.ltb_spec i2 d2); try discriminate.
  intros _. exists i0, i1, i2. auto.
Qed.

Lemma offset4_inv d0 d1 d2 d3 idx o :
  offset [d0; d1; d2; d3] idx = Some o ->
  exists i0 i1 i2 i3,
    idx = [i0; i1; i2; i3] /\ i0 < d0 /\ i1 < d1 /\ i2 < d2 /\ i3 < d3.
Proof.
  destruct idx as [|i0 [|i1 [|i2 [|i3 [|? ?]]]]]; simpl; try discriminate;
    destruct (Nat.ltb_spec i0 d0); try discriminate;
    destruct (Nat.ltb_spec i1 d1); try discriminate;
    destruct (Nat.ltb_spec i2 d2); try discriminate;
    destruct (Nat.ltb_spec i3 d3); try discriminate.
  intros _. exists i0, i1, i2, i3. auto.
Qed.

(** Reading a tensor through another shape: the row-major position decides. *)
Lemma tget_same_offset {A} (t t' : tensor A) idx idx' o :
  data t' = data t ->
  offset (shape t) idx = Some o -> offset (shape t') idx' = Some o ->
  tget t' idx' = tget t idx.
Proof.
  intros Hd Ho Ho'. unfold tget. rewrite Ho, Ho', Hd. reflexivity.
Qed.

Lemma reshape_Ok {A} (t t' : tensor A) sh :
  reshape t sh = Ok t' -> shape t' = sh /\ data t' = data t.
Proof.
  unfold reshape. destruct (numel sh =? length (data t)); [|discriminate].
  intros H. injection H as <-. auto.
Qed.

Lemma reshape_total {A} (t : tensor A) sh :
  well_formed t -> numel sh = numel (shape t) ->
  reshape t sh = Ok {| shape := sh; data := data t |}.
Proof.
  unfold reshape, well_formed. intros Hwf Hn.
  rewrite Hn, <- Hwf, Nat.eqb_refl. reflexivity.
Qed.

(** [permute(0, 2, 3, 1)] of a four-axis tensor. *)
Lemma permute_0231 {A} (t : tensor A) d0 d1 d2 d3 :
  well_formed t -> shape t = [d0; d1; d2; d3] ->
  exists t', permute t [0; 2; 3; 1] = Ok t'
             /\ shape t' = [d0; d2; d3; d1] /\ well_formed t'
             /\ forall a b c d, a < d0 -> b < d2 -> c < d3 -> d < d1 ->
                                tget t' [a; b; c; d] = tget t [a; d; b; c].
Proof.
  intros Hwf Hsh. unfold permute. rewrite Hsh.
  change (is_permutation [0; 2; 3; 1] (length [d0; d1; d2; d3])) with true.
  cbn [length map nth seq].
  destruct (tabulate_total [d0; d2; d3; d1]
              (fun idx => tget t (map (fun m => nth (index_of m [0; 2; 3; 1]) idx 0)
                                      [0; 1; 2; 3]))) as (t' & Ht').
  { intros idx o Ho.
    destruct (offset4_inv _ _ _ _ _ _ Ho) as (a & b & c & d & -> & Ha & Hb & Hc & Hd).
    apply (tget_in_range t _ (((a * d1 + d) * d2 + b) * d3 + c) Hwf).
    rewrite Hsh. apply offset4; assumption. }
  exists t'. split; [exact Ht'|].
  destruct (tabulate_spec _ _ _ Ht') as (Hs & Hw & Hget).
  split; [exact Hs|]. split; [exact Hw|].
  intros a b c d Ha Hb Hc Hd.
  destruct (Hget [a; b; c; d] _ (offset4 _ _ _ _ _ _ _ _ Ha Hb Hc Hd))
    as (v & Hv & Hv').
  rewrite Hv'. symmetry. exact Hv.
Qed.

End TensorFacts.

(** ** The reference top-k selection meets the contract *)

Lemma In_firstn_inv {A} (l : list A) k x : In x (firstn k l) -> In x l.
Proof.
  intros H. rewrite <- (firstn_skipn k l). apply in_or_app. left. exact H.
Qed.

Section TopKFacts.
Context {FL : Float} {LAWS : FloatLaws FL}.

Variable xs : list F.

Lemma insert_desc_perm i l : Permutation (insert_desc xs i l) (i :: l).
Proof.
  induction l as [|j l IH]; simpl; [reflexivity|].
  destruct (topk_geb _ _); [|reflexivity].
  rewrite IH. apply perm_swap.
Qed.

Lemma insert_desc_sorted i l :
  StronglySorted (ranks_above xs) l -> StronglySorted (ranks_above xs) (insert_desc xs i l).
Proof.
  induction 1 as [|j l Hl IH Hj]; simpl.
  - constructor; constructor.
  - destruct (topk_geb (nth j xs fnan) (nth i xs fnan)) eqn:E.
    + constructor; [exact IH|].
      apply (Permutation_Forall (Permutation_sym (insert_desc_perm i l))).
      constructor; assumption.
    + assert (Hij : (ranks_above xs) i j).
      { destruct (topk_geb_total (nth i xs fnan) (nth j xs fnan)) as [H|H];
          [exact H | congruence]. }
      constructor; [constructor; assumption|].
      constructor; [exact Hij|].
      eapply Forall_impl; [|exact Hj]. intros b Hb.
      eapply topk_geb_trans; eassumption.
Qed.

Lemma argsort_desc_perm : Permutation (argsort_desc xs) (seq 0 (length xs)).
Proof.
  unfold argsort_desc. induction (seq 0 (length xs)) as [|i l IH]; simpl.
  - reflexivity.
  - rewrite insert_desc_perm. constructor. exact IH.
Qed.

Lemma argsort_desc_sorted : StronglySorted (ranks_above xs) (argsort_desc xs).
Proof.
  unfold argsort_desc. induction (seq 0 (length xs)) as [|i l IH]; simpl.
  - constructor.
  - apply insert_desc_sorted, IH.
Qed.

Lemma sorted_app_cross (l1 l2 : list nat) :
  StronglySorted (ranks_above xs) (l1 ++ l2) ->
  forall a b, In a l1 -> In b l2 -> (ranks_above xs) a b.
Proof.
  induction l1 as [|x l1 IH]; simpl; intros H a b Ha Hb; [contradiction|].
  inversion H as [|? ? Hs Hf]; subst.
  destruct Ha as [<-|Ha].
  - rewrite Forall_forall in Hf. apply Hf. apply in_or_app. right. exact Hb.
  - eapply IH; eauto.
Qed.

Lemma sorted_nth (l : list nat) :
  StronglySorted (ranks_above xs) l ->
  forall r s a b, r < s -> nth_error l r = Some a -> nth_error l s = Some b ->
                  (ranks_above xs) a b.
Proof.
  induction 1 as [|x l Hl IH Hx]; intros r s a b Hrs Hr Hs.
  - destruct r; discriminate.
  - destruct s as [|s]; [lia|]. simpl in Hs.
    destruct r as [|r]; simpl in Hr.
    + injection Hr as <-. rewrite Forall_forall in Hx.
      apply Hx. eapply nth_error_In; eauto.
    + eapply IH; [|eassumption|eassumption]. lia.
Qed.

Lemma sorted_firstn k (l : list nat) :
  StronglySorted (ranks_above xs) l -> StronglySorted (ranks_above xs) (firstn k l).
Proof.
  intros H. revert k. induction H as [|x l Hl IH Hx]; intros [|k]; simpl;
    try constructor.
  - apply IH.
  - rewrite Forall_forall in *. intros b Hb. apply Hx.
    eapply In_firstn_inv; eauto.
Qed.

End TopKFacts.

Lemma topk_ref_contract (FL : Float) (LAWS : FloatLaws FL) : topk_contract topk_ref.
Proof.
  intros xs k Hk. unfold topk_ref.
  assert (Hperm := argsort_desc_perm xs).
  assert (Hsort := argsort_desc_sorted xs).
  assert (Hlen : length (argsort_desc xs) = length xs).
  { rewrite (Permutation_length Hperm), length_seq. reflexivity. }
  assert (Hnd : NoDup (argsort_desc xs)).
  { eapply Permutation_NoDup; [symmetry; exact Hperm | apply seq_NoDup]. }
  assert (Hrange : forall i, In i (argsort_desc xs) <-> i < length xs).
  { intros i. split; intros H.
    - apply (Permutation_in _ Hperm) in H. apply in_seq in H. lia.
    - apply (Permutation_in _ (Permutation_sym Hperm)). apply in_seq. lia. }
  assert (Hval : forall a va, nth_error xs a = Some va -> nth a xs fnan = va).
  { intros a va H. apply nth_error_nth. exact H. }
  split; [|split; [|split; [|split]]].
  - rewrite length_firstn, Hlen. lia.
  - rewrite <- (firstn_skipn k (argsort_desc xs)) in Hnd.
    eapply NoDup_app_remove_r; eauto.
  - intros i Hi. apply Hrange. eapply In_firstn_inv; eauto.
  - intros r s a b va vb Hrs Ha Hb Hva Hvb.
    rewrite <- (Hval a va Hva), <- (Hval b vb Hvb).
    destruct (Nat.eq_dec r s) as [->|Hne].
    + assert (a = b) by congruence. subst b.
      destruct (topk_geb_total (nth a xs fnan) (nth a xs fnan)); assumption.
    + eapply (sorted_nth xs _ (sorted_firstn xs k _ Hsort) r s); eauto. lia.
  - intros a b va vb Ha Hnb Hva Hvb.
    rewrite <- (Hval a va Hva), <- (Hval b vb Hvb).
    assert (Hb : In b (argsort_desc xs)).
    { apply Hrange. apply nth_error_Some. congruence. }
    rewrite <- (firstn_skipn k (argsort_desc xs)) in Hb, Hsort.
    apply in_app_or in Hb as [Hb|Hb]; [contradiction|].
    eapply (sorted_app_cross xs _ _ Hsort); eauto.
Qed.

(** ** [get_top_values] *)

Section TopValuesFacts.
Context {FL : Float}.
Variable topk : list F -> nat -> list nat.
Hypothesis topk_ok : topk_contract topk.

(** The column of a three-axis tensor along its middle axis. *)
Lemma column_spec (t : tensor F) b_ n_ j_ b j :
  well_formed t -> shape t = [b_; n_; j_] -> b < b_ -> j < j_ ->
  exists column,
    mapM (fun i => tget t [b; i; j]) (seq 0 n_) = Ok column
    /\ length column = n_
    /\ forall i, i < n_ ->
                 exists v, nth_error column i = Some v /\ tget t [b; i; j] = Ok v.
Proof.
  intros Hwf Hsh Hb Hj.
  destruct (mapM_total (fun i => tget t [b; i; j]) (seq 0 n_)) as (column & Hc).
  { intros i Hi. apply in_seq in Hi.
    apply (tget_in_range t _ ((b * n_ + i) * j_ + j) Hwf).
    rewrite Hsh. apply offset3; lia. }
  exists column. split; [exact Hc|].
  assert (Hlen : length column = n_)
    by (rewrite (mapM_Ok_length _ _ _ Hc), length_seq; reflexivity).
  split; [exact Hlen|]. intros i Hi.
  destruct (mapM_Ok_nth _ _ _ Hc i i (nth_error_seq0 _ _ Hi)) as (v & Hv & Hg).
  eauto.
Qed.

Lemma topk_dim1_spec (t : tensor F) b_ n_ j_ k :
  well_formed t -> shape t = [b_; n_; j_] -> k <= n_ ->
  exists top,
    topk_dim1 topk t k = Ok top
    /\ shape top = [b_; k; j_] /\ well_formed top
    /\ forall b j, b < b_ -> j < j_ ->
       exists column,
         length column = n_
         /\ (forall i, i < n_ ->
                       exists v, nth_error column i = Some v
                                 /\ tget t [b; i; j] = Ok v)
         /\ forall r, r < k ->
                      exists i, nth_error (topk column k) r = Some i
                                /\ tget top [b; r; j] = Ok i.
Proof.
  intros Hwf Hsh Hk. unfold topk_dim1. rewrite Hsh.
  destruct (Nat.leb_spec k n_) as [_|]; [|lia].
  match goal with
  | |- exists top, tabulate ?sh ?f = Ok top /\ _ =>
      destruct (tabulate_total sh f) as (top & Htop)
  end.
  { intros idx o Ho.
    destruct (offset3_inv _ _ _ _ _ Ho) as (b & r & j & -> & Hb & Hr & Hj).
    destruct (column_spec t b_ n_ j_ b j Hwf Hsh Hb Hj) as (column & -> & Hlen & _).
    cbn [bind].
    destruct (topk_ok column k) as (Hl & _); [lia|].
    destruct (nth_error (topk column k) r) as [i|] eqn:E; [eauto|].
    apply nth_error_None in E. lia. }
  exists top. split; [exact Htop|].
  destruct (tabulate_spec _ _ _ Htop) as (Hs & Hw & Hget).
  split; [exact Hs|]. split; [exact Hw|].
  intros b j Hb Hj.
  destruct (column_spec t b_ n_ j_ b j Hwf Hsh Hb Hj) as (column & Hc & Hlen & Hcol).
  exists column. split; [exact Hlen|]. split; [exact Hcol|].
  intros r Hr.
  destruct (Hget [b; r; j] _ (offset3 _ _ _ _ _ _ Hb Hr Hj)) as (i & Hi & Hti).
  rewrite Hc in Hi. cbn [bind] in Hi.
  destruct (nth_error (topk column k) r) as [i'|]; [|discriminate].
  injection Hi as ->. eauto.
Qed.

Lemma grid_of_flat h w i :
  i < h * w -> i / w < h /\ i mod w < w /\ i = (i / w) * w + i mod w.
Proof.
  intros Hi. assert (Hw : 0 < w) by nia.
  split; [apply Nat.Div0.div_lt_upper_bound; lia|].
  split; [apply Nat.mod_upper_bound; lia|].
  rewrite (Nat.div_mod_eq i w) at 1. lia.
Qed.

(** What [get_top_values] returns, slice by slice: the scores of the slice
    in the order of the flattened grid, and the positions [topk] selects in
    them, each split into its row and its column. *)
Lemma get_top_values_spec (heatmap : tensor F) b_ h_ w_ j_ n_top :
  well_formed heatmap -> shape heatmap = [b_; h_; w_; j_] -> n_top <= h_ * w_ ->
  exists y x,
    get_top_values topk heatmap n_top = Ok (y, x)
    /\ shape y = [b_; n_top; j_] /\ shape x = [b_; n_top; j_]
    /\ well_formed y /\ well_formed x
    /\ forall b j, b < b_ -> j < j_ ->
       exists scores,
         length scores = h_ * w_
         /\ (forall i, i < h_ * w_ ->
                       exists v, nth_error scores i = Some v
                                 /\ tget heatmap [b; i / w_; i mod w_; j] = Ok v)
         /\ forall r, r < n_top ->
                      exists i, nth_error (topk scores n_top) r = Some i
                                /\ i < h_ * w_
                                /\ tget y [b; r; j] = Ok (i / w_)
                                /\ tget x [b; r; j] = Ok (i mod w_).
Proof.
  intros Hwf Hsh Hn. unfold get_top_values. rewrite Hsh.
  rewrite (reshape_total heatmap [b_; w_ * h_; j_] Hwf)
    by (rewrite Hsh; simpl; nia).
  cbn [bind].
  set (flat := {| shape := [b_; w_ * h_; j_]; data := data heatmap |}).
  assert (Hwf' : well_formed flat).
  { unfold well_formed, flat. cbn [shape data]. rewrite Hwf, Hsh. simpl. nia. }
  destruct (topk_dim1_spec flat b_ (w_ * h_) j_ n_top Hwf' eq_refl)
    as (top & -> & Hs & Hw & Htop); [lia|].
  cbn [bind]. do 2 eexists. split; [reflexivity|].
  split; [exact Hs|]. split; [exact Hs|].
  split; [apply well_formed_tmap, Hw|]. split; [apply well_formed_tmap, Hw|].
  intros b j Hb Hj.
  destruct (Htop b j Hb Hj) as (scores & Hlen & Hcol & Hsel).
  exists scores. split; [lia|]. split.
  - intros i Hi. destruct (Hcol i) as (v & Hv & Hg); [lia|].
    exists v. split; [exact Hv|]. rewrite <- Hg. symmetry.
    destruct (grid_of_flat h_ w_ i Hi) as (Hy & Hx & Hyx).
    apply (tget_same_offset heatmap flat [b; i / w_; i mod w_; j] [b; i; j]
                            ((b * (w_ * h_) + i) * j_ + j)); [reflexivity| |].
    + rewrite Hsh, (offset4 _ _ _ _ _ _ _ _ Hb Hy Hx Hj). f_equal. nia.
    + unfold flat. cbn [shape]. apply offset3; lia.
  - intros r Hr. destruct (Hsel r Hr) as (i & Hi & Hti).
    exists i. split; [exact Hi|].
    destruct (topk_ok scores n_top) as (_ & _ & Hrange & _); [lia|].
    assert (Hin : i < length scores)
      by (apply Hrange; eapply nth_error_In; eauto).
    split; [lia|].
    split.
    + apply (tget_tmap (fun i => i / w_)). exact Hti.
    + apply (tget_tmap (fun i => i mod w_)). exact Hti.
Qed.

End TopValuesFacts.

(** C2.  For a confidence map of shape (B, H, W, J) and [n_top <= H*W],
    [get_top_values] returns, for each (batch, joint) slice on its own, the
    grid positions of [n_top] distinct flattened positions selected by top-k
    from the slice's scores: row [y = i // W] and column [x = i % W], hence
    [0 <= y < H] and [0 <= x < W]; the scores at the returned positions do not
    increase with the rank, and no position left out scores above a returned
    one. *)
Theorem get_top_values_selects_top_k_of_each_slice
        (FL : Float) (topk : list F -> nat -> list nat)
        (topk_ok : topk_contract topk)
        (heatmap : tensor F) (b_ h_ w_ j_ n_top : nat) :
  well_formed heatmap -> shape heatmap = [b_; h_; w_; j_] -> n_top <= h_ * w_ ->
  exists y x,
    get_top_values topk heatmap n_top = Ok (y, x)
    /\ shape y = [b_; n_top; j_] /\ shape x = [b_; n_top; j_]
    /\ forall b j, b < b_ -> j < j_ ->
       exists scores flat,
         length scores = h_ * w_
         /\ (forall gy gx, gy < h_ -> gx < w_ ->
               exists v, nth_error scores (gy * w_ + gx) = Some v
                         /\ tget heatmap [b; gy; gx; j] = Ok v)
         /\ flat = topk scores n_top
         /\ length flat = n_top /\ NoDup flat
         /\ (forall r, r < n_top ->
               exists i, nth_error flat r = Some i
                         /\ tget y [b; r; j] = Ok (i / w_)
                         /\ tget x [b; r; j] = Ok (i mod w_)
                         /\ i / w_ < h_ /\ i mod w_ < w_)
         /\ (forall r s yr xr ys xs vr vs,
               r <= s -> s < n_top ->
               tget y [b; r; j] = Ok yr -> tget x [b; r; j] = Ok xr ->
               tget y [b; s; j] = Ok ys -> tget x [b; s; j] = Ok xs ->
               tget heatmap [b; yr; xr; j] = Ok vr ->
               tget heatmap [b; ys; xs; j] = Ok vs ->
               topk_geb vr vs = true)
         /\ (forall r yr xr vr gy gx v,
               r < n_top ->
               tget y [b; r; j] = Ok yr -> tget x [b; r; j] = Ok xr ->
               tget heatmap [b; yr; xr; j] = Ok vr ->
               gy < h_ -> gx < w_ -> ~ In (gy * w_ + gx) flat ->
               tget heatmap [b; gy; gx; j] = Ok v ->
               topk_geb vr v = true).
Proof.
  intros Hwf Hsh Hn.
  destruct (get_top_values_spec topk topk_ok heatmap b_ h_ w_ j_ n_top Hwf Hsh Hn)
    as (y & x & Htv & Hsy & Hsx & _ & _ & Hsl).
  exists y, x. split; [exact Htv|]. split; [exact Hsy|]. split; [exact Hsx|].
  intros b j Hb Hj.
  destruct (Hsl b j Hb Hj) as (scores & Hlen & Hsc & Hsel).
  destruct (topk_ok scores n_top) as (Hl & Hnd & Hrange & Hsorted & Htop); [lia|].
  (* a selected rank, its flat position and its score *)
  assert (Hrank : forall r yr xr vr,
             r < n_top -> tget y [b; r; j] = Ok yr -> tget x [b; r; j] = Ok xr ->
             tget heatmap [b; yr; xr; j] = Ok vr ->
             exists i, nth_error (topk scores n_top) r = Some i
                       /\ nth_error scores i = Some vr).
  { intros r yr xr vr Hr Hy Hx Hv.
    destruct (Hsel r Hr) as (i & Hi & Hilt & Hyi & Hxi).
    exists i. split; [exact Hi|].
    destruct (Hsc i Hilt) as (v & Hvi & Hg).
    assert (yr = i / w_) by congruence. assert (xr = i mod w_) by congruence.
    subst yr xr. congruence. }
  assert (Hgrid : forall gy gx, gy < h_ -> gx < w_ ->
             exists v, nth_error scores (gy * w_ + gx) = Some v
                       /\ tget heatmap [b; gy; gx; j] = Ok v).
  { intros gy gx Hgy Hgx.
    destruct (Hsc (gy * w_ + gx)) as (v & Hv & Hg); [nia|].
    exists v. split; [exact Hv|].
    rewrite Nat.div_add_l, Nat.div_small, Nat.add_0_r in Hg by lia.
    rewrite Nat.add_comm, Nat.Div0.mod_add, Nat.mod_small in Hg by lia.
    exact Hg. }
  exists scores, (topk scores n_top).
  split; [exact Hlen|]. split; [exact Hgrid|]. split; [reflexivity|].
  split; [exact Hl|]. split; [exact Hnd|]. split; [|split].
  - intros r Hr. destruct (Hsel r Hr) as (i & Hi & Hilt & Hyi & Hxi).
    exists i. destruct (grid_of_flat h_ w_ i Hilt) as (Hy & Hx & _). auto.
  - intros r s yr xr ys xs vr vs Hrs Hs Hyr Hxr Hys Hxs Hvr Hvs.
    destruct (Hrank r yr xr vr ltac:(lia) Hyr Hxr Hvr) as (a & Ha & Hva).
    destruct (Hrank s ys xs vs Hs Hys Hxs Hvs) as (c & Hc & Hvc).
    exact (Hsorted r s a c vr vs Hrs Ha Hc Hva Hvc).
  - intros r yr xr vr gy gx v Hr Hyr Hxr Hvr Hgy Hgx Hout Hv.
    destruct (Hrank r yr xr vr Hr Hyr Hxr Hvr) as (a & Ha & Hva).
    destruct (Hgrid gy gx Hgy Hgx) as (v' & Hv' & Hg').
    assert (v' = v) by congruence. subst v'.
    exact (Htop a (gy * w_ + gx) vr v (nth_error_In _ _ Ha) Hout Hva Hv').
Qed.

(** ** [get_pose_prediction] *)

Section PosePredictionFacts.
Context {FL : Float}.
Variable topk : list F -> nat -> list nat.
Hypothesis topk_ok : topk_contract topk.

Lemma get_pose_prediction_spec (heatmap : tensor F) (locref : option (tensor F))
      (sy sx : F) (b_ h_ w_ j_ n : nat) :
  well_formed heatmap -> shape heatmap = [b_; h_; w_; j_] -> n <= h_ * w_ ->
  locref_fits b_ h_ w_ j_ locref ->
  exists y x pose,
    get_top_values topk heatmap n = Ok (y, x)
    /\ get_pose_prediction topk heatmap locref (sy, sx) n = Ok pose
    /\ shape pose = [b_; n; j_; 3] /\ well_formed pose
    /\ forall b r j, b < b_ -> r < n -> j < j_ ->
       exists gy gx score off_x off_y,
         tget y [b; r; j] = Ok gy /\ tget x [b; r; j] = Ok gx
         /\ gy < h_ /\ gx < w_
         /\ tget heatmap [b; gy; gx; j] = Ok score
         /\ offset_at locref b gy gx j 0 = Ok off_x
         /\ offset_at locref b gy gx j 1 = Ok off_y
         /\ tget pose [b; r; j; 0]
            = Ok (fadd (fadd (fmul (of_int (Z.of_nat gx)) sx) (fmul half sx)) off_x)
         /\ tget pose [b; r; j; 1]
            = Ok (fadd (fadd (fmul (of_int (Z.of_nat gy)) sy) (fmul half sy)) off_y)
         /\ tget pose [b; r; j; 2] = Ok score.
Proof.
  intros Hwf Hsh Hn Hlr.
  destruct (get_top_values_spec topk topk_ok heatmap b_ h_ w_ j_ n Hwf Hsh Hn)
    as (y & x & Htv & Hsy & Hsx & Hwy & Hwx & Hsl).
  exists y, x.
  (* every candidate is a grid position with a score and two offsets *)
  assert (Hcand : forall b r j, b < b_ -> r < n -> j < j_ ->
             exists gy gx score off_x off_y,
               tget y [b; r; j] = Ok gy /\ tget x [b; r; j] = Ok gx
               /\ gy < h_ /\ gx < w_
               /\ tget heatmap [b; gy; gx; j] = Ok score
               /\ offset_at locref b gy gx j 0 = Ok off_x
               /\ offset_at locref b gy gx j 1 = Ok off_y).
  { intros b r j Hb Hr Hj.
    destruct (Hsl b j Hb Hj) as (scores & _ & Hsc & Hsel).
    destruct (Hsel r Hr) as (i & _ & Hilt & Hyi & Hxi).
    destruct (Hsc i Hilt) as (score & _ & Hscore).
    destruct (grid_of_flat h_ w_ i Hilt) as (Hgy & Hgx & _).
    assert (Hoff : forall c, c < 2 ->
               exists v, offset_at locref b (i / w_) (i mod w_) j c = Ok v).
    { intros c Hc. destruct locref as [lr|]; simpl; [|eauto].
      destruct Hlr as [Hwl Hsl'].
      eapply (tget_in_range lr); [exact Hwl|].
      rewrite Hsl'. apply offset5; assumption. }
    destruct (Hoff 0) as (off_x & Hox); [lia|].
    destruct (Hoff 1) as (off_y & Hoy); [lia|].
    exists (i / w_), (i mod w_), score, off_x, off_y. auto 10. }
  unfold get_pose_prediction. rewrite Htv. cbn [bind]. rewrite Hsh.
  (* dz *)
  match goal with
  | |- context [bind (tabulate [b_; n; j_; 3] ?f) _] =>
      assert (Hdzf : forall b r j c, b < b_ -> r < n -> j < j_ -> c < 3 ->
                 forall gy gx,
                   tget y [b; r; j] = Ok gy -> tget x [b; r; j] = Ok gx ->
                   f [b; r; j; c]
                   = if c =? 2 then tget heatmap [b; gy; gx; j]
                     else offset_at locref b gy gx j c);
      [|destruct (tabulate_total [b_; n; j_; 3] f) as (dz & Hdz)]
  end.
  { intros b r j c Hb Hr Hj Hc gy gx Hy Hx. rewrite Hy, Hx. cbn [bind].
    destruct (c =? 2); [reflexivity|].
    destruct locref as [lr|]; [|reflexivity].
    destruct Hlr as [_ Hsl']. rewrite Hsl'. reflexivity. }
  { intros idx o Ho.
    destruct (offset4_inv _ _ _ _ _ _ Ho) as (b & r & j & c & -> & Hb & Hr & Hj & Hc).
    destruct (Hcand b r j Hb Hr Hj)
      as (gy & gx & score & off_x & off_y & Hy & Hx & _ & _ & Hs & Hox & Hoy).
    rewrite (Hdzf b r j c Hb Hr Hj Hc gy gx Hy Hx).
    destruct c as [|[|[|c]]]; simpl; eauto. lia. }
  rewrite Hdz. cbn [bind].
  destruct (tabulate_spec _ _ _ Hdz) as (Hsdz & Hwdz & Hgdz).
  assert (Hdzv : forall b r j c, b < b_ -> r < n -> j < j_ -> c < 3 ->
             forall gy gx,
               tget y [b; r; j] = Ok gy -> tget x [b; r; j] = Ok gx ->
               tget dz [b; r; j; c]
               = if c =? 2 then tget heatmap [b; gy; gx; j]
                 else offset_at locref b gy gx j c).
  { intros b r j c Hb Hr Hj Hc gy gx Hy Hx.
    destruct (Hgdz [b; r; j; c] _ (offset4 _ _ _ _ _ _ _ _ Hb Hr Hj Hc))
      as (v & Hv & Hv').
    rewrite Hv', <- Hv. apply Hdzf; assumption. }
  clear Hdz Hgdz Hdzf.
  (* x *)
  match goal with
  | |- context [bind (tabulate [b_; n; j_] ?f) _] =>
      destruct (tabulate_total [b_; n; j_] f) as (px & Hpx)
  end.
  { intros idx o Ho.
    destruct (offset3_inv _ _ _ _ _ Ho) as (b & r & j & -> & Hb & Hr & Hj).
    destruct (Hcand b r j Hb Hr Hj)
      as (gy & gx & score & off_x & off_y & Hy & Hx & _ & _ & Hs & Hox & Hoy).
    rewrite Hx. cbn [bind app].
    rewrite (Hdzv b r j 0 Hb Hr Hj (Nat.lt_0_succ 2) gy gx Hy Hx).
    cbn [Nat.eqb]. rewrite Hox. cbn [bind]. eauto. }
  rewrite Hpx. cbn [bind].
  destruct (tabulate_spec _ _ _ Hpx) as (Hspx & Hwpx & Hgpx).
  (* y *)
  match goal with
  | |- context [bind (tabulate [b_; n; j_] ?f) _] =>
      destruct (tabulate_total [b_; n; j_] f) as (py & Hpy)
  end.
  { intros idx o Ho.
    destruct (offset3_inv _ _ _ _ _ Ho) as (b & r & j & -> & Hb & Hr & Hj).
    destruct (Hcand b r j Hb Hr Hj)
      as (gy & gx & score & off_x & off_y & Hy & Hx & _ & _ & Hs & Hox & Hoy).
    rewrite Hy. cbn [bind app].
    rewrite (Hdzv b r j 1 Hb Hr Hj ltac:(lia) gy gx Hy Hx).
    cbn [Nat.eqb]. rewrite Hoy. cbn [bind]. eauto. }
  rewrite Hpy. cbn [bind].
  destruct (tabulate_spec _ _ _ Hpy) as (Hspy & Hwpy & Hgpy).
  (* pose *)
  match goal with
  | |- context [tabulate [b_; n; j_; 3] ?f] =>
      destruct (tabulate_total [b_; n; j_; 3] f) as (pose & Hpose)
  end.
  { intros idx o Ho.
    destruct (offset4_inv _ _ _ _ _ _ Ho) as (b & r & j & c & -> & Hb & Hr & Hj & Hc).
    destruct (Hcand b r j Hb Hr Hj)
      as (gy & gx & score & off_x & off_y & Hy & Hx & _ & _ & Hs & Hox & Hoy).
    destruct c as [|[|c]]; cbn [Nat.eqb].
    - eapply tget_in_range; [exact Hwpx|]. rewrite Hspx. apply offset3; assumption.
    - eapply tget_in_range; [exact Hwpy|]. rewrite Hspy. apply offset3; assumption.
    - eapply tget_in_range; [exact Hwdz|]. rewrite Hsdz. apply offset4; lia. }
  exists pose. split; [reflexivity|]. split; [exact Hpose|].
  destruct (tabulate_spec _ _ _ Hpose) as (Hsp & Hwp & Hgp).
  split; [exact Hsp|]. split; [exact Hwp|].
  intros b r j Hb Hr Hj.
  destruct (Hcand b r j Hb Hr Hj)
    as (gy & gx & score & off_x & off_y & Hy & Hx & Hgy & Hgx & Hs & Hox & Hoy).
  exists gy, gx, score, off_x, off_y.
  repeat (split; [assumption|]).
  assert (Hz0 := Hdzv b r j 0 Hb Hr Hj ltac:(lia) gy gx Hy Hx).
  assert (Hz1 := Hdzv b r j 1 Hb Hr Hj ltac:(lia) gy gx Hy Hx).
  assert (Hz2 := Hdzv b r j 2 Hb Hr Hj ltac:(lia) gy gx Hy Hx).
  cbn [Nat.eqb] in Hz0, Hz1, Hz2.
  destruct (Hgpx [b; r; j] _ (offset3 _ _ _ _ _ _ Hb Hr Hj)) as (vx & Hvx & Htx).
  rewrite Hx in Hvx. cbn [bind app] in Hvx. rewrite Hz0, Hox in Hvx.
  cbn [bind fst snd] in Hvx.
  destruct (Hgpy [b; r; j] _ (offset3 _ _ _ _ _ _ Hb Hr Hj)) as (vy & Hvy & Hty).
  rewrite Hy in Hvy. cbn [bind app] in Hvy. rewrite Hz1, Hoy in Hvy.
  cbn [bind fst snd] in Hvy.
  split; [|split].
  - destruct (Hgp [b; r; j; 0] _ (offset4 b_ n j_ 3 b r j 0 Hb Hr Hj ltac:(lia)))
      as (v & Hv & Hv').
    cbn [Nat.eqb] in Hv. congruence.
  - destruct (Hgp [b; r; j; 1] _ (offset4 b_ n j_ 3 b r j 1 Hb Hr Hj ltac:(lia)))
      as (v & Hv & Hv').
    cbn [Nat.eqb] in Hv. congruence.
  - destruct (Hgp [b; r; j; 2] _ (offset4 b_ n j_ 3 b r j 2 Hb Hr Hj ltac:(lia)))
      as (v & Hv & Hv').
    cbn [Nat.eqb] in Hv. congruence.
Qed.

End PosePredictionFacts.

(** ** [forward] *)

Section ForwardFacts.
Context {FL : Float}.
Variable topk : list F -> nat -> list nat.
Hypothesis topk_ok : topk_contract topk.
Variable sigmoid : F -> F.

(** The refinement field as [forward] prepares it: channel [2j + c] of the
    model output becomes component [c] of joint [j], times [locref_std]. *)
Lemma locref_prepared (locref : tensor F) (std : F) b_ j_ h_ w_ :
  well_formed locref -> shape locref = [b_; 2 * j_; h_; w_] ->
  exists permuted,
    permute locref [0; 2; 3; 1] = Ok permuted
    /\ reshape permuted [b_; h_; w_; j_; 2]
       = Ok {| shape := [b_; h_; w_; j_; 2]; data := data permuted |}
    /\ locref_fits b_ h_ w_ j_
         (Some (tmap (fun v => fmul v std)
                     {| shape := [b_; h_; w_; j_; 2]; data := data permuted |}))
    /\ forall b gy gx j c v,
         b < b_ -> gy < h_ -> gx < w_ -> j < j_ -> c < 2 ->
         tget locref [b; 2 * j + c; gy; gx] = Ok v ->
         tget (tmap (fun v => fmul v std)
                    {| shape := [b_; h_; w_; j_; 2]; data := data permuted |})
              [b; gy; gx; j; c]
         = Ok (fmul v std).
Proof.
  intros Hwf Hsh.
  destruct (permute_0231 locref b_ (2 * j_) h_ w_ Hwf Hsh)
    as (permuted & Hp & Hps & Hpw & Hpg).
  exists permuted. split; [exact Hp|].
  assert (Hnum : numel [b_; h_; w_; j_; 2] = numel (shape permuted))
    by (rewrite Hps; simpl; nia).
  split; [apply reshape_total; assumption|].
  split.
  - simpl. split; [|reflexivity].
    apply well_formed_tmap. unfold well_formed. cbn [shape data].
    rewrite Hpw. symmetry. exact Hnum.
  - intros b gy gx j c v Hb Hgy Hgx Hj Hc Hv.
    apply (tget_tmap (fun u => fmul u std)).
    rewrite <- Hv, <- (Hpg b gy gx (2 * j + c)) by (assumption || nia).
    apply (tget_same_offset permuted _ [b; gy; gx; 2 * j + c] [b; gy; gx; j; c]
                            ((((b * h_ + gy) * w_ + gx) * j_ + j) * 2 + c));
      [reflexivity| |].
    + rewrite Hps, offset4 by (assumption || nia). f_equal. nia.
    + cbn [shape]. apply offset5; assumption.
Qed.

Lemma forward_spec (self : HeatmapPredictor) (stride : F)
      (outputs : dict (tensor F)) (heatmap : tensor F) (n b_ j_ h_ w_ : nat) :
  dict_get outputs "heatmap" = Ok heatmap ->
  well_formed heatmap -> shape heatmap = [b_; j_; h_; w_] -> n <= h_ * w_ ->
  (location_refinement self = true ->
   exists locref, dict_get outputs "locref" = Ok locref
                  /\ well_formed locref /\ shape locref = [b_; 2 * j_; h_; w_]) ->
  exists poses,
    forward topk sigmoid self stride outputs n = Ok [("poses", poses)]
    /\ shape poses = [b_; n; j_; 3]
    /\ forall b r j, b < b_ -> r < n -> j < j_ ->
       exists gy gx raw off_x off_y,
         gy < h_ /\ gx < w_
         /\ tget heatmap [b; j; gy; gx] = Ok raw
         /\ tget poses [b; r; j; 2] = Ok (reported_score sigmoid self raw)
         /\ (if location_refinement self then
               exists locref lx ly,
                 dict_get outputs "locref" = Ok locref
                 /\ tget locref [b; 2 * j; gy; gx] = Ok lx
                 /\ tget locref [b; 2 * j + 1; gy; gx] = Ok ly
                 /\ off_x = fmul lx (locref_std self)
                 /\ off_y = fmul ly (locref_std self)
             else off_x = of_int 0 /\ off_y = of_int 0)
         /\ tget poses [b; r; j; 0] = Ok (image_coordinate gx stride off_x)
         /\ tget poses [b; r; j; 1] = Ok (image_coordinate gy stride off_y).
Proof.
  intros Hget Hwf Hsh Hn Hlr.
  remember (forward topk sigmoid self stride outputs n) as res eqn:Hres.
  unfold forward in Hres. rewrite Hget in Hres. cbn [bind] in Hres.
  (* the activation *)
  set (activated := if apply_sigmoid self then tmap sigmoid heatmap else heatmap)
    in Hres.
  assert (Hact : well_formed activated /\ shape activated = [b_; j_; h_; w_]
                 /\ forall idx v, tget heatmap idx = Ok v ->
                      tget activated idx
                      = Ok (if apply_sigmoid self then sigmoid v else v)).
  { unfold activated. destruct (apply_sigmoid self).
    - split; [apply well_formed_tmap, Hwf|]. split; [exact Hsh|].
      intros idx v. apply tget_tmap.
    - auto. }
  destruct Hact as (Hwa & Hsa & Hga).
  destruct (permute_0231 activated b_ j_ h_ w_ Hwa Hsa)
    as (permuted & Hp & Hps & Hpw & Hpg).
  rewrite Hp in Hres. cbn [bind] in Hres. rewrite Hps in Hres.
  (* the refinement field *)
  assert (Hloc : exists locrefs,
             (if location_refinement self then
                locrefs <- dict_get outputs "locref" ;;
                locrefs <- permute locrefs [0; 2; 3; 1] ;;
                locrefs <- reshape locrefs [b_; h_; w_; j_; 2] ;;
                Ok (Some (tmap (fun v => fmul v (locref_std self)) locrefs))
              else Ok None) = Ok locrefs
             /\ locref_fits b_ h_ w_ j_ locrefs
             /\ forall b gy gx j, b < b_ -> gy < h_ -> gx < w_ -> j < j_ ->
                forall off_x off_y,
                  offset_at locrefs b gy gx j 0 = Ok off_x ->
                  offset_at locrefs b gy gx j 1 = Ok off_y ->
                  if location_refinement self then
                    exists locref lx ly,
                      dict_get outputs "locref" = Ok locref
                      /\ tget locref [b; 2 * j; gy; gx] = Ok lx
                      /\ tget locref [b; 2 * j + 1; gy; gx] = Ok ly
                      /\ off_x = fmul lx (locref_std self)
                      /\ off_y = fmul ly (locref_std self)
                  else off_x = of_int 0 /\ off_y = of_int 0).
  { destruct (location_refinement self).
    - destruct (Hlr eq_refl) as (locref & Hgl & Hwl & Hsl).
      destruct (locref_prepared locref (locref_std self) b_ j_ h_ w_ Hwl Hsl)
        as (lp & Hlp & Hrs & Hfit & Hval).
      eexists. rewrite Hgl. cbn [bind]. rewrite Hlp. cbn [bind].
      rewrite Hrs. cbn [bind]. split; [reflexivity|]. split; [exact Hfit|].
      intros b gy gx j Hb Hgy Hgx Hj off_x off_y Hox Hoy.
      destruct (tget_in_range locref [b; 2 * j + 0; gy; gx]
                              (((b * (2 * j_) + (2 * j + 0)) * h_ + gy) * w_ + gx)
                              Hwl) as (lx & Hlx).
      { rewrite Hsl. apply offset4; (assumption || nia). }
      destruct (tget_in_range locref [b; 2 * j + 1; gy; gx]
                              (((b * (2 * j_) + (2 * j + 1)) * h_ + gy) * w_ + gx)
                              Hwl) as (ly & Hly).
      { rewrite Hsl. apply offset4; (assumption || nia). }
      exists locref, lx, ly. split; [reflexivity|].
      cbn [offset_at] in Hox, Hoy.
      rewrite (Hval b gy gx j 0 lx Hb Hgy Hgx Hj ltac:(lia) Hlx) in Hox.
      rewrite (Hval b gy gx j 1 ly Hb Hgy Hgx Hj ltac:(lia) Hly) in Hoy.
      rewrite Nat.add_0_r in Hlx.
      repeat split; congruence.
    - exists None. split; [reflexivity|]. split; [exact I|].
      intros b gy gx j _ _ _ _ off_x off_y Hox Hoy.
      simpl in Hox, Hoy. split; congruence. }
  destruct Hloc as (locrefs & Hlocrefs & Hfit & Hoffs).
  rewrite Hlocrefs in Hres. cbn [bind] in Hres.
  (* the decoding *)
  destruct (get_pose_prediction_spec topk topk_ok permuted locrefs stride stride
                                     b_ h_ w_ j_ n Hpw Hps Hn Hfit)
    as (y & x & pose & _ & Hpose & Hshp & Hwp & Hcand).
  rewrite Hpose in Hres. cbn [bind] in Hres.
  (* the clipping *)
  assert (Hclip : exists poses,
             (if clip_scores self then
                tabulate (shape pose)
                  (fun idx =>
                     v <- tget pose idx ;;
                     Ok (if nth 3 idx 0 =? 2 then clip01 v else v))
              else Ok pose) = Ok poses
             /\ shape poses = [b_; n; j_; 3]
             /\ forall b r j c v, b < b_ -> r < n -> j < j_ -> c < 3 ->
                  tget pose [b; r; j; c] = Ok v ->
                  tget poses [b; r; j; c]
                  = Ok (if clip_scores self
                        then if c =? 2 then clip01 v else v
                        else v)).
  { destruct (clip_scores self); [|eauto].
    rewrite Hshp.
    match goal with
    | |- exists poses, tabulate ?sh ?f = Ok poses /\ _ =>
        destruct (tabulate_total sh f) as (poses & Hposes)
    end.
    { intros idx o Ho.
      destruct (tget_in_range pose idx o Hwp) as (v & ->);
        [rewrite Hshp; exact Ho|].
      cbn [bind]. eauto. }
    exists poses. split; [exact Hposes|].
    destruct (tabulate_spec _ _ _ Hposes) as (Hs & _ & Hg).
    split; [exact Hs|].
    intros b r j c v Hb Hr Hj Hc Hv.
    destruct (Hg [b; r; j; c] _ (offset4 b_ n j_ 3 b r j c Hb Hr Hj Hc))
      as (v' & Hv' & Ht).
    rewrite Hv in Hv'. cbn [bind nth] in Hv'. congruence. }
  destruct Hclip as (poses & Hposes & Hshape & Hvals).
  rewrite Hposes in Hres. cbn [bind] in Hres.
  exists poses. split; [exact Hres|]. split; [exact Hshape|].
  intros b r j Hb Hr Hj.
  destruct (Hcand b r j Hb Hr Hj)
    as (gy & gx & score & off_x & off_y & _ & _ & Hgy & Hgx & Hs & Hox & Hoy
        & Hp0 & Hp1 & Hp2).
  destruct (tget_in_range heatmap [b; j; gy; gx]
                          (((b * j_ + j) * h_ + gy) * w_ + gx) Hwf)
    as (raw & Hraw).
  { rewrite Hsh. apply offset4; assumption. }
  exists gy, gx, raw, off_x, off_y.
  split; [exact Hgy|]. split; [exact Hgx|]. split; [exact Hraw|].
  rewrite (Hpg b gy gx j Hb Hgy Hgx Hj), (Hga _ _ Hraw) in Hs.
  injection Hs as <-.
  split; [|split; [|split]].
  - rewrite (Hvals b r j 2 _ Hb Hr Hj ltac:(lia) Hp2).
    unfold reported_score. cbn [Nat.eqb]. reflexivity.
  - apply (Hoffs b gy gx j Hb Hgy Hgx Hj off_x off_y Hox Hoy).
  - rewrite (Hvals b r j 0 _ Hb Hr Hj ltac:(lia) Hp0).
    cbn [Nat.eqb]. destruct (clip_scores self); reflexivity.
  - rewrite (Hvals b r j 1 _ Hb Hr Hj ltac:(lia) Hp1).
    cbn [Nat.eqb]. destruct (clip_scores self); reflexivity.
Qed.

End ForwardFacts.

(** * The predictor: main statements *)

(** C1.  For a heatmap of shape (B, H, W, J), a refinement field that is
    absent or of shape (B, H, W, J, 2), scale factors (strideY, strideX) and a
    candidate count within H*W, [get_pose_prediction] returns a pose tensor of
    shape (B, n, J, 3) in which every candidate has
    [x = grid_x*strideX + 0.5*strideX + offset_x],
    [y = grid_y*strideY + 0.5*strideY + offset_y] and, at index 2, the heatmap
    value at its grid index, where (grid_y, grid_x) is the candidate's top-k
    index and the offset is the refinement vector there, or (0, 0) without a
    refinement field.  [locref_std] is 7.2801 unless given at construction,
    and [forward] multiplies the refinement field by it before decoding. *)
Theorem get_pose_prediction_coordinates
        (FL : Float) (topk : list F -> nat -> list nat)
        (topk_ok : topk_contract topk) (sigmoid : F -> F) :
  (forall (heatmap : tensor F) (locref : option (tensor F)) (sy sx : F)
          (b_ h_ w_ j_ n : nat),
      well_formed heatmap -> shape heatmap = [b_; h_; w_; j_] -> n <= h_ * w_ ->
      locref_fits b_ h_ w_ j_ locref ->
      exists y x pose,
        get_top_values topk heatmap n = Ok (y, x)
        /\ get_pose_prediction topk heatmap locref (sy, sx) n = Ok pose
        /\ shape pose = [b_; n; j_; 3]
        /\ forall b r j, b < b_ -> r < n -> j < j_ ->
           exists gy gx score off_x off_y,
             tget y [b; r; j] = Ok gy /\ tget x [b; r; j] = Ok gx
             /\ gy < h_ /\ gx < w_
             /\ tget heatmap [b; gy; gx; j] = Ok score
             /\ match locref with
                | None => off_x = of_int 0 /\ off_y = of_int 0
                | Some lr => tget lr [b; gy; gx; j; 0] = Ok off_x
                             /\ tget lr [b; gy; gx; j; 1] = Ok off_y
                end
             /\ tget pose [b; r; j; 0]
                = Ok (fadd (fadd (fmul (of_int (Z.of_nat gx)) sx)
                                 (fmul (of_decimal 5 1) sx))
                           off_x)
             /\ tget pose [b; r; j; 1]
                = Ok (fadd (fadd (fmul (of_int (Z.of_nat gy)) sy)
                                 (fmul (of_decimal 5 1) sy))
                           off_y)
             /\ tget pose [b; r; j; 2] = Ok score)
  /\ (forall a c l, locref_std (HeatmapPredictor_init a c l None)
                    = of_decimal 72801 4)
  /\ (forall a c l s, locref_std (HeatmapPredictor_init a c l (Some s)) = s)
  /\ (forall (self : HeatmapPredictor) (stride : F) (outputs : dict (tensor F))
             (heatmap locref : tensor F) (n b_ j_ h_ w_ : nat),
         location_refinement self = true ->
         dict_get outputs "heatmap" = Ok heatmap ->
         well_formed heatmap -> shape heatmap = [b_; j_; h_; w_] ->
         n <= h_ * w_ ->
         dict_get outputs "locref" = Ok locref ->
         well_formed locref -> shape locref = [b_; 2 * j_; h_; w_] ->
         exists poses,
           forward topk sigmoid self stride outputs n = Ok [("poses", poses)]
           /\ forall b r j, b < b_ -> r < n -> j < j_ ->
              exists gy gx lx ly,
                gy < h_ /\ gx < w_
                /\ tget locref [b; 2 * j; gy; gx] = Ok lx
                /\ tget locref [b; 2 * j + 1; gy; gx] = Ok ly
                /\ tget poses [b; r; j; 0]
                   = Ok (fadd (fadd (fmul (of_int (Z.of_nat gx)) stride)
                                    (fmul (of_decimal 5 1) stride))
                              (fmul lx (locref_std self)))
                /\ tget poses [b; r; j; 1]
                   = Ok (fadd (fadd (fmul (of_int (Z.of_nat gy)) stride)
                                    (fmul (of_decimal 5 1) stride))
                              (fmul ly (locref_std self)))).
Proof.
  split; [|split; [|split]].
  - intros heatmap locref sy sx b_ h_ w_ j_ n Hwf Hsh Hn Hfit.
    destruct (get_pose_prediction_spec topk topk_ok heatmap locref sy sx
                                       b_ h_ w_ j_ n Hwf Hsh Hn Hfit)
      as (y & x & pose & Htv & Hpose & Hshape & _ & Hcand).
    exists y, x, pose. repeat (split; [assumption|]).
    intros b r j Hb Hr Hj.
    destruct (Hcand b r j Hb Hr Hj)
      as (gy & gx & score & off_x & off_y & Hy & Hx & Hgy & Hgx & Hs & Hox & Hoy
          & H0 & H1 & H2).
    exists gy, gx, score, off_x, off_y.
    repeat (split; [assumption|]).
    split; [|auto].
    destruct locref as [lr|]; simpl in Hox, Hoy; split; congruence.
  - reflexivity.
  - reflexivity.
  - intros self stride outputs heatmap locref n b_ j_ h_ w_
           Hlr Hget Hwf Hsh Hn Hgl Hwl Hsl.
    destruct (forward_spec topk topk_ok sigmoid self stride outputs heatmap
                           n b_ j_ h_ w_ Hget Hwf Hsh Hn)
      as (poses & Hf & _ & Hvals); [eauto|].
    exists poses. split; [exact Hf|].
    intros b r j Hb Hr Hj.
    destruct (Hvals b r j Hb Hr Hj)
      as (gy & gx & raw & off_x & off_y & Hgy & Hgx & _ & _ & Hoff & H0 & H1).
    rewrite Hlr in Hoff.
    destruct Hoff as (locref' & lx & ly & Hgl' & Hlx & Hly & -> & ->).
    assert (locref' = locref) by congruence. subst locref'.
    exists gy, gx, lx, ly. auto 10.
Qed.

(** The decoding of [Examples.heatmap], read as (B, H, W, J) = (1, 2, 3, 4),
    with two candidates, a stride of 8 and no refinement field. *)
Lemma get_pose_prediction_coordinates_witness :
  exists y x pose,
    get_top_values topk_ref Examples.heatmap 2 = Ok (y, x)
    /\ get_pose_prediction topk_ref Examples.heatmap None
                           (Examples.num 8, Examples.num 8) 2 = Ok pose
    /\ shape pose = [1; 2; 4; 3].
Proof.
  destruct (get_pose_prediction_coordinates
              binary64 topk_ref (topk_ref_contract binary64 binary64_laws)
              Examples.identity) as [H _].
  destruct (H Examples.heatmap None (Examples.num 8) (Examples.num 8) 1 2 3 4 2
              eq_refl eq_refl (Nat.le_trans _ _ _ (Nat.le_succ_diag_r 2)
                                            (Nat.le_add_r 3 3)) I)
    as (y & x & pose & Htv & Hp & Hs & _).
  exists y, x, pose. auto.
Defined.

(** C2 at [Examples.heatmap]. *)
Lemma get_top_values_selects_top_k_of_each_slice_witness :
  exists y x,
    get_top_values topk_ref Examples.heatmap 2 = Ok (y, x)
    /\ shape y = [1; 2; 4] /\ shape x = [1; 2; 4].
Proof.
  destruct (get_top_values_selects_top_k_of_each_slice
              binary64 topk_ref (topk_ref_contract binary64 binary64_laws)
              Examples.heatmap 1 2 3 4 2 eq_refl eq_refl
              (Nat.le_trans _ _ _ (Nat.le_succ_diag_r 2) (Nat.le_add_r 3 3)))
    as (y & x & Htv & Hy & Hx & _).
  exists y, x. auto.
Defined.

(** C8 (as the code has it).  [forward] takes the "heatmap" entry with the
    joints on axis 1, shape (batch, joints, height, width), and the "locref"
    entry, when location refinement is on, as (batch, 2*joints, height,
    width); it permutes them itself to (B, H, W, J) and (B, H, W, J, 2).  For a
    heatmap of shape (B, J, H, W) the returned "poses" tensor has shape
    (B, num_outputs, J, 3), and joint [j] of the output reports scores of
    channel [j] of the input. *)
Theorem forward_reads_channels_first
        (FL : Float) (topk : list F -> nat -> list nat)
        (topk_ok : topk_contract topk) (sigmoid : F -> F)
        (self : HeatmapPredictor) (stride : F) (outputs : dict (tensor F))
        (heatmap : tensor F) (num_outputs b_ j_ h_ w_ : nat) :
  dict_get outputs "heatmap" = Ok heatmap ->
  well_formed heatmap -> shape heatmap = [b_; j_; h_; w_] ->
  num_outputs <= h_ * w_ ->
  (location_refinement self = true ->
   exists locref, dict_get outputs "locref" = Ok locref
                  /\ well_formed locref /\ shape locref = [b_; 2 * j_; h_; w_]) ->
  exists poses,
    forward topk sigmoid self stride outputs num_outputs = Ok [("poses", poses)]
    /\ shape poses = [b_; num_outputs; j_; 3]
    /\ forall b r j, b < b_ -> r < num_outputs -> j < j_ ->
       exists gy gx raw,
         gy < h_ /\ gx < w_
         /\ tget heatmap [b; j; gy; gx] = Ok raw
         /\ tget poses [b; r; j; 2] = Ok (reported_score sigmoid self raw).
Proof.
  intros Hget Hwf Hsh Hn Hlr.
  destruct (forward_spec topk topk_ok sigmoid self stride outputs heatmap
                         num_outputs b_ j_ h_ w_ Hget Hwf Hsh Hn Hlr)
    as (poses & Hf & Hs & Hvals).
  exists poses. split; [exact Hf|]. split; [exact Hs|].
  intros b r j Hb Hr Hj.
  destruct (Hvals b r j Hb Hr Hj)
    as (gy & gx & raw & off_x & off_y & Hgy & Hgx & Hraw & H2 & _).
  exists gy, gx, raw. auto.
Qed.

(** [Examples.heatmap] read as (B, J, H, W) = (1, 2, 3, 4). *)
Lemma forward_reads_channels_first_witness :
  exists poses,
    forward topk_ref Examples.identity Examples.predictor (Examples.num 8)
            [("heatmap", Examples.heatmap)] 2
    = Ok [("poses", poses)]
    /\ shape poses = [1; 2; 2; 3].
Proof.
  destruct (forward_reads_channels_first
              binary64 topk_ref (topk_ref_contract binary64 binary64_laws)
              Examples.identity Examples.predictor (Examples.num 8)
              [("heatmap", Examples.heatmap)] Examples.heatmap 2 1 2 3 4
              eq_refl eq_refl eq_refl
              (Nat.le_trans _ _ _ (Nat.le_succ_diag_r 2) (Nat.le_add_r 3 9)))
    as (poses & Hf & Hs & _).
  - intros H. discriminate H.
  - exists poses. auto.
Defined.

(** C8 as stated fails: a heatmap of shape (B, H, W, J) = (1, 2, 3, 4) gives
    poses of shape (1, 2, 2, 3), with 2 joints, not (1, 2, 4, 3). *)
Lemma forward_joint_axis_is_axis_1 :
  shape Examples.heatmap = [1; 2; 3; 4]
  /\ exists poses,
      forward topk_ref Examples.identity Examples.predictor (Examples.num 8)
              [("heatmap", Examples.heatmap)] 2
      = Ok [("poses", poses)]
      /\ shape poses = [1; 2; 2; 3]
      /\ shape poses <> [1; 2; 4; 3].
Proof.
  split; [reflexivity|].
  eexists. split; [vm_compute; reflexivity|].
  split; [reflexivity | discriminate].
Qed.

(** * [get_scores]: main statements *)

(** [get_scores] on well-shaped single-image input returns the six scores. *)
Lemma get_scores_image_count_guard_witness :
  exists scores,
    get_scores Examples.evaluator Examples.poses Examples.ground_truth_xy
               None None (Examples.num (-1))
    = Ok scores
    /\ keys scores = score_keys.
Proof.
  destruct (get_scores_image_count_guard
              binary64 Examples.evaluator Examples.poses Examples.ground_truth_xy
              None None (Examples.num (-1))) as [_ H].
  apply (H eq_refl ltac:(discriminate) 1 2 3 (le_n 3)).
  - intros path a [E|[]]. injection E as <- <-.
    split; [reflexivity|]. repeat constructor.
  - intros path [<-|[]]. exists Examples.gt_image_xy.
    split; [reflexivity|]. split; [reflexivity|]. repeat constructor.
Defined.

(** C3 as stated fails: with one image on each side, a ground truth shaped
    (individuals, keypoints, 3) as the docstring of [get_scores] has it makes
    [compute_rmse] raise its ValueError; and two empty mappings make
    [np.stack] raise one. *)
Lemma get_scores_value_error_with_equal_counts :
  length Examples.poses = length Examples.ground_truth_xyv
  /\ get_scores Examples.evaluator Examples.poses Examples.ground_truth_xyv
                None None (Examples.num (-1))
     = Raise (ValueError same_rows_msg)
  /\ get_scores Examples.evaluator [] [] None None (Examples.num (-1))
     = Raise (ValueError "need at least one array to stack").
Proof. repeat split; vm_compute; reflexivity. Qed.

(** C9 (as the code has it).  When the stacked ground truth holds 2 values
    per keypoint (and the predictions at least 3), row [i] of both flattened
    arrays is keypoint [i].  When it holds 3, the reshape to (-1, 2) raises
    nothing exactly when the number of values is even, and cuts the flat
    data in consecutive pairs, so that coordinates and visibility flags of
    neighbouring keypoints are regrouped.  [compute_rmse] then compares these
    pairs with the predictions only if there are as many pairs as prediction
    rows; otherwise [get_scores] raises the ValueError of [compute_rmse]. *)
Theorem get_scores_pairs_rows_by_reshape
        (FL : Float)
        (evaluate_assembly :
           dict (list Assembly) -> dict (list Assembly) -> F -> F ->
           option (list (nat * nat)) -> oks_scores) :
  (forall (poses gt : dict array3) paths P G,
      build_keypoint_array poses paths = Ok P ->
      build_keypoint_array gt paths = Ok G ->
      Forall (fun r : row => 3 <= length r) (keypoint_rows P) ->
      Forall (fun r : row => length r = 2) (keypoint_rows G) ->
      stacked_rows3 poses paths = Ok (map triple_of (keypoint_rows P))
      /\ stacked_rows2 gt paths = Ok (map pair_of (keypoint_rows G)))
  /\ (forall (gt : dict array3) paths G,
         build_keypoint_array gt paths = Ok G ->
         Forall (fun r : row => length r = 3) (keypoint_rows G) ->
         length (ravel G) = 3 * length (keypoint_rows G)
         /\ is_ok (stacked_rows2 gt paths) = Nat.even (length (ravel G))
         /\ (forall q kp c, nth_error (keypoint_rows G) q = Some kp -> c < 3 ->
                            nth_error (ravel G) (3 * q + c) = nth_error kp c)
         /\ forall rows, stacked_rows2 gt paths = Ok rows ->
              2 * length rows = 3 * length (keypoint_rows G)
              /\ forall r a b, nth_error rows r = Some (a, b) ->
                   nth_error (ravel G) (2 * r) = Some a
                   /\ nth_error (ravel G) (2 * r + 1) = Some b)
  /\ (forall (poses gt : dict array3) pcutoff P G,
         length poses = length gt ->
         stacked_rows3 poses (keys poses) = Ok P ->
         stacked_rows2 gt (keys poses) = Ok G ->
         (length P <> length G ->
          get_scores evaluate_assembly poses gt None None pcutoff
          = Raise (ValueError same_rows_msg))
         /\ (length P = length G ->
             (forall path kws, In (path, kws) poses -> three_columns kws) ->
             exists scores,
               get_scores evaluate_assembly poses gt None None pcutoff = Ok scores
               /\ dict_get scores "rmse" = Ok (spec_rmse P G)
               /\ dict_get scores "rmse_pcutoff"
                  = Ok (spec_rmse_pcutoff P G pcutoff))).
Proof.
  split; [|split].
  - intros poses gt paths P G HP HG H3 H2.
    unfold stacked_rows3, stacked_rows2. rewrite HP, HG. cbn [bind].
    rewrite ravel_slice_last, (reshape_m1_3_rows _ H3).
    rewrite ravel_keypoint_rows, (reshape_m1_2_rows _ H2). auto.
  - intros gt paths G HG H3.
    assert (Hlen : length (ravel G) = 3 * length (keypoint_rows G)).
    { rewrite ravel_keypoint_rows, (length_concat_uniform 3 _ H3).
      apply Nat.mul_comm. }
    split; [exact Hlen|].
    unfold stacked_rows2. rewrite HG. cbn [bind].
    split; [apply reshape_m1_2_even|]. split.
    + intros q kp c Hq Hc. rewrite ravel_keypoint_rows, (Nat.mul_comm 3 q).
      apply (nth_error_concat_uniform 3 _ H3); assumption.
    + intros rows Hrows. split.
      * rewrite <- Hlen. symmetry. apply reshape_m1_2_length. exact Hrows.
      * apply reshape_m1_2_nth. exact Hrows.
  - intros poses gt pcutoff P G Hlen HP HG.
    rewrite (get_scores_guard_passed evaluate_assembly poses gt None None
                                     pcutoff Hlen).
    destruct (get_scores_body_rows evaluate_assembly poses gt pcutoff P G HP HG)
      as [Hne Heq].
    split; [exact Hne|].
    intros E H3. destruct (Heq E H3) as (scores & Hs & _ & Hr & Hrp).
    exists scores. auto.
Qed.

(** Three predicted keypoints against two annotated ones with a visibility
    column: 3 pairs face 3 prediction rows, and the second pair is the
    visibility of the first keypoint with the x of the second. *)
Lemma get_scores_pairs_rows_by_reshape_witness :
  stacked_rows2 Examples.ground_truth2_xyv (keys Examples.poses3)
  = Ok [(Examples.num 1, Examples.num 2);
        (Examples.num 1, Examples.num 3);
        (Examples.num 4, Examples.num 1)]
  /\ exists scores,
      get_scores Examples.evaluator Examples.poses3 Examples.ground_truth2_xyv
                 None None (Examples.num (-1))
      = Ok scores.
Proof.
  split; [reflexivity|].
  destruct (get_scores_pairs_rows_by_reshape binary64 Examples.evaluator)
    as (_ & _ & H).
  destruct (H Examples.poses3 Examples.ground_truth2_xyv (Examples.num (-1))
              _ _ eq_refl eq_refl eq_refl) as [_ Hok].
  destruct (Hok eq_refl) as (scores & Hs & _).
  - intros path kws [E|[]]. injection E as <- <-.
    unfold three_columns. repeat constructor.
  - exists scores. exact Hs.
Defined.

(** C9 as stated fails: on predictions and a ground truth with a visibility
    column that hold the same keypoints, the reshape succeeds (6 values, 3
    pairs) but nothing is compared: [get_scores] raises. *)
Lemma get_scores_regrouped_pairs_not_compared :
  stacked_rows2 Examples.ground_truth_xyv (keys Examples.poses)
  = Ok [(Examples.num 1, Examples.num 2);
        (Examples.num 1, Examples.num 3);
        (Examples.num 4, Examples.num 1)]
  /\ get_scores Examples.evaluator Examples.poses Examples.ground_truth_xyv
                None None (Examples.num (-1))
     = Raise (ValueError same_rows_msg).
Proof. split; vm_compute; reflexivity. Qed.

(** * Instances of the scoring statements *)

Lemma compute_rmse_raises_iff_rows_differ_witness :
  @compute_rmse binary64 [(Examples.num 0, Examples.num 0, Examples.num 1)] []
                (Examples.num (-1))
  = Raise (ValueError same_rows_msg).
Proof.
  apply (proj1 (compute_rmse_raises_iff_rows_differ
                  binary64 [(Examples.num 0, Examples.num 0, Examples.num 1)] []
                  (Examples.num (-1)))).
  simpl. discriminate.
Defined.

Lemma compute_rmse_nan_confidence_excluded_witness :
  exists r rp r',
    @compute_rmse binary64
      ([(Examples.num 0, Examples.num 0, Examples.num 1)]
         ++ (Examples.num 3, Examples.num 4, S754_nan) :: [])
      ([(Examples.num 0, Examples.num 0)]
         ++ (Examples.num 0, Examples.num 0) :: [])
      (Examples.num (-1)) = Ok (r, rp)
    /\ @compute_rmse binary64
         ([(Examples.num 0, Examples.num 0, Examples.num 1)] ++ [])
         ([(Examples.num 0, Examples.num 0)] ++ [])
         (Examples.num (-1)) = Ok (r', rp).
Proof.
  destruct compute_rmse_nan_confidence_excluded as [H _].
  apply (H binary64 binary64_laws
           [(Examples.num 0, Examples.num 0, Examples.num 1)] []
           [(Examples.num 0, Examples.num 0)] []
           (Examples.num 3, Examples.num 4, S754_nan)
           (Examples.num 0, Examples.num 0) (Examples.num (-1))
           eq_refl eq_refl eq_refl).
Defined.

Lemma compute_oks_masks_fresh_copies_witness :
  exists masked_pred ext res,
    mask_predictions_st Examples.pred_refs (Some (Examples.dec 85 2)) []
                        Examples.store
    = Ok (masked_pred, Examples.store ++ ext)
    /\ compute_oks_st Examples.evaluator Examples.pred_refs Examples.gt_refs
                      default_oks_sigma default_margin None
                      (Some (Examples.dec 85 2)) Examples.store
       = Ok (res, Examples.store ++ ext)
    /\ load (Examples.store ++ ext) masked_pred
       = Ok [("img0", [[[Examples.num 1; Examples.num 2]; [S754_nan; S754_nan]]])]
    /\ load (Examples.store ++ ext) Examples.pred_refs = Ok Examples.poses
    /\ load (Examples.store ++ ext) Examples.gt_refs = Ok Examples.ground_truth_xyv
    /\ build_assemblies_st masked_pred [] (Examples.store ++ ext)
       = Ok (build_assemblies
               [("img0", [[[Examples.num 1; Examples.num 2];
                           [S754_nan; S754_nan]]])],
             Examples.store ++ ext)
    /\ res
       = Examples.evaluator
           (build_assemblies
              [("img0", [[[Examples.num 1; Examples.num 2];
                          [S754_nan; S754_nan]]])])
           (build_assemblies Examples.ground_truth_xyv)
           default_oks_sigma default_margin None.
Proof.
  apply (compute_oks_masks_fresh_copies
           binary64 Examples.evaluator Examples.pred_refs Examples.gt_refs
           default_oks_sigma default_margin None (Examples.dec 85 2)
           Examples.store Examples.poses Examples.ground_truth_xyv
           eq_refl eq_refl).
  - repeat constructor. simpl. tauto.
  - intros path kws [E|[]]. injection E as <- <-.
    unfold three_columns. repeat constructor.
Defined.

Lemma build_assemblies_drops_empty_and_masking_shrinks_witness :
  exists masked_pred unmasked_pred asms asms',
    mask_predictions Examples.poses_low (Some (Examples.dec 5 1)) []
    = Ok masked_pred
    /\ mask_predictions Examples.poses_low None [] = Ok unmasked_pred
    /\ dict_get (build_assemblies masked_pred) "img0" = Ok asms
    /\ dict_get (build_assemblies unmasked_pred) "img0" = Ok asms'
    /\ length asms = 1 /\ length asms' = 2
    /\ length asms <= length asms'.
Proof.
  destruct (build_assemblies_drops_empty_and_masking_shrinks
              binary64 binary64_laws) as [_ H].
  destruct (H Examples.poses_low (Examples.dec 5 1) _ _ eq_refl eq_refl)
    as [_ Hle].
  destruct (Hle "img0" _ eq_refl) as (asms' & Hget & Hlen).
  do 4 eexists.
  split; [reflexivity|]. split; [reflexivity|]. split; [reflexivity|].
  split; [exact Hget|].
  split; [reflexivity|].
  split; [|exact Hlen].
  vm_compute in Hget. injection Hget as <-. reflexivity.
Defined.

(** * Further properties of the scoring module *)

#[export] Instance binary64_ext_laws : FloatExtLaws binary64 binary64_ext.
Proof.
  split; try reflexivity.
  - intros x p Hx. destruct x; try discriminate Hx. reflexivity.
  - intros x p Hx. destruct x; try discriminate Hx. destruct p; reflexivity.
Qed.

(** ** Lists and the error monad, continued *)

Lemma mapM_first_error {A B} (f : A -> result B) l1 a l2 e :
  (forall x, In x l1 -> exists b, f x = Ok b) -> f a = Raise e ->
  mapM f (l1 ++ a :: l2) = Raise e.
Proof.
  induction l1 as [|x l1 IH]; simpl; intros Hok Ha.
  - rewrite Ha. reflexivity.
  - destruct (Hok x (or_introl eq_refl)) as (b & ->). simpl.
    rewrite IH; auto.
Qed.

Lemma mapM_ext_in {A B} (f g : A -> result B) l :
  (forall a, In a l -> f a = g a) -> mapM f l = mapM g l.
Proof.
  induction l as [|a l IH]; simpl; intros H; [reflexivity|].
  rewrite (H a (or_introl eq_refl)), IH by (intros; apply H; auto).
  reflexivity.
Qed.

Lemma filter_all {A} (p : A -> bool) l :
  (forall x, In x l -> p x = true) -> filter p l = l.
Proof.
  induction l as [|x l IH]; simpl; intros H; [reflexivity|].
  rewrite (H x (or_introl eq_refl)), IH by (intros; apply H; auto).
  reflexivity.
Qed.

Lemma filter_none {A} (p : A -> bool) l :
  (forall x, In x l -> p x = false) -> filter p l = [].
Proof.
  induction l as [|x l IH]; simpl; intros H; [reflexivity|].
  rewrite (H x (or_introl eq_refl)), IH by (intros; apply H; auto).
  reflexivity.
Qed.

Lemma combine_map_right {A B} (g : A -> B) l :
  combine l (map g l) = map (fun x => (x, g x)) l.
Proof. induction l; simpl; congruence. Qed.

Lemma map_nth_seq {A} (l : list A) d :
  map (fun i => nth i l d) (seq 0 (length l)) = l.
Proof.
  induction l as [|a l IH]; simpl; [reflexivity|].
  rewrite <- seq_shift, map_map. simpl. rewrite IH. reflexivity.
Qed.

Lemma dict_get_missing {V} (d : dict V) k :
  ~ In k (keys d) -> dict_get d k = Raise (KeyError k).
Proof.
  induction d as [|[k' v] d IH]; simpl; intros H; [reflexivity|].
  destruct (String.eqb_spec k k') as [->|_]; [tauto|]. apply IH. tauto.
Qed.

Lemma dict_get_Ok_In {V} (d : dict V) k v :
  dict_get d k = Ok v -> In (k, v) d.
Proof.
  induction d as [|[k' v'] d IH]; simpl; [discriminate|].
  destruct (String.eqb_spec k k') as [->|_].
  - intros H. injection H as <-. auto.
  - auto.
Qed.

(** ** [build_keypoint_array] *)

Section StackFacts.
Context {FL : Float}.

Lemma build_keypoint_array_first_missing
      (keypoints : dict array3) (before after : list string) (k : string) :
  (forall k', In k' before -> In k' (keys keypoints)) ->
  ~ In k (keys keypoints) ->
  build_keypoint_array keypoints (before ++ k :: after) = Raise (KeyError k).
Proof.
  intros Hbefore Hk. unfold build_keypoint_array.
  rewrite (mapM_first_error (fun image_key => dict_get keypoints image_key)
                            before k after (KeyError k)); [reflexivity| |].
  - intros k' Hin. destruct (dict_get_In keypoints k' (Hbefore k' Hin)) as (v & -> & _).
    eauto.
  - apply dict_get_missing, Hk.
Qed.

(** X1.  [build_keypoint_array] raises KeyError for the first requested key
    that the dictionary lacks, whatever follows it and whatever the shapes;
    with no key requested at all it raises the ValueError of [np.stack]. *)
Theorem build_keypoint_array_missing_key
        (keypoints : dict array3) (before after : list string) (k : string) :
  (forall k', In k' before -> In k' (keys keypoints)) ->
  ~ In k (keys keypoints) ->
  build_keypoint_array keypoints (before ++ k :: after) = Raise (KeyError k)
  /\ build_keypoint_array keypoints []
     = Raise (ValueError "need at least one array to stack").
Proof.
  intros Hbefore Hk. split; [|reflexivity].
  apply build_keypoint_array_first_missing; assumption.
Qed.

Lemma np_stack_shapes (arrays a : list array3) :
  np_stack arrays = Ok a ->
  a = arrays /\ arrays <> []
  /\ forall x y, In x arrays -> In y arrays -> shape_of x = shape_of y.
Proof.
  unfold np_stack. destruct arrays as [|x0 rest]; [discriminate|].
  destruct (forallb _ rest) eqn:E; [|discriminate].
  intros H. injection H as <-. split; [reflexivity|]. split; [discriminate|].
  rewrite forallb_forall in E.
  assert (Hx0 : forall x, In x (x0 :: rest) -> shape_of x = shape_of x0).
  { intros x [<-|Hx]; [reflexivity|].
    specialize (E x Hx). destruct (shape_of x) as [[a b] c],
                            (shape_of x0) as [[a' b'] c'].
    simpl in E. apply andb_true_iff in E as [E Ec].
    apply andb_true_iff in E as [Ea Eb].
    apply Nat.eqb_eq in Ea, Eb, Ec. congruence. }
  intros x y Hx Hy. rewrite (Hx0 x Hx), (Hx0 y Hy). reflexivity.
Qed.

(** X2.  When [build_keypoint_array] returns, it returns one array per
    requested key, the i-th being the dictionary's array for the i-th key, all
    of one shape; and its result depends on the dictionary only through the
    lookups of the requested keys (neither the order of the dictionary nor its
    other entries matter). *)
Theorem build_keypoint_array_stacks_in_key_order
        (keypoints keypoints' : dict array3) (requested : list string) :
  (forall stacked,
      build_keypoint_array keypoints requested = Ok stacked ->
      length stacked = length requested
      /\ (forall i k, nth_error requested i = Some k ->
                      exists a, dict_get keypoints k = Ok a
                                /\ nth_error stacked i = Some a)
      /\ (forall x y, In x stacked -> In y stacked -> shape_of x = shape_of y))
  /\ ((forall k, In k requested -> dict_get keypoints k = dict_get keypoints' k) ->
      build_keypoint_array keypoints requested
      = build_keypoint_array keypoints' requested).
Proof.
  split.
  - intros stacked H. unfold build_keypoint_array in H.
    apply bind_Ok_inv in H as (arrays & Harr & Hst).
    apply np_stack_shapes in Hst as (-> & _ & Hshape).
    split; [eapply mapM_Ok_length; eauto|]. split; [|exact Hshape].
    intros i k Hi.
    destruct (mapM_Ok_nth _ _ _ Harr i k Hi) as (a & Ha & Hg). eauto.
  - intros Hext. unfold build_keypoint_array.
    rewrite (mapM_ext_in (fun image_key => dict_get keypoints image_key)
                         (fun image_key => dict_get keypoints' image_key)
                         requested Hext).
    reflexivity.
Qed.

End StackFacts.

Lemma build_keypoint_array_missing_key_witness :
  build_keypoint_array Examples.ground_truth_xy ["img0"; "img1"; "img2"]
  = Raise (KeyError "img1").
Proof.
  apply (proj1 (build_keypoint_array_missing_key
                  Examples.ground_truth_xy ["img0"] ["img2"] "img1"
                  ltac:(intros k' [<-|[]]; left; reflexivity)
                  ltac:(intros [H|[]]; discriminate H))).
Defined.

Lemma build_keypoint_array_stacks_in_key_order_witness :
  build_keypoint_array (("other", []) :: Examples.ground_truth_xy) ["img0"]
  = build_keypoint_array Examples.ground_truth_xy ["img0"].
Proof.
  apply (proj2 (build_keypoint_array_stacks_in_key_order
                  (("other", []) :: Examples.ground_truth_xy)
                  Examples.ground_truth_xy ["img0"])).
  intros k [<-|[]]. reflexivity.
Defined.

(** ** [get_scores] and [compute_oks], continued *)

Lemma mapM_error_kind {A B} (f : A -> result B) l e0 :
  (forall a e, In a l -> f a = Raise e -> e = e0) ->
  forall e, mapM f l = Raise e -> e = e0.
Proof.
  induction l as [|a l IH]; simpl; intros Hf e H; [discriminate|].
  destruct (f a) as [b|e'] eqn:Ea; simpl in H.
  - destruct (mapM f l) as [bs|e''] eqn:El; simpl in H; [discriminate|].
    injection H as <-. eapply IH; eauto.
  - injection H as <-. eapply Hf; eauto.
Qed.

Section FlagFacts.
Context {FL : Float}.
Variable flag : F -> bool.

(** A boolean array read off index 2 of every keypoint, as in
    [a[..., 2] < pcutoff] and [a[..., 2] == 0]. *)
Lemma flags_three_columns (kws : array3) :
  three_columns kws ->
  mapM (mapM (fun r : row =>
                match nth_error r 2 with
                | None => Raise IndexError
                | Some v => Ok (flag v)
                end)) kws
  = Ok (map (map (fun r => flag (nth 2 r fnan))) kws).
Proof.
  intros H. apply mapM_pure. intros idv Hidv.
  apply mapM_pure. intros r Hr.
  unfold three_columns in H. rewrite Forall_forall in H.
  specialize (H idv Hidv). rewrite Forall_forall in H. specialize (H r Hr).
  rewrite nth_error_nth_default by lia. reflexivity.
Qed.

Lemma flags_Ok (kws : array3) m :
  mapM (mapM (fun r : row =>
                match nth_error r 2 with
                | None => Raise IndexError
                | Some v => Ok (flag v)
                end)) kws = Ok m ->
  three_columns kws.
Proof.
  unfold three_columns. revert m.
  induction kws as [|idv kws IH]; cbn [mapM]; intros m H; [constructor|].
  apply bind_Ok_inv in H as (m0 & Hm & H).
  apply bind_Ok_inv in H as (ms & Hms & H).
  constructor; [|eapply IH; eauto].
  clear - Hm. revert m0 Hm.
  induction idv as [|r idv IH]; cbn [mapM]; intros m Hm; [constructor|].
  apply bind_Ok_inv in Hm as (b & Hb & Hm).
  apply bind_Ok_inv in Hm as (bs & Hbs & Hm).
  constructor; [|eapply IH; eauto].
  destruct (nth_error r 2) eqn:E; [|discriminate].
  assert (2 < length r) by (apply nth_error_Some; congruence). lia.
Qed.

Lemma flags_error (kws : array3) e :
  mapM (mapM (fun r : row =>
                match nth_error r 2 with
                | None => Raise IndexError
                | Some v => Ok (flag v)
                end)) kws = Raise e ->
  e = IndexError.
Proof.
  apply mapM_error_kind. intros idv e' _.
  apply mapM_error_kind. intros r e'' _.
  destruct (nth_error r 2); [discriminate|]. congruence.
Qed.

End FlagFacts.

Section ScoreFacts.
Context {FL : Float}.

Variable evaluate_assembly :
  dict (list Assembly) -> dict (list Assembly) -> F -> F -> option (list (nat * nat)) ->
  oks_scores.

Lemma stacked_rows2_missing_key (gt : dict array3) before k after :
  (forall k', In k' before -> In k' (keys gt)) -> ~ In k (keys gt) ->
  stacked_rows2 gt (before ++ k :: after) = Raise (KeyError k).
Proof.
  intros Hb Hk. unfold stacked_rows2.
  rewrite (build_keypoint_array_first_missing gt before after k Hb Hk).
  reflexivity.
Qed.

Lemma mask_predictions_error pred pco :
  forall acc e, mask_predictions pred pco acc = Raise e -> e = IndexError.
Proof.
  induction pred as [|[path kws] pred IH]; cbn [mask_predictions]; intros acc e H;
    [discriminate|].
  destruct (mask_keypoints pco kws) as [kp|e'] eqn:E; cbn [bind] in H.
  - eapply IH; eauto.
  - assert (He : e' = IndexError).
    { unfold mask_keypoints in E.
      destruct pco as [pc|]; [|discriminate].
      destruct (below_cutoff pc kws) as [m|e''] eqn:Eb; [discriminate|].
      cbn [bind] in E.
      assert (e'' = IndexError) by apply (flags_error (fun s => fltb s pc) kws e'' Eb).
      congruence. }
    congruence.
Qed.

Lemma mask_predictions_Some_Ok pc pred :
  forall acc mm, mask_predictions pred (Some pc) acc = Ok mm ->
                 forall path kws, In (path, kws) pred -> three_columns kws.
Proof.
  induction pred as [|[path0 kws0] pred IH]; cbn [mask_predictions];
    intros acc mm H path kws Hin; [contradiction|].
  apply bind_Ok_inv in H as (kp & Hkp & H).
  destruct Hin as [E|Hin].
  - injection E as <- <-. apply (mask_keypoints_Some_inv pc kws0 kp Hkp).
  - eapply IH; eauto.
Qed.

(** X4.  The masking loop of [compute_oks], on predictions whose arrays each
    hold a keypoint: without a pcutoff it raises nothing; with a pcutoff it
    completes exactly when every predicted keypoint carries a score at index
    2, and otherwise raises IndexError, which [compute_oks] raises in turn,
    before any assembly is built. *)
Theorem compute_oks_masking_needs_scores
        (pred ground_truth : dict array3) (oks_sigma margin : F)
        (symmetric_kpts : option (list (nat * nat))) (pcutoff : F) :
  (forall path kws, In (path, kws) pred -> holds_a_keypoint kws) ->
  is_ok (mask_predictions pred None []) = true
  /\ (is_ok (mask_predictions pred (Some pcutoff) []) = true
      <-> forall path kws, In (path, kws) pred -> three_columns kws)
  /\ (is_ok (mask_predictions pred (Some pcutoff) []) = false ->
      mask_predictions pred (Some pcutoff) [] = Raise IndexError
      /\ compute_oks evaluate_assembly pred ground_truth oks_sigma margin
                     symmetric_kpts (Some pcutoff) = Raise IndexError).
Proof.
  intros _. split; [|split].
  - destruct (mask_predictions_None_total pred []) as (mu & ->). reflexivity.
  - split.
    + intros H.
      destruct (mask_predictions pred (Some pcutoff) []) as [mm|e] eqn:E;
        [|discriminate].
      eapply mask_predictions_Some_Ok; eauto.
    + intros H. destruct (mask_predictions_total pcutoff pred H []) as (mm & ->).
      reflexivity.
  - unfold compute_oks.
    destruct (mask_predictions pred (Some pcutoff) []) as [mm|e] eqn:E;
      [discriminate|].
    intros _. assert (e = IndexError) by (eapply mask_predictions_error; eauto).
    subst e. split; reflexivity.
Qed.

(** *** A pcutoff that no score is below *)

Lemma mask_keypoints_no_score_below pc kws :
  no_score_below pc kws ->
  mask_keypoints (Some pc) kws = mask_keypoints None kws.
Proof.
  intros [H3 Hno]. rewrite (mask_keypoints_Some pc kws H3).
  unfold mask_keypoints, slice2. f_equal.
  apply map_ext_in. intros idv Hidv. apply map_ext_in. intros r Hr.
  unfold masked_keypoint. rewrite (Hno idv r Hidv Hr). reflexivity.
Qed.

Lemma mask_predictions_no_score_below pc pred :
  (forall path kws, In (path, kws) pred -> no_score_below pc kws) ->
  forall acc, mask_predictions pred (Some pc) acc = mask_predictions pred None acc.
Proof.
  induction pred as [|[path kws] pred IH]; cbn [mask_predictions]; intros H acc;
    [reflexivity|].
  rewrite (mask_keypoints_no_score_below pc kws) by (eapply H; left; reflexivity).
  destruct (mask_keypoints None kws); cbn [bind]; [|reflexivity].
  apply IH. intros p k Hin. eapply H. right. exact Hin.
Qed.

Lemma compute_oks_no_score_below pred gt s m sym pc :
  (forall path kws, In (path, kws) pred -> no_score_below pc kws) ->
  compute_oks evaluate_assembly pred gt s m sym (Some pc)
  = compute_oks evaluate_assembly pred gt s m sym None.
Proof.
  intros H. unfold compute_oks.
  rewrite (mask_predictions_no_score_below pc pred H []). reflexivity.
Qed.

End ScoreFacts.

Lemma compute_oks_masking_needs_scores_witness :
  compute_oks Examples.evaluator Examples.ground_truth_xy Examples.ground_truth_xy
              default_oks_sigma default_margin None (Some (Examples.dec 5 1))
  = Raise IndexError.
Proof.
  assert (Hk : forall path kws,
             In (path, kws) Examples.ground_truth_xy -> holds_a_keypoint kws).
  { intros path kws [E|[]]. injection E as <- <-.
    do 2 eexists. split; [left; reflexivity|]. left. reflexivity. }
  apply (proj2 (proj2 (compute_oks_masking_needs_scores
                         Examples.evaluator Examples.ground_truth_xy
                         Examples.ground_truth_xy default_oks_sigma
                         default_margin None (Examples.dec 5 1) Hk))).
  reflexivity.
Defined.

(** X3.  Equal image counts are not enough for [get_scores]: the ground truth
    is looked up by the prediction's image keys, and the first prediction
    image it lacks makes [get_scores] raise KeyError with that key. *)
Theorem get_scores_missing_ground_truth_image
        (FL : Float)
        (evaluate_assembly :
           dict (list Assembly) -> dict (list Assembly) -> F -> F ->
           option (list (nat * nat)) -> oks_scores)
        (poses ground_truth : dict array3)
        (unique_bodypart_poses unique_bodypart_gt : option (dict array3))
        (pcutoff : F) (P : list (F * F * F))
        (before after : list string) (k : string) :
  length poses = length ground_truth ->
  stacked_rows3 poses (keys poses) = Ok P ->
  keys poses = before ++ k :: after ->
  (forall k', In k' before -> In k' (keys ground_truth)) ->
  ~ In k (keys ground_truth) ->
  get_scores evaluate_assembly poses ground_truth unique_bodypart_poses
             unique_bodypart_gt pcutoff
  = Raise (KeyError k).
Proof.
  intros Hlen HP Hkeys Hb Hk.
  rewrite (get_scores_guard_passed evaluate_assembly _ _ _ _ _ Hlen).
  unfold get_scores_body. rewrite HP. cbn [bind].
  rewrite Hkeys, (stacked_rows2_missing_key ground_truth before k after Hb Hk).
  reflexivity.
Qed.

Lemma get_scores_missing_ground_truth_image_witness :
  get_scores Examples.evaluator Examples.poses [("img1", Examples.gt_image_xy)]
             None None (Examples.num (-1))
  = Raise (KeyError "img0").
Proof.
  apply (get_scores_missing_ground_truth_image
           binary64 Examples.evaluator Examples.poses
           [("img1", Examples.gt_image_xy)] None None (Examples.num (-1))
           _ [] [] "img0" eq_refl eq_refl eq_refl).
  - intros k' [].
  - intros [H|[]]. discriminate H.
Defined.

(** X5.  When every prediction row passes the cutoff and no predicted score
    is below it, the pcutoff changes nothing: [get_scores] reports
    [rmse_pcutoff = rmse], [mAP_pcutoff = mAP] and [mAR_pcutoff = mAR]. *)
Theorem get_scores_pcutoff_below_every_score
        (FL : Float)
        (evaluate_assembly :
           dict (list Assembly) -> dict (list Assembly) -> F -> F ->
           option (list (nat * nat)) -> oks_scores)
        (poses ground_truth : dict array3) (pcutoff : F)
        (P : list (F * F * F)) (G : list (F * F)) :
  length poses = length ground_truth ->
  stacked_rows3 poses (keys poses) = Ok P ->
  stacked_rows2 ground_truth (keys poses) = Ok G ->
  length P = length G ->
  (forall p, In p P -> fgeb (snd p) pcutoff = true) ->
  (forall path kws, In (path, kws) poses -> no_score_below pcutoff kws) ->
  exists rmse mean_ap mean_ar,
    get_scores evaluate_assembly poses ground_truth None None pcutoff
    = Ok [("rmse", rmse); ("rmse_pcutoff", rmse);
          ("mAP", mean_ap); ("mAR", mean_ar);
          ("mAP_pcutoff", mean_ap); ("mAR_pcutoff", mean_ar)].
Proof.
  intros Hlen HP HG Hrows Hpass Hno.
  rewrite (get_scores_guard_passed evaluate_assembly _ _ _ _ _ Hlen).
  unfold get_scores_body. rewrite HP, HG. cbn [bind].
  rewrite (compute_rmse_rowwise P G pcutoff Hrows). cbn [bind].
  rewrite (compute_oks_no_score_below evaluate_assembly poses ground_truth
             default_oks_sigma default_margin None pcutoff Hno).
  assert (H3 : forall path kws, In (path, kws) poses -> three_columns kws).
  { intros path kws Hin. apply (Hno path kws Hin). }
  destruct (compute_oks_total evaluate_assembly poses ground_truth
              default_oks_sigma default_margin None None H3) as (o & ->).
  cbn [bind].
  assert (Hsame : spec_rmse_pcutoff P G pcutoff = spec_rmse P G).
  { unfold spec_rmse_pcutoff, spec_rmse. rewrite filter_all; [reflexivity|].
    intros [p g] Hin. unfold passes_cutoff. simpl. apply Hpass.
    eapply in_combine_l; eauto. }
  rewrite Hsame. do 3 eexists. reflexivity.
Qed.

Lemma get_scores_pcutoff_below_every_score_witness :
  exists rmse mean_ap mean_ar,
    get_scores Examples.evaluator Examples.poses Examples.ground_truth_xy
               None None (Examples.num (-1))
    = Ok [("rmse", rmse); ("rmse_pcutoff", rmse);
          ("mAP", mean_ap); ("mAR", mean_ar);
          ("mAP_pcutoff", mean_ap); ("mAR_pcutoff", mean_ar)].
Proof.
  apply (get_scores_pcutoff_below_every_score
           binary64 Examples.evaluator Examples.poses Examples.ground_truth_xy
           (Examples.num (-1)) _ _ eq_refl eq_refl eq_refl eq_refl).
  - intros p [<-|[<-|[]]]; reflexivity.
  - intros path kws [E|[]]. injection E as <- <-. split.
    + unfold three_columns. repeat constructor.
    + intros idv r [<-|[]] [<-|[<-|[]]]; reflexivity.
Defined.

Lemma nth_error_map_dict {V W} (f : V -> W) (d : dict V) k v :
  NoDup (keys d) -> In (k, v) d ->
  dict_get (map (fun item => (fst item, f (snd item))) d) k = Ok (f v).
Proof.
  induction d as [|[k0 v0] d IH]; intros Hnd Hin; [destruct Hin|].
  simpl in Hnd. inversion Hnd as [|? ? Hnot Hnd']; subst.
  cbn [map dict_get fst snd]. destruct Hin as [E|Hin].
  - injection E as -> ->. rewrite String.eqb_refl. reflexivity.
  - destruct (String.eqb_spec k k0) as [->|_].
    + exfalso. apply Hnot. apply (in_map fst) in Hin. exact Hin.
    + apply IH; assumption.
Qed.

(** X6.  A keypoint whose confidence is NaN is treated in opposite ways.
    [compute_oks] does not mask it, whatever the pcutoff, since
    [NaN < pcutoff] is false: in the arrays from which the assemblies are
    built it keeps its coordinates.  [compute_rmse] leaves it out of the
    restricted mean, since [NaN >= pcutoff] is false too: [rmse_pcutoff] is
    what it is without that row. *)
Theorem nan_confidence_kept_for_oks_dropped_for_rmse
        (FL : Float) (LAWS : FloatLaws FL)
        (FX : FloatExt FL) (XLAWS : FloatExtLaws FL FX)
        (evaluate_assembly :
           dict (list Assembly) -> dict (list Assembly) -> F -> F ->
           option (list (nat * nat)) -> oks_scores)
        (pcutoff : F) :
  (forall (pred ground_truth : dict array3) oks_sigma margin symmetric_kpts
          image keypoints_with_scores i idv k (r : row),
      NoDup (keys pred) ->
      (forall path kws, In (path, kws) pred -> three_columns kws) ->
      In (image, keypoints_with_scores) pred ->
      nth_error keypoints_with_scores i = Some idv ->
      nth_error idv k = Some r ->
      isnan (nth 2 r fnan) = true ->
      exists masked_pred keypoints idv',
        mask_predictions pred (Some pcutoff) [] = Ok masked_pred
        /\ compute_oks evaluate_assembly pred ground_truth oks_sigma margin
                       symmetric_kpts (Some pcutoff)
           = Ok (evaluate_assembly (build_assemblies masked_pred)
                                   (build_assemblies ground_truth)
                                   oks_sigma margin symmetric_kpts)
        /\ dict_get masked_pred image = Ok keypoints
        /\ nth_error keypoints i = Some idv'
        /\ nth_error idv' k = Some (firstn 2 r))
  /\ (forall (p1 p2 : list (F * F * F)) (g1 g2 : list (F * F)) p g,
         length p1 = length g1 -> length p2 = length g2 ->
         isnan (snd p) = true ->
         exists rmse rmse_p rmse',
           compute_rmse (p1 ++ p :: p2) (g1 ++ g :: g2) pcutoff
           = Ok (rmse, rmse_p)
           /\ compute_rmse (p1 ++ p2) (g1 ++ g2) pcutoff = Ok (rmse', rmse_p)).
Proof.
  split.
  - intros pred gt s m sym image kws i idv k r Hnd H3 Hin Hi Hk Hnan.
    assert (Hmask : mask_predictions pred (Some pcutoff) []
                    = Ok (map (fun item =>
                                 (fst item,
                                  map (map (masked_keypoint pcutoff)) (snd item)))
                              pred)).
    { rewrite (mask_predictions_fresh_keys pcutoff pred []);
        [reflexivity | exact Hnd | exact H3]. }
    eexists. exists (map (map (masked_keypoint pcutoff)) kws),
                    (map (masked_keypoint pcutoff) idv).
    split; [exact Hmask|]. split.
    { unfold compute_oks. rewrite Hmask. reflexivity. }
    split.
    { apply (nth_error_map_dict (map (map (masked_keypoint pcutoff)))
                                pred image kws Hnd Hin). }
    split.
    { exact (map_nth_error (map (masked_keypoint pcutoff)) i kws Hi). }
    transitivity (Some (masked_keypoint pcutoff r));
      [exact (map_nth_error (masked_keypoint pcutoff) k idv Hk)|].
    f_equal. unfold masked_keypoint. rewrite (fltb_nan_l _ pcutoff Hnan). reflexivity.
  - intros p1 p2 g1 g2 p g H1 H2 Hnan.
    do 3 eexists. split.
    + apply compute_rmse_rowwise. rewrite !length_app. simpl. lia.
    + rewrite compute_rmse_rowwise by (rewrite !length_app; lia).
      f_equal. f_equal. unfold spec_rmse_pcutoff.
      rewrite !combine_append by assumption.
      rewrite !filter_app. simpl combine. simpl filter.
      rewrite (nan_confidence_fails_cutoff pcutoff p g Hnan).
      reflexivity.
Qed.

(** One keypoint with a NaN confidence among two, and a pcutoff of 0.5: its
    coordinates (3, 4) reach the assemblies. *)
Lemma nan_confidence_kept_for_oks_dropped_for_rmse_witness :
  exists masked_pred keypoints idv',
    mask_predictions MoreExamples.nan_scored (Some (Examples.dec 5 1)) []
    = Ok masked_pred
    /\ compute_oks Examples.evaluator MoreExamples.nan_scored
                   Examples.ground_truth_xy default_oks_sigma default_margin
                   None (Some (Examples.dec 5 1))
       = Ok (Examples.evaluator (build_assemblies masked_pred)
                                (build_assemblies Examples.ground_truth_xy)
                                default_oks_sigma default_margin None)
    /\ dict_get masked_pred "img0" = Ok keypoints
    /\ nth_error keypoints 0 = Some idv'
    /\ nth_error idv' 1 = Some [Examples.num 3; Examples.num 4].
Proof.
  apply (proj1 (nan_confidence_kept_for_oks_dropped_for_rmse
                  binary64 binary64_laws binary64_ext binary64_ext_laws
                  Examples.evaluator (Examples.dec 5 1))
               MoreExamples.nan_scored Examples.ground_truth_xy
               default_oks_sigma default_margin None
               "img0"
               [[[Examples.num 1; Examples.num 2; Examples.dec 9 1];
                 [Examples.num 3; Examples.num 4; S754_nan]]]
               0
               [[Examples.num 1; Examples.num 2; Examples.dec 9 1];
                [Examples.num 3; Examples.num 4; S754_nan]]
               1 [Examples.num 3; Examples.num 4; S754_nan]).
  - repeat constructor. intros [].
  - intros path kws [E|[]]. injection E as <- <-.
    unfold three_columns. repeat constructor.
  - left. reflexivity.
  - reflexivity.
  - reflexivity.
  - reflexivity.
Defined.

(** ** [mask_invisible] and [align_predicted_individuals_to_gt] *)

Section MaskInvisibleFacts.
Context {FL : Float} {FX : FloatExt FL}.

Lemma assign_column_flags c v (f : row -> bool) (g : row -> row) (kp : array3) :
  assign_column c v (map (map g) kp) (map (map f) kp)
  = map (map (fun r => if f r then set_column c v (g r) else g r)) kp.
Proof.
  unfold assign_column. rewrite combine_map_both, map_map.
  apply map_ext. intros idv. simpl.
  rewrite combine_map_both, map_map. reflexivity.
Qed.

Lemma assign_column_flags_plain c v (f : row -> bool) (kp : array3) :
  assign_column c v kp (map (map f) kp)
  = map (map (fun r => if f r then set_column c v r else r)) kp.
Proof.
  unfold assign_column. rewrite combine_map_right, map_map.
  apply map_ext. intros idv. simpl.
  rewrite combine_map_right, map_map. reflexivity.
Qed.

Lemma masked_copy_flags v (f : row -> bool) (kp : array3) :
  masked_copy kp v (map (map f) kp)
  = map (map (fun r => if f r then set_column 1 v (set_column 0 v r) else r)) kp.
Proof.
  unfold masked_copy.
  rewrite (assign_column_flags_plain 0 v f kp).
  rewrite (assign_column_flags 1 v f
             (fun r => if f r then set_column 0 v r else r) kp).
  apply map_ext. intros idv. apply map_ext. intros r.
  destruct (f r); reflexivity.
Qed.

Lemma visible_or_mask_row v (r : row) :
  3 <= length r ->
  firstn 2 (if feqb (nth 2 r fnan) (of_int 0)
            then set_column 1 v (set_column 0 v r) else r)
  = visible_or_mask v r.
Proof.
  intros H. unfold visible_or_mask.
  destruct r as [|a [|b [|c r]]]; simpl in H; try lia.
  destruct (feqb _ _); reflexivity.
Qed.

Lemma mask_invisible_three_columns (kp : array3) v :
  three_columns kp ->
  mask_invisible kp v = Ok (map (map (visible_or_mask v)) kp).
Proof.
  intros H3. unfold mask_invisible, invisible.
  rewrite (flags_three_columns (fun x => feqb x (of_int 0)) kp H3). cbn [bind].
  rewrite (masked_copy_flags v (fun r => feqb (nth 2 r fnan) (of_int 0)) kp).
  unfold slice2. rewrite map_map. f_equal.
  apply map_ext_in. intros idv Hidv. rewrite map_map.
  apply map_ext_in. intros r Hr. apply visible_or_mask_row.
  unfold three_columns in H3. rewrite Forall_forall in H3.
  specialize (H3 idv Hidv). rewrite Forall_forall in H3. auto.
Qed.

Lemma mask_invisible_Ok (kp : array3) v masked :
  mask_invisible kp v = Ok masked -> three_columns kp.
Proof.
  intros H. unfold mask_invisible in H.
  apply bind_Ok_inv in H as (vis & Hvis & _).
  apply (flags_Ok (fun x => feqb x (of_int 0)) kp vis Hvis).
Qed.

(** X7.  On an array that holds a keypoint, [mask_invisible] returns exactly
    when the keypoints all hold a visibility value at index 2, and raises
    IndexError otherwise.  Its result has the individuals and keypoints of
    the input, two values per keypoint: the mask value twice where the
    visibility equals 0, the input's coordinates everywhere else. *)
Theorem mask_invisible_masks_exactly_the_invisible
        (keypoints : array3) (mask_value : F) :
  holds_a_keypoint keypoints ->
  (three_columns keypoints ->
   mask_invisible keypoints mask_value
   = Ok (map (map (visible_or_mask mask_value)) keypoints))
  /\ (forall masked, mask_invisible keypoints mask_value = Ok masked ->
        three_columns keypoints
        /\ length masked = length keypoints
        /\ Forall2 (fun idv idv' : array2 => length idv' = length idv)
                   keypoints masked
        /\ Forall (Forall (fun r : row => length r = 2)) masked)
  /\ (forall e, mask_invisible keypoints mask_value = Raise e -> e = IndexError).
Proof.
  intros _. split; [apply mask_invisible_three_columns|]. split.
  - intros masked H.
    assert (H3 := mask_invisible_Ok keypoints mask_value masked H).
    split; [exact H3|].
    rewrite (mask_invisible_three_columns keypoints mask_value H3) in H.
    injection H as <-.
    split; [apply length_map|]. split.
    + clear H3. induction keypoints as [|idv kp IH]; simpl; constructor.
      * apply length_map.
      * exact IH.
    + unfold three_columns in H3. rewrite Forall_forall in *.
      intros idv' Hin. apply in_map_iff in Hin as (idv & <- & Hidv).
      specialize (H3 idv Hidv). rewrite Forall_forall in *.
      intros r' Hr'. apply in_map_iff in Hr' as (r & <- & Hr).
      specialize (H3 r Hr). unfold visible_or_mask.
      destruct (feqb _ _); [reflexivity|].
      rewrite length_firstn. lia.
  - intros e H. unfold mask_invisible in H.
    destruct (invisible keypoints) as [vis|e'] eqn:E; [discriminate|].
    cbn [bind] in H. injection H as <-.
    apply (flags_error (fun x => feqb x (of_int 0)) keypoints e' E).
Qed.

(** X8.  [mask_invisible] works on a copy: run over the store it leaves
    every array it found as it was, its argument included, and returns a view
    of a fresh buffer, whose content is the masked array. *)
Theorem mask_invisible_writes_into_a_copy
        (keypoints : ref) (mask_value : F) (h : heap) (original : array3) :
  nth_error h keypoints = Some original ->
  three_columns original ->
  exists copy masked,
    mask_invisible_st keypoints mask_value h
    = Ok ({| base := length h; columns := 2 |}, h ++ [copy])
    /\ length h <> keypoints
    /\ nth_error (h ++ [copy]) keypoints = Some original
    /\ mask_invisible original mask_value = Ok masked
    /\ view_read {| base := length h; columns := 2 |} (h ++ [copy])
       = Ok (masked, h ++ [copy]).
Proof.
  intros Ha H3.
  exists (masked_copy original mask_value
                      (map (map (fun r => feqb (nth 2 r fnan) (of_int 0))) original)).
  eexists.
  assert (Hvis := flags_three_columns (fun x => feqb x (of_int 0)) original H3).
  split; [|split; [|split; [|split]]].
  - unfold mask_invisible_st.
    unfold st_bind at 1. unfold st_read at 1. rewrite Ha.
    unfold st_bind at 1. unfold st_alloc at 1.
    unfold st_bind at 1. unfold st_read at 1. rewrite nth_error_fresh.
    unfold st_bind at 1. unfold st_lift, invisible. rewrite Hvis.
    unfold st_bind at 1. rewrite st_write_fresh.
    unfold st_bind at 1. unfold st_read at 1. rewrite nth_error_fresh.
    unfold st_bind at 1. rewrite st_write_fresh.
    reflexivity.
  - intros E. rewrite <- E in Ha.
    assert (length h < length h) by (apply nth_error_Some; congruence). lia.
  - apply nth_error_ext. exact Ha.
  - unfold mask_invisible, invisible. rewrite Hvis. reflexivity.
  - unfold view_read, st_bind, st_read. cbn [base columns].
    rewrite nth_error_fresh. reflexivity.
Qed.

End MaskInvisibleFacts.

Lemma mask_invisible_masks_exactly_the_invisible_witness :
  @mask_invisible binary64 binary64_ext
    [[[Examples.num 1; Examples.num 2; Examples.num 0];
      [Examples.num 3; Examples.num 4; Examples.num 1]]]
    (Examples.num (-1))
  = Ok [[[Examples.num (-1); Examples.num (-1)]; [Examples.num 3; Examples.num 4]]].
Proof.
  apply (proj1 (@mask_invisible_masks_exactly_the_invisible
                  binary64 binary64_ext
                  [[[Examples.num 1; Examples.num 2; Examples.num 0];
                    [Examples.num 3; Examples.num 4; Examples.num 1]]]
                  (Examples.num (-1))
                  (ex_intro _ _ (ex_intro _ _ (conj (or_introl eq_refl)
                                                    (or_introl eq_refl)))))).
  unfold three_columns. repeat constructor.
Defined.

Lemma mask_invisible_writes_into_a_copy_witness :
  exists copy masked,
    @mask_invisible_st binary64 binary64_ext 1 (Examples.num (-1)) Examples.store
    = Ok ({| base := 2; columns := 2 |}, Examples.store ++ [copy])
    /\ 2 <> 1
    /\ nth_error (Examples.store ++ [copy]) 1 = Some Examples.gt_image_xyv
    /\ mask_invisible Examples.gt_image_xyv (Examples.num (-1)) = Ok masked
    /\ view_read {| base := 2; columns := 2 |} (Examples.store ++ [copy])
       = Ok (masked, Examples.store ++ [copy]).
Proof.
  apply (@mask_invisible_writes_into_a_copy
           binary64 binary64_ext 1 (Examples.num (-1)) Examples.store
           Examples.gt_image_xyv eq_refl).
  unfold three_columns. repeat constructor.
Defined.

Section AlignFacts.
Context {FL : Float} {FX : FloatExt FL}.

Variable rmse_match_prediction_to_gt : array3 -> array3 -> list nat.


Lemma matcher_ground_truth_three_columns (gt : array3) :
  three_columns gt ->
  matcher_ground_truth gt
  = Ok (map (map (map (nan_to_num (of_int (-1)))))
            (map (map (visible_or_mask (of_int (-1)))) gt)).
Proof.
  intros H3. unfold matcher_ground_truth.
  rewrite (mask_invisible_three_columns gt (of_int (-1)) H3). reflexivity.
Qed.


Lemma take_individuals_permutation (pose : array3) (ms : list nat) :
  Permutation ms (seq 0 (length pose)) ->
  exists out, take_individuals pose ms = Ok out /\ Permutation out pose.
Proof.
  intros Hperm. exists (map (fun m => nth m pose []) ms). split.
  - unfold take_individuals. apply mapM_pure. intros m Hm.
    apply (Permutation_in _ Hperm) in Hm. apply in_seq in Hm.
    rewrite (nth_error_nth' pose []) by lia. reflexivity.
  - rewrite (Permutation_map (fun m => nth m pose []) Hperm).
    rewrite map_nth_seq. reflexivity.
Qed.

Lemma align_loop_permutes (ground_truth : dict array3) :
  (forall pose g, Permutation (rmse_match_prediction_to_gt pose g)
                              (seq 0 (length pose))) ->
  forall predictions acc,
    NoDup (keys acc ++ keys predictions) ->
    (forall image pose, In (image, pose) predictions ->
        exists g, dict_get ground_truth image = Ok g /\ three_columns g) ->
    exists outs,
      align_loop rmse_match_prediction_to_gt predictions ground_truth acc
      = Ok (acc ++ outs)
      /\ dict_rel (fun pose out : array3 => Permutation out pose) predictions outs.
Proof.
  intros Hmatch. induction predictions as [|[image pose] rest IH];
    intros acc Hnd Hgt; cbn [align_loop].
  - exists []. rewrite app_nil_r. split; [reflexivity | constructor].
  - destruct (Hgt image pose (or_introl eq_refl)) as (g & -> & H3). cbn [bind].
    rewrite (matcher_ground_truth_three_columns g H3). cbn [bind].
    destruct (take_individuals_permutation pose _ (Hmatch pose
                (map (map (map (nan_to_num (of_int (-1)))))
                     (map (map (visible_or_mask (of_int (-1)))) g))))
      as (out & -> & Hperm).
    cbn [bind]. simpl keys in Hnd.
    rewrite dict_set_fresh.
    2:{ intros Hin. apply NoDup_remove_2 in Hnd. apply Hnd.
        apply in_or_app. left. exact Hin. }
    destruct (IH (acc ++ [(image, out)])) as (outs & -> & Hrel).
    + unfold keys in *. rewrite map_app. simpl. rewrite <- app_assoc. exact Hnd.
    + intros i p Hin. eapply Hgt. right. exact Hin.
    + exists ((image, out) :: outs). rewrite <- app_assoc. split; [reflexivity|].
      constructor; [split; [reflexivity | exact Hperm] | exact Hrel].
Qed.

(** X10.  When the matcher returns, for every image, a permutation of the
    individuals' indices, [align_predicted_individuals_to_gt] returns the
    predictions of the same images in the same order, each with its
    individuals permuted and none lost or repeated; this needs every
    prediction image to be annotated, with a visibility value per keypoint. *)
Theorem align_permutes_individuals
        (predictions ground_truth : dict array3) :
  (forall pose g, Permutation (rmse_match_prediction_to_gt pose g)
                              (seq 0 (length pose))) ->
  NoDup (keys predictions) ->
  (forall image pose, In (image, pose) predictions ->
      exists g, dict_get ground_truth image = Ok g /\ three_columns g) ->
  exists matched_poses,
    align_predicted_individuals_to_gt rmse_match_prediction_to_gt
                                      predictions ground_truth
    = Ok matched_poses
    /\ keys matched_poses = keys predictions
    /\ dict_rel (fun pose out : array3 => Permutation out pose)
                predictions matched_poses.
Proof.
  intros Hmatch Hnd Hgt.
  destruct (align_loop_permutes ground_truth Hmatch predictions [] Hnd Hgt)
    as (outs & Hrun & Hrel).
  exists outs. split; [exact Hrun|]. split; [|exact Hrel].
  symmetry. eapply dict_rel_keys; eauto.
Qed.

Lemma align_loop_app (ground_truth : dict array3) p1 p2 :
  forall acc,
    align_loop rmse_match_prediction_to_gt (p1 ++ p2) ground_truth acc
    = (acc' <- align_loop rmse_match_prediction_to_gt p1 ground_truth acc ;;
       align_loop rmse_match_prediction_to_gt p2 ground_truth acc').
Proof.
  induction p1 as [|[image pose] p1 IH]; intros acc; cbn [align_loop app];
    [reflexivity|].
  destruct (dict_get ground_truth image) as [g|e]; cbn [bind]; [|reflexivity].
  destruct (matcher_ground_truth g) as [gp|e]; cbn [bind]; [|reflexivity].
  destruct (take_individuals pose _) as [out|e]; cbn [bind]; [|reflexivity].
  apply IH.
Qed.

Lemma align_loop_ext (gt gt' : dict array3) predictions :
  (forall k, In k (keys predictions) -> dict_get gt k = dict_get gt' k) ->
  forall acc,
    align_loop rmse_match_prediction_to_gt predictions gt acc
    = align_loop rmse_match_prediction_to_gt predictions gt' acc.
Proof.
  induction predictions as [|[image pose] rest IH]; intros H acc;
    cbn [align_loop]; [reflexivity|].
  rewrite <- (H image (or_introl eq_refl)).
  destruct (dict_get gt image) as [g|e]; cbn [bind]; [|reflexivity].
  destruct (matcher_ground_truth g) as [gp|e]; cbn [bind]; [|reflexivity].
  destruct (take_individuals pose _) as [out|e]; cbn [bind]; [|reflexivity].
  apply IH. intros k Hk. apply H. right. exact Hk.
Qed.

(** X11.  [align_predicted_individuals_to_gt] looks the ground truth up by
    the prediction's image keys and checks no counts: the first prediction
    image without annotation raises KeyError with that key, once the images
    before it have been aligned; annotations of other images, and the order
    of the ground truth, change nothing. *)
Theorem align_looks_up_prediction_images
        (aligned_before : dict array3) (before after : dict array3)
        (image : string) (pose : array3)
        (ground_truth ground_truth' : dict array3) (predictions : dict array3) :
  (align_predicted_individuals_to_gt rmse_match_prediction_to_gt before ground_truth
   = Ok aligned_before ->
   ~ In image (keys ground_truth) ->
   align_predicted_individuals_to_gt rmse_match_prediction_to_gt
                                     (before ++ (image, pose) :: after) ground_truth
   = Raise (KeyError image))
  /\ ((forall k, In k (keys predictions) ->
                 dict_get ground_truth k = dict_get ground_truth' k) ->
      align_predicted_individuals_to_gt rmse_match_prediction_to_gt
                                        predictions ground_truth
      = align_predicted_individuals_to_gt rmse_match_prediction_to_gt
                                          predictions ground_truth').
Proof.
  split.
  - intros Hbefore Hk. unfold align_predicted_individuals_to_gt in *.
    rewrite align_loop_app, Hbefore. cbn [bind align_loop].
    rewrite (dict_get_missing ground_truth image Hk). reflexivity.
  - intros H. apply align_loop_ext. exact H.
Qed.

End AlignFacts.


Lemma align_permutes_individuals_witness :
  exists matched_poses,
    align_predicted_individuals_to_gt MoreExamples.reversing_matcher
                                      MoreExamples.two_individuals
                                      MoreExamples.two_annotations
    = Ok matched_poses
    /\ keys matched_poses = keys MoreExamples.two_individuals
    /\ dict_rel (fun pose out : array3 => Permutation out pose)
                MoreExamples.two_individuals matched_poses.
Proof.
  apply (@align_permutes_individuals
           binary64 binary64_ext MoreExamples.reversing_matcher
           MoreExamples.two_individuals MoreExamples.two_annotations).
  - intros pose g. unfold MoreExamples.reversing_matcher.
    symmetry. apply Permutation_rev.
  - repeat constructor. simpl. tauto.
  - intros image pose [E|[]]. injection E as <- <-.
    eexists. split; [reflexivity|]. unfold three_columns. repeat constructor.
Defined.

Lemma align_looks_up_prediction_images_witness :
  align_predicted_individuals_to_gt MoreExamples.reversing_matcher
    (MoreExamples.two_individuals ++ ("img1", []) :: [])
    MoreExamples.two_annotations
  = Raise (KeyError "img1").
Proof.
  apply (proj1 (@align_looks_up_prediction_images
                  binary64 binary64_ext MoreExamples.reversing_matcher
                  _ MoreExamples.two_individuals [] "img1" []
                  MoreExamples.two_annotations MoreExamples.two_annotations [])
               eq_refl).
  intros [H|[]]. discriminate H.
Defined.

(** * Further properties of the predictor *)

Section PredictorErrorFacts.
Context {FL : Float}.
Variable topk : list F -> nat -> list nat.
Variable sigmoid : F -> F.

Lemma get_top_values_too_many (heatmap : tensor F) b_ h_ w_ j_ n :
  well_formed heatmap -> shape heatmap = [b_; h_; w_; j_] -> h_ * w_ < n ->
  get_top_values topk heatmap n
  = Raise (RuntimeError "selected index k out of range").
Proof.
  intros Hwf Hsh Hn. unfold get_top_values. rewrite Hsh.
  rewrite (reshape_total heatmap [b_; w_ * h_; j_] Hwf)
    by (rewrite Hsh; simpl; nia).
  cbn [bind]. unfold topk_dim1. cbn [shape].
  destruct (Nat.leb_spec n (w_ * h_)); [lia|]. reflexivity.
Qed.

(** The heatmap as [forward] hands it on: activated, channels last. *)
Lemma forward_heatmap_prepared (self : HeatmapPredictor) (heatmap : tensor F)
      b_ j_ h_ w_ :
  well_formed heatmap -> shape heatmap = [b_; j_; h_; w_] ->
  exists permuted,
    permute (if apply_sigmoid self then tmap sigmoid heatmap else heatmap)
            [0; 2; 3; 1] = Ok permuted
    /\ shape permuted = [b_; h_; w_; j_] /\ well_formed permuted.
Proof.
  intros Hwf Hsh.
  assert (Hact : well_formed (if apply_sigmoid self
                              then tmap sigmoid heatmap else heatmap)
                 /\ shape (if apply_sigmoid self
                           then tmap sigmoid heatmap else heatmap)
                    = [b_; j_; h_; w_]).
  { destruct (apply_sigmoid self); [|auto].
    split; [apply well_formed_tmap, Hwf | exact Hsh]. }
  destruct Hact as (Hwa & Hsa).
  destruct (permute_0231 _ b_ j_ h_ w_ Hwa Hsa) as (permuted & Hp & Hps & Hpw & _).
  eauto.
Qed.

(** X12.  Asking for more candidates than the heatmap has cells fails:
    [get_top_values], [get_pose_prediction] and [forward] raise the
    RuntimeError of [torch.topk]; no shorter result is returned. *)
Theorem more_candidates_than_cells_raises
        (heatmap : tensor F) (b_ h_ w_ j_ n : nat) :
  well_formed heatmap -> h_ * w_ < n ->
  (shape heatmap = [b_; h_; w_; j_] ->
   get_top_values topk heatmap n
   = Raise (RuntimeError "selected index k out of range")
   /\ forall locref scale_factors,
       get_pose_prediction topk heatmap locref scale_factors n
       = Raise (RuntimeError "selected index k out of range"))
  /\ (shape heatmap = [b_; j_; h_; w_] ->
      forall (self : HeatmapPredictor) stride (outputs : dict (tensor F)),
        dict_get outputs "heatmap" = Ok heatmap ->
        (location_refinement self = true ->
         exists locref, dict_get outputs "locref" = Ok locref
                        /\ well_formed locref
                        /\ shape locref = [b_; 2 * j_; h_; w_]) ->
        forward topk sigmoid self stride outputs n
        = Raise (RuntimeError "selected index k out of range")).
Proof.
  intros Hwf Hn. split.
  - intros Hsh.
    assert (Htop := get_top_values_too_many heatmap b_ h_ w_ j_ n Hwf Hsh Hn).
    split; [exact Htop|].
    intros locref scale_factors. unfold get_pose_prediction.
    rewrite Htop. reflexivity.
  - intros Hsh self stride outputs Hget Hlr.
    unfold forward. rewrite Hget. cbn [bind].
    destruct (forward_heatmap_prepared self heatmap b_ j_ h_ w_ Hwf Hsh)
      as (permuted & -> & Hps & Hpw).
    cbn [bind]. rewrite Hps.
    assert (Hloc : exists locrefs,
               (if location_refinement self then
                  locrefs <- dict_get outputs "locref" ;;
                  locrefs <- permute locrefs [0; 2; 3; 1] ;;
                  locrefs <- reshape locrefs [b_; h_; w_; j_; 2] ;;
                  Ok (Some (tmap (fun v => fmul v (locref_std self)) locrefs))
                else Ok None) = Ok locrefs).
    { destruct (location_refinement self); [|eauto].
      destruct (Hlr eq_refl) as (locref & Hgl & Hwl & Hsl).
      destruct (locref_prepared locref (locref_std self) b_ j_ h_ w_ Hwl Hsl)
        as (lp & Hlp & Hrs & _).
      rewrite Hgl. cbn [bind]. rewrite Hlp. cbn [bind]. rewrite Hrs.
      cbn [bind]. eauto. }
    destruct Hloc as (locrefs & ->). cbn [bind].
    unfold get_pose_prediction.
    rewrite (get_top_values_too_many permuted b_ h_ w_ j_ n Hpw Hps Hn).
    reflexivity.
Qed.

(** X13.  [forward] reads the outputs by key: without a "heatmap" entry it
    raises KeyError; the "locref" entry is required when location refinement
    is on, and never read when it is off. *)
Theorem forward_reads_locref_only_when_refining
        (self : HeatmapPredictor) (stride : F) (num_outputs : nat)
        (outputs outputs' : dict (tensor F)) :
  (~ In "heatmap" (keys outputs) ->
   forward topk sigmoid self stride outputs num_outputs
   = Raise (KeyError "heatmap"))
  /\ (forall heatmap b_ j_ h_ w_,
         location_refinement self = true ->
         dict_get outputs "heatmap" = Ok heatmap ->
         well_formed heatmap -> shape heatmap = [b_; j_; h_; w_] ->
         ~ In "locref" (keys outputs) ->
         forward topk sigmoid self stride outputs num_outputs
         = Raise (KeyError "locref"))
  /\ (location_refinement self = false ->
      dict_get outputs "heatmap" = dict_get outputs' "heatmap" ->
      forward topk sigmoid self stride outputs num_outputs
      = forward topk sigmoid self stride outputs' num_outputs).
Proof.
  split; [|split].
  - intros Hk. unfold forward.
    rewrite (dict_get_missing outputs "heatmap" Hk). reflexivity.
  - intros heatmap b_ j_ h_ w_ Hlr Hget Hwf Hsh Hk.
    unfold forward. rewrite Hget. cbn [bind].
    destruct (forward_heatmap_prepared self heatmap b_ j_ h_ w_ Hwf Hsh)
      as (permuted & -> & Hps & Hpw).
    cbn [bind]. rewrite Hps, Hlr.
    rewrite (dict_get_missing outputs "locref" Hk). reflexivity.
  - intros Hlr Hsame. unfold forward. rewrite Hsame, Hlr. reflexivity.
Qed.

End PredictorErrorFacts.

Section PredictorShapeFacts.
Context {FL : Float}.
Variable topk : list F -> nat -> list nat.
Hypothesis topk_ok : topk_contract topk.
Variable sigmoid : F -> F.

Lemma clip_total (self : HeatmapPredictor) (pose : tensor F) :
  well_formed pose ->
  exists poses,
    (if clip_scores self then
       tabulate (shape pose)
         (fun idx =>
            v <- tget pose idx ;;
            Ok (if nth 3 idx 0 =? 2 then clip01 v else v))
     else Ok pose) = Ok poses
    /\ shape poses = shape pose.
Proof.
  intros Hwp. destruct (clip_scores self); [|eauto].
  match goal with
  | |- exists poses, tabulate ?sh ?f = Ok poses /\ _ =>
      destruct (tabulate_total sh f) as (poses & Hposes)
  end.
  { intros idx o Ho. destruct (tget_in_range pose idx o Hwp Ho) as (v & ->).
    cbn [bind]. eauto. }
  exists poses. split; [exact Hposes|].
  apply (tabulate_spec _ _ _ Hposes).
Qed.

(** X14.  Of the refinement field, [forward] checks the number of elements
    only: a four-axis "locref" output is rejected by the reshape exactly
    when it does not hold two values per heatmap cell and joint; one that
    does is accepted whatever its axis lengths. *)
Theorem forward_checks_locref_element_count
        (self : HeatmapPredictor) (stride : F) (outputs : dict (tensor F))
        (heatmap locref : tensor F) (n b_ j_ h_ w_ lb lc lh lw : nat) :
  location_refinement self = true ->
  dict_get outputs "heatmap" = Ok heatmap ->
  well_formed heatmap -> shape heatmap = [b_; j_; h_; w_] ->
  dict_get outputs "locref" = Ok locref ->
  well_formed locref -> shape locref = [lb; lc; lh; lw] ->
  (lb * lc * lh * lw <> b_ * j_ * h_ * w_ * 2 ->
   forward topk sigmoid self stride outputs n
   = Raise (RuntimeError "shape is invalid for input size"))
  /\ (lb * lc * lh * lw = b_ * j_ * h_ * w_ * 2 -> n <= h_ * w_ ->
      exists poses,
        forward topk sigmoid self stride outputs n = Ok [("poses", poses)]
        /\ shape poses = [b_; n; j_; 3]).
Proof.
  intros Hlr Hget Hwf Hsh Hgl Hwl Hsl.
  destruct (forward_heatmap_prepared sigmoid self heatmap b_ j_ h_ w_ Hwf Hsh)
    as (permuted & Hp & Hps & Hpw).
  destruct (permute_0231 locref lb lc lh lw Hwl Hsl)
    as (lp & Hlp & Hlps & Hlpw & _).
  assert (Hlen : length (data lp) = lb * lc * lh * lw).
  { unfold well_formed in Hlpw. rewrite Hlpw, Hlps. simpl. nia. }
  assert (Hnum : numel [b_; h_; w_; j_; 2] = b_ * j_ * h_ * w_ * 2)
    by (simpl; nia).
  split.
  - intros Hne. unfold forward. rewrite Hget. cbn [bind].
    rewrite Hp. cbn [bind]. rewrite Hps, Hlr, Hgl. cbn [bind].
    rewrite Hlp. cbn [bind]. unfold reshape.
    destruct (Nat.eqb_spec (numel [b_; h_; w_; j_; 2]) (length (data lp)));
      [lia|]. reflexivity.
  - intros Heq Hn. unfold forward. rewrite Hget. cbn [bind].
    rewrite Hp. cbn [bind]. rewrite Hps, Hlr, Hgl. cbn [bind].
    rewrite Hlp. cbn [bind]. unfold reshape.
    destruct (Nat.eqb_spec (numel [b_; h_; w_; j_; 2]) (length (data lp)));
      [|lia]. cbn [bind].
    match goal with
    | |- context [get_pose_prediction _ _ (Some ?lr) _ _] =>
        assert (Hfit : locref_fits b_ h_ w_ j_ (Some lr))
    end.
    { simpl. split; [|reflexivity].
      apply well_formed_tmap. unfold well_formed. cbn [shape data].
      symmetry. assumption. }
    destruct (get_pose_prediction_spec topk topk_ok permuted _ stride stride
                                       b_ h_ w_ j_ n Hpw Hps Hn Hfit)
      as (y & x & pose & _ & Hpose & Hshp & Hwp & _).
    rewrite Hpose. cbn [bind].
    destruct (clip_total self pose Hwp) as (poses & -> & Hs).
    cbn [bind]. exists poses. split; [reflexivity|]. congruence.
Qed.



Lemma flat_of_grid (w gy gx : nat) :
  gx < w -> (gy * w + gx) / w = gy /\ (gy * w + gx) mod w = gx.
Proof.
  intros Hx. split.
  - rewrite Nat.div_add_l by lia. rewrite Nat.div_small by lia. lia.
  - rewrite Nat.add_comm, Nat.Div0.mod_add. apply Nat.mod_small. exact Hx.
Qed.

(** X16.  The candidates of one image and joint are pairwise different
    cells of the grid; when as many candidates as cells are asked for, every
    cell is a candidate. *)
Theorem get_top_values_candidates_are_distinct_cells
        (heatmap : tensor F) (b_ h_ w_ j_ n_top : nat) :
  well_formed heatmap -> shape heatmap = [b_; h_; w_; j_] -> n_top <= h_ * w_ ->
  exists y x,
    get_top_values topk heatmap n_top = Ok (y, x)
    /\ forall b j, b < b_ -> j < j_ ->
       (forall r s gy gx,
           r < n_top -> s < n_top ->
           tget y [b; r; j] = Ok gy -> tget x [b; r; j] = Ok gx ->
           tget y [b; s; j] = Ok gy -> tget x [b; s; j] = Ok gx ->
           r = s)
       /\ (n_top = h_ * w_ ->
           forall gy gx, gy < h_ -> gx < w_ ->
             exists r, r < n_top
                       /\ tget y [b; r; j] = Ok gy /\ tget x [b; r; j] = Ok gx).
Proof.
  intros Hwf Hsh Hn.
  destruct (get_top_values_spec topk topk_ok heatmap b_ h_ w_ j_ n_top Hwf Hsh Hn)
    as (y & x & Hrun & _ & _ & _ & _ & Hslices).
  exists y, x. split; [exact Hrun|].
  intros b j Hb Hj.
  destruct (Hslices b j Hb Hj) as (scores & Hlen & _ & Hsel).
  destruct (topk_ok scores n_top) as (Hl & Hnd & Hrange & _); [lia|].
  split.
  - intros r s gy gx Hr Hs Hyr Hxr Hys Hxs.
    destruct (Hsel r Hr) as (i & Hi & Hilt & Hyi & Hxi).
    destruct (Hsel s Hs) as (i' & Hi' & Hilt' & Hyi' & Hxi').
    assert (Hii : i = i').
    { destruct (grid_of_flat h_ w_ i Hilt) as (_ & _ & Ei).
      destruct (grid_of_flat h_ w_ i' Hilt') as (_ & _ & Ei').
      assert (i / w_ = i' / w_) by congruence.
      assert (i mod w_ = i' mod w_) by congruence.
      lia. }
    subst i'.
    apply (proj1 (NoDup_nth_error (topk scores n_top)) Hnd r s); [lia|].
    congruence.
  - intros Hall gy gx Hgy Hgx.
    assert (Hin : In (gy * w_ + gx) (topk scores n_top)).
    { apply (NoDup_length_incl Hnd (l' := seq 0 (h_ * w_))).
      - rewrite length_seq. lia.
      - intros i Hi. apply in_seq. specialize (Hrange i Hi). lia.
      - apply in_seq. nia. }
    apply In_nth_error in Hin as (r & Hr).
    assert (Hrlt : r < n_top).
    { rewrite <- Hl. apply nth_error_Some. congruence. }
    exists r. split; [exact Hrlt|].
    destruct (Hsel r Hrlt) as (i & Hi & _ & Hyi & Hxi).
    assert (i = gy * w_ + gx) by congruence. subst i.
    destruct (flat_of_grid w_ gy gx Hgx) as (Ed & Em).
    rewrite Ed in Hyi. rewrite Em in Hxi. auto.
Qed.

(** X17.  The candidates of one image and joint depend on the heatmap values
    of that image and joint only: two heatmaps of one shape that agree there
    give the same candidates there, whatever they hold elsewhere. *)
Theorem get_top_values_slices_are_independent
        (heatmap heatmap' : tensor F) (b_ h_ w_ j_ n_top b j : nat) :
  well_formed heatmap -> shape heatmap = [b_; h_; w_; j_] ->
  well_formed heatmap' -> shape heatmap' = [b_; h_; w_; j_] ->
  n_top <= h_ * w_ -> b < b_ -> j < j_ ->
  (forall gy gx, gy < h_ -> gx < w_ ->
                 tget heatmap [b; gy; gx; j] = tget heatmap' [b; gy; gx; j]) ->
  exists y x y' x',
    get_top_values topk heatmap n_top = Ok (y, x)
    /\ get_top_values topk heatmap' n_top = Ok (y', x')
    /\ forall r, r < n_top ->
                 tget y [b; r; j] = tget y' [b; r; j]
                 /\ tget x [b; r; j] = tget x' [b; r; j].
Proof.
  intros Hwf Hsh Hwf' Hsh' Hn Hb Hj Hsame.
  destruct (get_top_values_spec topk topk_ok heatmap b_ h_ w_ j_ n_top Hwf Hsh Hn)
    as (y & x & Hrun & _ & _ & _ & _ & Hslices).
  destruct (get_top_values_spec topk topk_ok heatmap' b_ h_ w_ j_ n_top
                                Hwf' Hsh' Hn)
    as (y' & x' & Hrun' & _ & _ & _ & _ & Hslices').
  exists y, x, y', x'. split; [exact Hrun|]. split; [exact Hrun'|].
  destruct (Hslices b j Hb Hj) as (scores & Hlen & Hcol & Hsel).
  destruct (Hslices' b j Hb Hj) as (scores' & Hlen' & Hcol' & Hsel').
  assert (Heq : scores = scores').
  { apply List.nth_error_ext. intros i.
    destruct (Nat.lt_ge_cases i (h_ * w_)) as [Hi|Hi].
    - destruct (Hcol i Hi) as (v & Hv & Hg).
      destruct (Hcol' i Hi) as (v' & Hv' & Hg').
      destruct (grid_of_flat h_ w_ i Hi) as (Hy & Hx & _).
      rewrite (Hsame _ _ Hy Hx) in Hg. congruence.
    - rewrite (proj2 (nth_error_None scores i)) by lia.
      rewrite (proj2 (nth_error_None scores' i)) by lia. reflexivity. }
  subst scores'.
  intros r Hr.
  destruct (Hsel r Hr) as (i & Hi & _ & Hyi & Hxi).
  destruct (Hsel' r Hr) as (i' & Hi' & _ & Hyi' & Hxi').
  assert (i = i') by congruence. subst i'.
  split; congruence.
Qed.

End PredictorShapeFacts.

(** Seven candidates asked of [Examples.heatmap], read as (B, H, W, J) =
    (1, 2, 3, 4) with its six cells. *)
Lemma more_candidates_than_cells_raises_witness :
  get_top_values topk_ref Examples.heatmap 7
  = Raise (RuntimeError "selected index k out of range").
Proof.
  exact (proj1 (proj1 (@more_candidates_than_cells_raises
                         binary64 topk_ref Examples.identity
                         Examples.heatmap 1 2 3 4 7
                         eq_refl (proj1 (Nat.ltb_lt (2 * 3) 7) eq_refl))
                      eq_refl)).
Defined.

Lemma forward_reads_locref_only_when_refining_witness :
  forward topk_ref Examples.identity MoreExamples.refining_predictor
          (Examples.num 8) [("heatmap", Examples.heatmap)] 2
  = Raise (KeyError "locref").
Proof.
  apply (proj1 (proj2 (@forward_reads_locref_only_when_refining
                         binary64 topk_ref Examples.identity
                         MoreExamples.refining_predictor (Examples.num 8) 2
                         [("heatmap", Examples.heatmap)] []))
               Examples.heatmap 1 2 3 4 eq_refl eq_refl eq_refl eq_refl).
  intros [H|[]]. discriminate H.
Defined.

(** A refinement field of shape (1, 4, 4, 3) for a heatmap of shape
    (1, 2, 3, 4): accepted, both have 48 elements. *)
Lemma forward_checks_locref_element_count_witness :
  exists poses,
    forward topk_ref Examples.identity MoreExamples.refining_predictor
            (Examples.num 8)
            [("heatmap", Examples.heatmap);
             ("locref", MoreExamples.locref_exchanged)] 2
    = Ok [("poses", poses)]
    /\ shape poses = [1; 2; 2; 3].
Proof.
  exact (proj2 (@forward_checks_locref_element_count
                  binary64 topk_ref (topk_ref_contract binary64 binary64_laws)
                  Examples.identity MoreExamples.refining_predictor
                  (Examples.num 8)
                  [("heatmap", Examples.heatmap);
                   ("locref", MoreExamples.locref_exchanged)]
                  Examples.heatmap MoreExamples.locref_exchanged
                  2 1 2 3 4 1 4 4 3
                  eq_refl eq_refl eq_refl eq_refl eq_refl eq_refl eq_refl)
               eq_refl (proj1 (Nat.leb_le 2 (3 * 4)) eq_refl)).
Defined.


(** All six cells of each slice of [Examples.heatmap], read as
    (B, H, W, J) = (1, 2, 3, 4). *)
Lemma get_top_values_candidates_are_distinct_cells_witness :
  exists y x,
    get_top_values topk_ref Examples.heatmap 6 = Ok (y, x)
    /\ forall b j, b < 1 -> j < 4 ->
       (forall r s gy gx,
           r < 6 -> s < 6 ->
           tget y [b; r; j] = Ok gy -> tget x [b; r; j] = Ok gx ->
           tget y [b; s; j] = Ok gy -> tget x [b; s; j] = Ok gx ->
           r = s)
       /\ (6 = 2 * 3 ->
           forall gy gx, gy < 2 -> gx < 3 ->
             exists r, r < 6
                       /\ tget y [b; r; j] = Ok gy /\ tget x [b; r; j] = Ok gx).
Proof.
  exact (@get_top_values_candidates_are_distinct_cells
           binary64 topk_ref (topk_ref_contract binary64 binary64_laws)
           Examples.heatmap 1 2 3 4 6 eq_refl eq_refl
           (proj1 (Nat.leb_le 6 (2 * 3)) eq_refl)).
Defined.

Lemma get_top_values_slices_are_independent_witness :
  exists y x y' x',
    get_top_values topk_ref Examples.heatmap 2 = Ok (y, x)
    /\ get_top_values topk_ref MoreExamples.heatmap_other 2 = Ok (y', x')
    /\ forall r, r < 2 ->
                 tget y [0; r; 0] = tget y' [0; r; 0]
                 /\ tget x [0; r; 0] = tget x' [0; r; 0].
Proof.
  apply (@get_top_values_slices_are_independent
           binary64 topk_ref (topk_ref_contract binary64 binary64_laws)
           Examples.heatmap MoreExamples.heatmap_other 1 2 3 4 2 0 0
           eq_refl eq_refl eq_refl eq_refl
           (proj1 (Nat.leb_le 2 (2 * 3)) eq_refl)
           (proj1 (Nat.ltb_lt 0 1) eq_refl) (proj1 (Nat.ltb_lt 0 4) eq_refl)).
  intros gy gx Hgy Hgx.
  destruct gy as [|[|gy]]; [| |lia];
    (destruct gx as [|[|[|gx]]]; [| | |lia]); reflexivity.
Defined.

(** * Further properties of [get_scores] and [build_assemblies] *)

(** X18.  Unique bodyparts enter the RMSE only: their rows are appended to
    the rows of the other bodyparts, only the two totals have to agree, and
    the four OKS scores are those of the predictions and the ground truth
    alone.  Unique predictions given without unique ground truth raise
    TypeError. *)
Theorem get_scores_unique_bodyparts_enter_rmse_only
        (FL : Float)
        (evaluate_assembly :
           dict (list Assembly) -> dict (list Assembly) -> F -> F ->
           option (list (nat * nat)) -> oks_scores)
        (poses ground_truth unique_bodypart_poses : dict array3)
        (pcutoff : F) (P UP : list (F * F * F)) (G : list (F * F)) :
  length poses = length ground_truth ->
  stacked_rows3 poses (keys poses) = Ok P ->
  stacked_rows2 ground_truth (keys poses) = Ok G ->
  stacked_rows3 unique_bodypart_poses (keys poses) = Ok UP ->
  get_scores evaluate_assembly poses ground_truth
             (Some unique_bodypart_poses) None pcutoff
  = Raise (TypeError "'NoneType' object is not subscriptable")
  /\ forall unique_bodypart_gt UG,
      stacked_rows2 unique_bodypart_gt (keys poses) = Ok UG ->
      length (P ++ UP) = length (G ++ UG) ->
      (forall path kws, In (path, kws) poses -> three_columns kws) ->
      exists scores oks oks_pcutoff,
        get_scores evaluate_assembly poses ground_truth
                   (Some unique_bodypart_poses) (Some unique_bodypart_gt) pcutoff
        = Ok scores
        /\ dict_get scores "rmse" = Ok (spec_rmse (P ++ UP) (G ++ UG))
        /\ dict_get scores "rmse_pcutoff"
           = Ok (spec_rmse_pcutoff (P ++ UP) (G ++ UG) pcutoff)
        /\ compute_oks evaluate_assembly poses ground_truth default_oks_sigma
                       default_margin None None = Ok oks
        /\ compute_oks evaluate_assembly poses ground_truth default_oks_sigma
                       default_margin None (Some pcutoff) = Ok oks_pcutoff
        /\ dict_get scores "mAP" = Ok (fmul (of_int 100) (mAP oks))
        /\ dict_get scores "mAR" = Ok (fmul (of_int 100) (mAR oks))
        /\ dict_get scores "mAP_pcutoff"
           = Ok (fmul (of_int 100) (mAP oks_pcutoff))
        /\ dict_get scores "mAR_pcutoff"
           = Ok (fmul (of_int 100) (mAR oks_pcutoff)).
Proof.
  intros Hlen HP HG HUP. split.
  - rewrite (get_scores_guard_passed evaluate_assembly _ _ _ _ _ Hlen).
    unfold get_scores_body. rewrite HP, HG, HUP. reflexivity.
  - intros ug UG HUG Hrows H3.
    rewrite (get_scores_guard_passed evaluate_assembly _ _ _ _ _ Hlen).
    unfold get_scores_body. rewrite HP, HG, HUP, HUG. cbn [bind].
    rewrite (compute_rmse_rowwise _ _ pcutoff Hrows). cbn [bind].
    destruct (compute_oks_total evaluate_assembly poses ground_truth
                default_oks_sigma default_margin None None H3) as (oks & Hoks).
    destruct (compute_oks_total evaluate_assembly poses ground_truth
                default_oks_sigma default_margin None (Some pcutoff) H3)
      as (oks_p & Hoks_p).
    rewrite Hoks, Hoks_p. cbn [bind].
    eexists. exists oks, oks_p. split; [reflexivity|].
    repeat split; reflexivity.
Qed.

Section AssemblyFacts.
Context {FL : Float}.

Lemma build_assemblies_fold_fresh (poses : dict array3) :
  forall acc,
    NoDup (keys acc ++ keys poses) ->
    fold_left (fun assemblies item =>
                 dict_set assemblies (fst item) (image_assemblies_of (snd item)))
              poses acc
    = acc ++ map (fun item => (fst item, image_assemblies_of (snd item))) poses.
Proof.
  induction poses as [|[image kp] rest IH]; intros acc Hnd; cbn [fold_left map].
  - rewrite app_nil_r. reflexivity.
  - cbn [fst snd]. simpl keys in Hnd.
    rewrite dict_set_fresh.
    2:{ intros Hin. apply NoDup_remove_2 in Hnd. apply Hnd.
        apply in_or_app. left. exact Hin. }
    rewrite IH.
    + rewrite <- app_assoc. reflexivity.
    + unfold keys in *. rewrite map_app. simpl. rewrite <- app_assoc. exact Hnd.
Qed.

Lemma dict_get_NoDup {V} (d : dict V) k v :
  NoDup (keys d) -> In (k, v) d -> dict_get d k = Ok v.
Proof.
  induction d as [|[k' v'] d IH]; intros Hnd Hin; [destruct Hin|].
  simpl in Hnd. inversion Hnd as [|? ? Hnot Hnd']; subst.
  cbn [dict_get]. destruct Hin as [E|Hin].
  - injection E as -> ->. rewrite String.eqb_refl. reflexivity.
  - destruct (String.eqb_spec k k') as [->|_].
    + exfalso. apply Hnot. apply (in_map fst) in Hin. exact Hin.
    + apply IH; assumption.
Qed.

(** X19.  [build_assemblies] keeps every image, in order: an image maps to
    the assemblies of its individuals that have at least one valid joint, in
    the individuals' order, and an image none of whose individuals has one
    stays in the result, with an empty list. *)
Theorem build_assemblies_keeps_every_image (poses : dict array3) :
  NoDup (keys poses) ->
  keys (build_assemblies poses) = keys poses
  /\ (forall image keypoints,
         In (image, keypoints) poses ->
         dict_get (build_assemblies poses) image
         = Ok (filter (fun a => 0 <? Assembly_len a)
                      (map Assembly_from_array keypoints)))
  /\ (forall image keypoints,
         In (image, keypoints) poses ->
         (forall idv, In idv keypoints ->
                      Assembly_len (Assembly_from_array idv) = 0) ->
         dict_get (build_assemblies poses) image = Ok []).
Proof.
  intros Hnd.
  assert (Hb : build_assemblies poses
               = map (fun item => (fst item, image_assemblies_of (snd item)))
                     poses).
  { unfold build_assemblies.
    rewrite (build_assemblies_fold_fresh poses [] Hnd). reflexivity. }
  assert (Hk : keys (build_assemblies poses) = keys poses).
  { rewrite Hb. unfold keys. rewrite map_map. reflexivity. }
  assert (Hg : forall image keypoints,
             In (image, keypoints) poses ->
             dict_get (build_assemblies poses) image
             = Ok (filter (fun a => 0 <? Assembly_len a)
                          (map Assembly_from_array keypoints))).
  { intros image kp Hin.
    apply dict_get_NoDup; [rewrite Hk; exact Hnd|].
    rewrite Hb, <- image_assemblies_of_filter.
    apply (in_map (fun item => (fst item, image_assemblies_of (snd item)))
                  poses (image, kp) Hin). }
  split; [exact Hk|]. split; [exact Hg|].
  intros image kp Hin Hempty. rewrite (Hg image kp Hin). f_equal.
  apply filter_none. intros a Ha.
  apply in_map_iff in Ha as (idv & <- & Hidv).
  rewrite (Hempty idv Hidv). reflexivity.
Qed.

End AssemblyFacts.

Lemma get_scores_unique_bodyparts_enter_rmse_only_witness :
  get_scores Examples.evaluator Examples.poses Examples.ground_truth_xy
             (Some Examples.poses) None (Examples.num (-1))
  = Raise (TypeError "'NoneType' object is not subscriptable")
  /\ exists scores,
      get_scores Examples.evaluator Examples.poses Examples.ground_truth_xy
                 (Some Examples.poses) (Some Examples.ground_truth_xy)
                 (Examples.num (-1))
      = Ok scores.
Proof.
  destruct (get_scores_unique_bodyparts_enter_rmse_only
              binary64 Examples.evaluator
              Examples.poses Examples.ground_truth_xy Examples.poses
              (Examples.num (-1)) _ _ _ eq_refl eq_refl eq_refl eq_refl)
    as (Hnone & Hsome).
  split; [exact Hnone|].
  destruct (Hsome Examples.ground_truth_xy _ eq_refl eq_refl)
    as (scores & _ & _ & Hrun & _).
  - intros path kws [E|[]]. injection E as <- <-.
    unfold three_columns. repeat constructor.
  - exists scores. exact Hrun.
Defined.

Lemma build_assemblies_keeps_every_image_witness :
  keys (build_assemblies Examples.poses_low) = keys Examples.poses_low.
Proof.
  apply (@build_assemblies_keeps_every_image binary64 Examples.poses_low).
  repeat constructor. intros [].
Defined.

(** * Converting the keys of a snapshot *)

Section SnapshotKeyFacts.
Local Open Scope string_scope.

Lemma str_split_not_nil sep s : str_split sep s <> [].
Proof.
  destruct s as [|c s]; cbn [str_split]; [discriminate|].
  destruct (Ascii.eqb c sep); [discriminate|].
  destruct (str_split sep s); discriminate.
Qed.

Lemma str_join_cons sep p q l :
  str_join sep (p :: q :: l) = p ++ sep ++ str_join sep (q :: l).
Proof. reflexivity. Qed.

Lemma str_join_cons_char sep c p l :
  str_join sep (String c p :: l) = String c (str_join sep (p :: l)).
Proof. destruct l; reflexivity. Qed.

(** Joining the parts of a split gives the string back. *)
Lemma str_join_split sep s :
  str_join (String sep EmptyString) (str_split sep s) = s.
Proof.
  induction s as [|c s IH]; [reflexivity|].
  cbn [str_split].
  destruct (Ascii.eqb_spec c sep) as [->|_].
  - destruct (str_split sep s) as [|p ps] eqn:E;
      [exfalso; exact (str_split_not_nil sep s E)|].
    rewrite str_join_cons, IH. reflexivity.
  - destruct (str_split sep s) as [|p ps] eqn:E;
      [exfalso; exact (str_split_not_nil sep s E)|].
    rewrite str_join_cons_char, IH. reflexivity.
Qed.

(** Splitting at a separator splits either side on its own. *)
Lemma str_split_app sep a b :
  str_split sep (a ++ String sep b)
  = (str_split sep a ++ str_split sep b)%list.
Proof.
  induction a as [|c a IH]; cbn [append str_split].
  - rewrite Ascii.eqb_refl. reflexivity.
  - destruct (Ascii.eqb c sep); rewrite IH; [reflexivity|].
    destruct (str_split sep a) as [|p ps] eqn:E;
      [exfalso; exact (str_split_not_nil sep a E)|].
    reflexivity.
Qed.

Lemma string_app_inv_head (a x y : string) : a ++ x = a ++ y -> x = y.
Proof.
  induction a as [|c a IH]; cbn [append]; intros H; [exact H|].
  injection H as H. exact (IH H).
Qed.

Lemma map_key_other (k : string) :
  firstn 4 (str_split "." k) <> heatmap_head_model -> map_key k = Ok k.
Proof.
  intros Hne. unfold map_key.
  destruct (list_eq_dec string_dec (firstn 4 (str_split "." k))
                        heatmap_head_model) as [E|_]; [contradiction|].
  cbn [bind]. rewrite str_join_split. reflexivity.
Qed.

(** A key is one of the heatmap head's model exactly when it is the four
    parts alone or goes on after a separator. *)
Lemma heatmap_head_model_key (k : string) :
  firstn 4 (str_split "." k) = heatmap_head_model ->
  exists tail,
    (tail = "" \/ exists s, tail = String "." s)
    /\ k = "heads.bodypart.heatmap_head.model" ++ tail
    /\ map_key k = Ok ("heads.bodypart.heatmap_head.deconv_layers.0" ++ tail).
Proof.
  intros E.
  assert (Hsplit : str_split "." k
                   = (heatmap_head_model ++ skipn 4 (str_split "." k))%list)
    by (rewrite <- E; symmetry; apply firstn_skipn).
  assert (Hk := str_join_split "." k).
  unfold map_key.
  destruct (list_eq_dec string_dec (firstn 4 (str_split "." k))
                        heatmap_head_model) as [_|Hne]; [|contradiction].
  rewrite Hsplit in Hk |- *.
  destruct (skipn 4 (str_split "." k)) as [|r rs].
  - exists "". split; [left; reflexivity|].
    split; [symmetry; exact Hk | reflexivity].
  - exists (String "." (str_join "." (r :: rs))).
    split; [right; eexists; reflexivity|].
    split; [symmetry; exact Hk | reflexivity].
Qed.

Lemma map_key_cases (k : string) :
  (firstn 4 (str_split "." k) <> heatmap_head_model /\ map_key k = Ok k)
  \/ exists tail,
      (tail = "" \/ exists s, tail = String "." s)
      /\ k = "heads.bodypart.heatmap_head.model" ++ tail
      /\ map_key k = Ok ("heads.bodypart.heatmap_head.deconv_layers.0" ++ tail).
Proof.
  destruct (list_eq_dec string_dec (firstn 4 (str_split "." k))
                        heatmap_head_model) as [E|Hne].
  - right. apply heatmap_head_model_key. exact E.
  - left. split; [exact Hne | apply map_key_other; exact Hne].
Qed.

Lemma renamed_key_is_fixed (tail : string) :
  (tail = "" \/ exists s, tail = String "." s) ->
  map_key ("heads.bodypart.heatmap_head.deconv_layers.0" ++ tail)
  = Ok ("heads.bodypart.heatmap_head.deconv_layers.0" ++ tail)
  /\ is_dropped ("heads.bodypart.heatmap_head.deconv_layers.0" ++ tail) = false.
Proof.
  intros Htail. split; [|reflexivity].
  apply map_key_other.
  destruct Htail as [->|(s & ->)]; [discriminate|].
  rewrite (str_split_app "." "heads.bodypart.heatmap_head.deconv_layers.0" s).
  discriminate.
Qed.

(** X20.  A key that is kept is never rejected, and is renamed only under
    the heatmap head's model: there [model] becomes [deconv_layers.0] and
    what follows is kept; every other key is returned as it is.  A renamed
    key is not renamed again. *)
Theorem map_key_renames_the_heatmap_head_model_only (k : string) :
  exists k',
    map_key k = Ok k'
    /\ (forall s, k = "heads.bodypart.heatmap_head.model." ++ s ->
                  k' = "heads.bodypart.heatmap_head.deconv_layers.0." ++ s)
    /\ (k = "heads.bodypart.heatmap_head.model" ->
        k' = "heads.bodypart.heatmap_head.deconv_layers.0")
    /\ (firstn 4 (str_split "." k) <> heatmap_head_model -> k' = k)
    /\ map_key k' = Ok k'.
Proof.
  destruct (map_key_cases k) as [(Hne & Hk)|(tail & Htail & Hk & Hm)].
  - exists k. split; [exact Hk|].
    split; [|split; [|split; [reflexivity | exact Hk]]].
    + intros s ->. exfalso. apply Hne.
      change ("heads.bodypart.heatmap_head.model." ++ s)
        with ("heads.bodypart.heatmap_head.model" ++ String "." s).
      rewrite str_split_app. reflexivity.
    + intros ->. exfalso. apply Hne. reflexivity.
  - exists ("heads.bodypart.heatmap_head.deconv_layers.0" ++ tail).
    split; [exact Hm|].
    split; [|split; [|split]].
    + intros s Hs. rewrite Hk in Hs.
      change ("heads.bodypart.heatmap_head.model." ++ s)
        with ("heads.bodypart.heatmap_head.model" ++ String "." s) in Hs.
      apply string_app_inv_head in Hs. subst tail. reflexivity.
    + intros Hs. rewrite Hk in Hs.
      change "heads.bodypart.heatmap_head.model"
        with ("heads.bodypart.heatmap_head.model" ++ "") in Hs at 2.
      apply string_app_inv_head in Hs. subst tail. reflexivity.
    + intros Hne. exfalso. apply Hne. rewrite Hk.
      destruct Htail as [->|(s & ->)]; [reflexivity|].
      rewrite str_split_app. reflexivity.
    + apply renamed_key_is_fixed. exact Htail.
Qed.

Lemma map_key_output_fixed (k k' : string) :
  map_key k = Ok k' -> is_dropped k = false ->
  map_key k' = Ok k' /\ is_dropped k' = false.
Proof.
  intros Hm Hd.
  destruct (map_key_cases k) as [(_ & Hk)|(tail & Htail & _ & Hk)];
    rewrite Hk in Hm; injection Hm as <-.
  - auto.
  - apply renamed_key_is_fixed. exact Htail.
Qed.

Lemma map_key_total (k : string) : exists k', map_key k = Ok k'.
Proof.
  destruct (map_key_cases k) as [(_ & Hk)|(tail & _ & _ & Hk)]; eauto.
Qed.

Lemma In_dict_set {V} (d : dict V) k v k' v' :
  In (k', v') (dict_set d k v) -> (k' = k /\ v' = v) \/ In (k', v') d.
Proof.
  induction d as [|[k0 v0] d IH]; cbn [dict_set].
  - intros [E|[]]. injection E as <- <-. auto.
  - destruct (String.eqb_spec k k0) as [->|_].
    + intros [E|Hin]; [injection E as <- <-; auto | right; right; exact Hin].
    + intros [E|Hin]; [right; left; exact E|].
      destruct (IH Hin) as [?|?]; [auto | right; right; assumption].
Qed.

Lemma keys_dict_set_cases {V} (d : dict V) k v :
  keys (dict_set d k v) = keys d
  \/ (~ In k (keys d) /\ keys (dict_set d k v) = (keys d ++ [k])%list).
Proof.
  destruct (in_dec string_dec k (keys d)) as [Hin|Hnot].
  - left. apply keys_dict_set. exact Hin.
  - right. split; [exact Hnot|]. rewrite (dict_set_fresh d k v Hnot).
    unfold keys. rewrite map_app. reflexivity.
Qed.

Lemma NoDup_keys_dict_set {V} (d : dict V) k v :
  NoDup (keys d) -> NoDup (keys (dict_set d k v)).
Proof.
  intros Hnd. destruct (keys_dict_set_cases d k v) as [->|(Hnot & ->)];
    [exact Hnd|].
  apply NoDup_app; [exact Hnd | repeat constructor; intros [] |].
  intros x Hx [<-|[]]. contradiction.
Qed.

Lemma In_keys_dict_set {V} (d : dict V) k v :
  In k (keys (dict_set d k v))
  /\ forall k0, In k0 (keys d) -> In k0 (keys (dict_set d k v)).
Proof.
  destruct (keys_dict_set_cases d k v) as [E|(Hnot & E)]; rewrite E.
  - split; [|auto].
    destruct (in_dec string_dec k (keys d)) as [Hin|Hnot]; [exact Hin|].
    exfalso. rewrite (dict_set_fresh d k v Hnot) in E.
    unfold keys in E. rewrite map_app in E.
    apply (f_equal (@List.length string)) in E.
    rewrite length_app in E. simpl in E. lia.
  - split; [apply in_or_app; right; left; reflexivity|].
    intros k0 H0. apply in_or_app. left. exact H0.
Qed.

(** The loop, with what it has collected so far. *)
Lemma map_model_keys_loop_spec {V} (items : dict V) :
  forall acc,
    NoDup (keys acc) ->
    exists out,
      map_model_keys_loop items acc = Ok out
      /\ NoDup (keys out)
      /\ (forall k' v, In (k', v) out ->
             In (k', v) acc
             \/ exists k, In (k, v) items /\ is_dropped k = false
                          /\ map_key k = Ok k')
      /\ (forall k', In k' (keys acc) -> In k' (keys out))
      /\ (forall k v, In (k, v) items -> is_dropped k = false ->
             exists k', map_key k = Ok k' /\ In k' (keys out)).
Proof.
  induction items as [|[k v] rest IH]; intros acc Hnd; cbn [map_model_keys_loop].
  - exists acc. split; [reflexivity|]. split; [exact Hnd|].
    split; [auto|]. split; [auto|]. intros k v [].
  - destruct (is_dropped k) eqn:Hd; cbn [negb].
    + destruct (IH acc Hnd) as (out & Hrun & Hnd' & Hfrom & Hacc & Hall).
      exists out. split; [exact Hrun|]. split; [exact Hnd'|].
      split; [|split; [exact Hacc|]].
      * intros k' v' Hin. destruct (Hfrom k' v' Hin) as [?|(k0 & H0 & ?)];
          [auto|]. right. exists k0. split; [right; exact H0 | assumption].
      * intros k0 v0 [E|Hin] H0; [injection E as -> ->; congruence|].
        apply (Hall k0 v0 Hin H0).
    + destruct (map_key_total k) as (key & Hkey). rewrite Hkey. cbn [bind].
      destruct (IH (dict_set acc key v) (NoDup_keys_dict_set acc key v Hnd))
        as (out & Hrun & Hnd' & Hfrom & Hacc & Hall).
      destruct (In_keys_dict_set acc key v) as (Hself & Hold).
      exists out. split; [exact Hrun|]. split; [exact Hnd'|].
      split; [|split].
      * intros k' v' Hin. destruct (Hfrom k' v' Hin) as [Hset|(k0 & H0 & ?)].
        -- destruct (In_dict_set acc key v k' v' Hset) as [(-> & ->)|?];
             [|auto].
           right. exists k. split; [left; reflexivity | auto].
        -- right. exists k0. split; [right; exact H0 | assumption].
      * intros k' Hk'. apply Hacc, Hold, Hk'.
      * intros k0 v0 [E|Hin] H0.
        -- injection E as <- <-. exists key. split; [exact Hkey|].
           apply Hacc, Hself.
        -- apply (Hall k0 v0 Hin H0).
Qed.

Lemma map_model_keys_loop_fixed {V} (items : dict V) :
  forall acc,
    NoDup (keys acc ++ keys items)%list ->
    (forall k, In k (keys items) -> is_dropped k = false /\ map_key k = Ok k) ->
    map_model_keys_loop items acc = Ok (acc ++ items)%list.
Proof.
  induction items as [|[k v] rest IH]; intros acc Hnd Hfix;
    cbn [map_model_keys_loop].
  - rewrite app_nil_r. reflexivity.
  - destruct (Hfix k (or_introl eq_refl)) as (-> & ->). cbn [negb bind].
    simpl keys in Hnd.
    rewrite dict_set_fresh.
    2:{ intros Hin. apply NoDup_remove_2 in Hnd. apply Hnd.
        apply in_or_app. left. exact Hin. }
    rewrite IH.
    + rewrite <- app_assoc. reflexivity.
    + unfold keys in *. rewrite map_app. simpl. rewrite <- app_assoc. exact Hnd.
    + intros k0 H0. apply Hfix. right. exact H0.
Qed.

(** X21.  [_map_model_keys] never raises.  Every entry of the result holds
    the value of a kept entry of the state dict under that entry's new key,
    every kept entry's new key is in the result, no key of the result starts
    with a dropped prefix, and no key occurs twice. *)
Theorem map_model_keys_keeps_the_other_entries {V} (state_dict : dict V) :
  exists updated_dict,
    _map_model_keys state_dict = Ok updated_dict
    /\ NoDup (keys updated_dict)
    /\ (forall k' v, In (k', v) updated_dict ->
           is_dropped k' = false
           /\ exists k, In (k, v) state_dict /\ is_dropped k = false
                        /\ map_key k = Ok k')
    /\ (forall k v, In (k, v) state_dict -> is_dropped k = false ->
           exists k', map_key k = Ok k' /\ In k' (keys updated_dict)).
Proof.
  destruct (map_model_keys_loop_spec state_dict [] (NoDup_nil _))
    as (out & Hrun & Hnd & Hfrom & _ & Hall).
  exists out. split; [exact Hrun|]. split; [exact Hnd|].
  split; [|exact Hall].
  intros k' v Hin. destruct (Hfrom k' v Hin) as [[]|(k & Hk & Hd & Hm)].
  split; [apply (map_key_output_fixed k k' Hm Hd) | eauto].
Qed.

(** X22.  Converting a converted state dict changes nothing. *)
Theorem map_model_keys_is_idempotent {V} (state_dict updated_dict : dict V) :
  _map_model_keys state_dict = Ok updated_dict ->
  _map_model_keys updated_dict = Ok updated_dict.
Proof.
  intros Hrun.
  destruct (map_model_keys_loop_spec state_dict [] (NoDup_nil _))
    as (out & Hrun' & Hnd & Hfrom & _ & _).
  unfold _map_model_keys in Hrun. rewrite Hrun in Hrun'. injection Hrun' as <-.
  unfold _map_model_keys.
  rewrite (map_model_keys_loop_fixed updated_dict [] Hnd); [reflexivity|].
  intros k' Hk'. apply in_map_iff in Hk' as ([k0 v] & <- & Hin). cbn [fst].
  destruct (Hfrom k0 v Hin) as [[]|(k & _ & Hd & Hm)].
  destruct (map_key_output_fixed k k0 Hm Hd). auto.
Qed.

End SnapshotKeyFacts.

Lemma map_key_renames_the_heatmap_head_model_only_witness :
  map_key "heads.bodypart.heatmap_head.model.weight"
  = Ok "heads.bodypart.heatmap_head.deconv_layers.0.weight".
Proof.
  destruct (map_key_renames_the_heatmap_head_model_only
              "heads.bodypart.heatmap_head.model.weight")
    as (k' & Hk & Hren & _).
  rewrite Hk. f_equal. apply (Hren "weight"). reflexivity.
Defined.

Lemma map_model_keys_keeps_the_other_entries_witness :
  exists updated_dict,
    _map_model_keys example_state_dict = Ok updated_dict
    /\ NoDup (keys updated_dict).
Proof.
  destruct (map_model_keys_keeps_the_other_entries example_state_dict)
    as (updated_dict & Hrun & Hnd & _).
  exists updated_dict. auto.
Defined.

Lemma map_model_keys_is_idempotent_witness :
  _map_model_keys
    [("backbone.model.conv1.weight", 0);
     ("heads.bodypart.heatmap_head.deconv_layers.0.weight", 2);
     ("heads.bodypart.locref_head.model.weight", 3)]
  = Ok [("backbone.model.conv1.weight", 0);
        ("heads.bodypart.heatmap_head.deconv_layers.0.weight", 2);
        ("heads.bodypart.locref_head.model.weight", 3)].
Proof.
  apply (map_model_keys_is_idempotent example_state_dict). reflexivity.
Defined.

